(** * BananaSlice: session registry, layer stack and scene reconciliation

    A shallow embedding of the projects store (multi-tab session manager),
    of the layer stack operations and of the layer renderer's
    reconciliation pass, together with the properties the specification
    states about them.

    Conventions of the embedding.
    - A JavaScript [Map] is an association list kept in insertion order
      ([JsMap]), because [for (const [id, project] of projects)] walks it
      in that order.
    - [string | null] is [option string]; [undefined] and [null] are both
      [None].  JavaScript truthiness of such a value is [truthy].
    - Numbers that are only stored and copied (zoom, pan, sizes, feather
      radius) are integers [Z].
    - A string is held as the bytes of its UTF-8 encoding (a lone
      surrogate as the three bytes of its code point, so that distinct
      strings have distinct bytes): an ASCII character is one byte below
      128, and every byte of any other character is 128 or more.
    - [String.prototype.toLowerCase] belongs to the JavaScript engine: it
      is a parameter ([Engine]), known only on strings of ASCII
      characters.
    - Every [set] of the projects store and every action of a live store
      is recorded in an event trace, so that the order of the effects of
      an operation can be stated. *)

From Stdlib Require Import ZArith String Ascii DecimalString DecimalZ DecimalPos.
From stdpp Require Import base tactics option list strings sorting.

Local Open Scope string_scope.
Local Open Scope list_scope.
Local Open Scope Z_scope.

(** ** JavaScript values *)

(** [if (s)] for [s : string | null]: null, undefined and the empty string
    are falsy. *)
Definition truthy (s : option string) : bool :=
  match s with
  | Some EmptyString => false
  | Some _ => true
  | None => false
  end.

(** [a || d] for strings. *)
Definition or_else (s : option string) (d : string) : string :=
  if truthy s then default d s else d.

(** [arr.indexOf(x)]: the first position of [x], or [-1]. *)
Definition indexOf (x : string) (arr : list string) : Z :=
  match list_find (λ y, y = x) arr with
  | Some (i, _) => Z.of_nat i
  | None => -1
  end.

(** [arr[i]] for a number [i]: [undefined] out of range. *)
Definition at_index {A} (arr : list A) (i : Z) : option A :=
  if bool_decide (i < 0) then None else arr !! Z.to_nat i.

(** The lower-case letter of an ASCII upper-case letter, and the slash for
    the backslash. *)
Definition lower_ascii (c : ascii) : ascii :=
  let n := nat_of_ascii c in
  if bool_decide (65 ≤ n ≤ 90)%nat then ascii_of_nat (n + 32) else c.

Definition slash_ascii (c : ascii) : ascii :=
  if bool_decide (c = "\"%char) then "/"%char else c.

Fixpoint map_string (f : ascii → ascii) (s : string) : string :=
  match s with
  | EmptyString => EmptyString
  | String c r => String (f c) (map_string f r)
  end.

(** [s.replace(/\\/g, '/')]: in UTF-8 the byte of the backslash occurs
    in no other character. *)
Definition replace_backslashes (s : string) : string := map_string slash_ascii s.

Fixpoint string_forall (P : ascii → bool) (s : string) : bool :=
  match s with
  | EmptyString => true
  | String c r => P c && string_forall P r
  end.

(** A byte that is an ASCII character. *)
Definition is_ascii (c : ascii) : bool := bool_decide (nat_of_ascii c < 128)%nat.

(** [s.toLowerCase()] is the engine's: it follows the case mappings of
    Unicode, which are no map over the characters (some characters
    lower-case to two, a capital sigma depends on its neighbours) and
    change with the version of Unicode the engine carries.  It is taken
    as a parameter.  What is known of it in every engine is what it does
    to a string of ASCII characters: the letters [A] to [Z] become [a] to
    [z] and nothing else changes. *)
Class Engine := {
  toLowerCase : string → string;
  toLowerCase_ascii (s : string) :
    string_forall is_ascii s = true → toLowerCase s = map_string lower_ascii s
}.

(** ** Insertion-ordered maps with string keys *)

Module JsMap.
Section Ops.
Context {V : Type}.

Definition t := list (string * V).

Definition empty : list (string * V) := [].

Fixpoint get (k : string) (m : list (string * V)) : option V :=
  match m with
  | [] => None
  | (k', v) :: r => if bool_decide (k' = k) then Some v else get k r
  end.

(** [m.set(k, v)]: an existing key keeps its place, a new one goes last. *)
Fixpoint set (k : string) (v : V) (m : list (string * V)) : list (string * V) :=
  match m with
  | [] => [(k, v)]
  | (k', v') :: r =>
      if bool_decide (k' = k) then (k, v) :: r else (k', v') :: set k v r
  end.

Definition delete (k : string) (m : list (string * V)) : list (string * V) :=
  filter (λ p, p.1 ≠ k) m.

Definition keys (m : list (string * V)) : list string := m.*1.
End Ops.
Arguments t : clear implicits.
End JsMap.

(** ** Data model *)

Module BaseImage.
Record t := mk { data : string; width : Z; height : Z; format : string }.
End BaseImage.

Module Point.
Record t := mk { x : Z; y : Z }.
End Point.

(** The fields of [Layer] that the sources read or write. *)
Module Layer.
Record t := mk {
  id : string;
  name : string;
  type : string;
  visible : bool;
  opacity : Z;
  order : Z;
  x : option Z;
  y : option Z;
  width : option Z;
  height : option Z;
  imageData : string;
  originalImageData : option string;
  featherRadius : option Z;
  polygonPoints : option (list Point.t)
}.
End Layer.

Module HistorySnapshot.
Record t := mk { layers : list Layer.t; activeLayerId : option string }.
End HistorySnapshot.

Module ProjectSnapshot.
Record t := mk {
  id : string;
  name : string;
  createdAt : Z;
  baseImage : option BaseImage.t;
  imagePath : option string;
  zoom : Z;
  panX : Z;
  panY : Z;
  layers : list Layer.t;
  activeLayerId : option string;
  historyPast : list HistorySnapshot.t;
  historyFuture : list HistorySnapshot.t;
  isDirty : bool
}.

(** [{ ...project, name }], [{ ...project, isDirty }] and
    [{ ...project, imagePath }]. *)
Definition with_name (n : string) (p : t) : t :=
  mk (id p) n (createdAt p) (baseImage p) (imagePath p) (zoom p) (panX p)
     (panY p) (layers p) (activeLayerId p) (historyPast p) (historyFuture p)
     (isDirty p).

Definition with_isDirty (d : bool) (p : t) : t :=
  mk (id p) (name p) (createdAt p) (baseImage p) (imagePath p) (zoom p)
     (panX p) (panY p) (layers p) (activeLayerId p) (historyPast p)
     (historyFuture p) d.

Definition with_imagePath (ip : option string) (p : t) : t :=
  mk (id p) (name p) (createdAt p) (baseImage p) ip (zoom p) (panX p)
     (panY p) (layers p) (activeLayerId p) (historyPast p) (historyFuture p)
     (isDirty p).
End ProjectSnapshot.

(** The live stores, as far as the projects store reads them. *)
Module CanvasState.
Record t := mk {
  baseImage : option BaseImage.t;
  imagePath : option string;
  zoom : Z;
  panX : Z;
  panY : Z
}.
End CanvasState.

Module LayerState.
Record t := mk { layers : list Layer.t; activeLayerId : option string }.
End LayerState.

Module HistoryState.
Record t := mk {
  past : list HistorySnapshot.t;
  future : list HistorySnapshot.t;
  isDirty : bool
}.
End HistoryState.

Module SelectionState.
Record t := mk { activeSelection : option (list Point.t) }.
End SelectionState.

(** The state of [useProjectsStore]. *)
Module ProjectsState.
Record t := mk {
  projects : JsMap.t ProjectSnapshot.t;
  activeProjectId : option string;
  tabOrder : list string
}.

Definition with_projects (m : JsMap.t ProjectSnapshot.t) (s : t) : t :=
  mk m (activeProjectId s) (tabOrder s).

Definition with_active (a : option string) (s : t) : t :=
  mk (projects s) a (tabOrder s).

(** [projects: new Map(), activeProjectId: null, tabOrder: []]. *)
Definition initial : t := mk [] None [].
End ProjectsState.

(** Everything the operations can read or write: the projects store, the
    four live stores and the module variable [previousImagePath] of the
    canvas subscription. *)
Module World.
Record t := mk {
  reg : ProjectsState.t;
  canvas : CanvasState.t;
  layerStore : LayerState.t;
  history : HistoryState.t;
  selection : SelectionState.t;
  previousImagePath : option string
}.

Definition with_reg (r : ProjectsState.t) (w : t) : t :=
  mk r (canvas w) (layerStore w) (history w) (selection w) (previousImagePath w).
Definition with_canvas (c : CanvasState.t) (w : t) : t :=
  mk (reg w) c (layerStore w) (history w) (selection w) (previousImagePath w).
Definition with_layerStore (l : LayerState.t) (w : t) : t :=
  mk (reg w) (canvas w) l (history w) (selection w) (previousImagePath w).
Definition with_history (h : HistoryState.t) (w : t) : t :=
  mk (reg w) (canvas w) (layerStore w) h (selection w) (previousImagePath w).
Definition with_selection (s : SelectionState.t) (w : t) : t :=
  mk (reg w) (canvas w) (layerStore w) (history w) s (previousImagePath w).
Definition with_previousImagePath (p : option string) (w : t) : t :=
  mk (reg w) (canvas w) (layerStore w) (history w) (selection w) p.
End World.

(** ** The live stores' actions

    [canvasStore], [layerStore], [historyStore] and [selectionStore] are
    imported by the projects store but their sources are not among the
    files: the actions the projects store calls are taken as parameters,
    each acting on the state of its own store. *)

Class LiveStores := {
  setBaseImage : BaseImage.t → string → CanvasState.t → CanvasState.t;
  clearImage : CanvasState.t → CanvasState.t;
  setZoom : Z → CanvasState.t → CanvasState.t;
  setPan : Z → Z → CanvasState.t → CanvasState.t;
  restoreLayers : list Layer.t → option string → LayerState.t → LayerState.t;
  clearLayers : LayerState.t → LayerState.t;
  restoreState : list HistorySnapshot.t → list HistorySnapshot.t → bool →
                 HistoryState.t → HistoryState.t;
  reset : HistoryState.t → HistoryState.t;
  clearSelection : SelectionState.t → SelectionState.t
}.

(** The calls the projects store makes on the live stores. *)
Inductive StoreAction :=
| SetBaseImage (img : BaseImage.t) (path : string)
| ClearImage
| SetZoom (zoom : Z)
| SetPan (panX panY : Z)
| RestoreLayers (layers : list Layer.t) (activeLayerId : option string)
| ClearLayers
| RestoreState (past future : list HistorySnapshot.t) (isDirty : bool)
| Reset
| ClearSelection.

(** ** Effects and their trace *)

Inductive Event :=
| ProjectsSet (st : ProjectsState.t)
    (* a [set]/[setState] of the projects store, with the state it leaves *)
| StoreCall (a : StoreAction) (observed : option string).
    (* an action of a live store, with the [activeProjectId] in force
       while it runs, which is what its subscribers read *)

(** State-and-trace monad of the operations. *)
Definition M (A : Type) : Type := World.t → A * World.t * list Event.

Definition ret {A} (a : A) : M A := λ w, (a, w, []).

Definition bind {A B} (m : M A) (f : A → M B) : M B :=
  λ w, let '(a, w1, t1) := m w in
       let '(b, w2, t2) := f a w1 in
       (b, w2, t1 ++ t2).

Declare Scope session_scope.
Delimit Scope session_scope with session.
Notation "x <- c1 ;; c2" := (bind c1 (λ x, c2))
  (at level 100, c1 at next level, right associativity) : session_scope.
Notation "c1 ;; c2" := (bind c1 (λ _, c2))
  (at level 100, right associativity) : session_scope.
Local Open Scope session_scope.

Definition result {A} (r : A * World.t * list Event) : A := r.1.1.
Definition final {A} (r : A * World.t * list Event) : World.t := r.1.2.
Definition trace {A} (r : A * World.t * list Event) : list Event := r.2.
Global Arguments result : simpl never.
Global Arguments final : simpl never.
Global Arguments trace : simpl never.

(** [get()] and [set(...)] of the projects store. *)
Definition get : M ProjectsState.t := λ w, (World.reg w, w, []).

Definition set (f : ProjectsState.t → ProjectsState.t) : M unit :=
  λ w, let st := f (World.reg w) in (tt, World.with_reg st w, [ProjectsSet st]).

(** [if (c) { m }]. *)
Definition when (c : bool) (m : M unit) : M unit := if c then m else ret tt.

Section Session.
Context `{LiveStores}.
Context {engine : Engine}.

(** *** Subscriptions (toolStore.ts 426-458) *)

(** [useHistoryStore.subscribe(state => state.isDirty, isDirty => ...)]. *)
Definition isDirtyListener (isDirty : bool) : M unit :=
  st <- get ;;
  let activeProjectId := ProjectsState.activeProjectId st in
  let projects := ProjectsState.projects st in
  if negb (truthy activeProjectId) then ret tt
  else
    match JsMap.get (default EmptyString activeProjectId) projects with
    | Some project =>
        if negb (bool_decide (ProjectSnapshot.isDirty project = isDirty)) then
          set (ProjectsState.with_projects
                 (JsMap.set (default EmptyString activeProjectId)
                    (ProjectSnapshot.with_isDirty isDirty project) projects))
        else ret tt
    | None => ret tt
    end.

(** [useCanvasStore.subscribe(state => ...)], with its module variable
    [previousImagePath]. *)
Definition imagePathListener (state : CanvasState.t) : M unit :=
  λ w,
    if negb (bool_decide (CanvasState.imagePath state = World.previousImagePath w))
    then
      (st <- get ;;
       let activeProjectId := ProjectsState.activeProjectId st in
       let projects := ProjectsState.projects st in
       if negb (truthy activeProjectId) then ret tt
       else
         match JsMap.get (default EmptyString activeProjectId) projects with
         | Some project =>
             if negb (bool_decide (ProjectSnapshot.imagePath project
                                   = CanvasState.imagePath state)) then
               set (ProjectsState.with_projects
                      (JsMap.set (default EmptyString activeProjectId)
                         (ProjectSnapshot.with_imagePath
                            (CanvasState.imagePath state) project) projects))
             else ret tt
         | None => ret tt
         end)
        (World.with_previousImagePath (CanvasState.imagePath state) w)
    else ret tt w.

(** *** Running an action of a live store

    The action changes its store; then the store's subscribers run: the
    canvas listener after every canvas change, the history listener when
    the selected [isDirty] changed. *)

Definition log (e : Event) : M unit := λ w, (tt, w, [e]).

Definition canvas_action (f : CanvasState.t → CanvasState.t) : M unit :=
  λ w, let c := f (World.canvas w) in
       imagePathListener c (World.with_canvas c w).

Definition history_action (f : HistoryState.t → HistoryState.t) : M unit :=
  λ w, let h := f (World.history w) in
       when (negb (bool_decide (HistoryState.isDirty h
                                = HistoryState.isDirty (World.history w))))
            (isDirtyListener (HistoryState.isDirty h))
            (World.with_history h w).

Definition layer_action (f : LayerState.t → LayerState.t) : M unit :=
  λ w, (tt, World.with_layerStore (f (World.layerStore w)) w, []).

Definition selection_action (f : SelectionState.t → SelectionState.t) : M unit :=
  λ w, (tt, World.with_selection (f (World.selection w)) w, []).

Definition perform (a : StoreAction) : M unit :=
  match a with
  | SetBaseImage img path => canvas_action (setBaseImage img path)
  | ClearImage => canvas_action clearImage
  | SetZoom z => canvas_action (setZoom z)
  | SetPan px py => canvas_action (setPan px py)
  | RestoreLayers ls a => layer_action (restoreLayers ls a)
  | ClearLayers => layer_action clearLayers
  | RestoreState p f d => history_action (restoreState p f d)
  | Reset => history_action reset
  | ClearSelection => selection_action clearSelection
  end.

Definition call (a : StoreAction) : M unit :=
  st <- get ;;
  log (StoreCall a (ProjectsState.activeProjectId st)) ;;
  perform a.

(** *** Helpers of the projects store (toolStore.ts 147-227) *)

(** [`project-${Date.now()}-${Math.random().toString(36).substr(2, 9)}`]:
    the clock reading [now] and the random suffix [rnd] come from the
    environment. *)
Definition generateProjectId (now : Z) (rnd : string) : string :=
  String.app "project-"
    (String.app (NilZero.string_of_int (Z.to_int now)) (String.app "-" rnd)).

Definition createEmptySnapshot (id name : string) (now : Z) : ProjectSnapshot.t :=
  {| ProjectSnapshot.id := id;
     ProjectSnapshot.name := name;
     ProjectSnapshot.createdAt := now;
     ProjectSnapshot.baseImage := None;
     ProjectSnapshot.imagePath := None;
     ProjectSnapshot.zoom := 100;
     ProjectSnapshot.panX := 0;
     ProjectSnapshot.panY := 0;
     ProjectSnapshot.layers := [];
     ProjectSnapshot.activeLayerId := None;
     ProjectSnapshot.historyPast := [];
     ProjectSnapshot.historyFuture := [];
     ProjectSnapshot.isDirty := false |}.

Definition captureCurrentState (id name : string) (now : Z) (w : World.t)
  : ProjectSnapshot.t :=
  let canvasState := World.canvas w in
  let layerState := World.layerStore w in
  let historyState := World.history w in
  {| ProjectSnapshot.id := id;
     ProjectSnapshot.name := name;
     ProjectSnapshot.createdAt := now;
     ProjectSnapshot.baseImage := CanvasState.baseImage canvasState;
     ProjectSnapshot.imagePath := CanvasState.imagePath canvasState;
     ProjectSnapshot.zoom := CanvasState.zoom canvasState;
     ProjectSnapshot.panX := CanvasState.panX canvasState;
     ProjectSnapshot.panY := CanvasState.panY canvasState;
     ProjectSnapshot.layers := LayerState.layers layerState;
     ProjectSnapshot.activeLayerId := LayerState.activeLayerId layerState;
     ProjectSnapshot.historyPast := HistoryState.past historyState;
     ProjectSnapshot.historyFuture := HistoryState.future historyState;
     ProjectSnapshot.isDirty := HistoryState.isDirty historyState |}.

Definition restoreStateFromSnapshot (snapshot : ProjectSnapshot.t) : M unit :=
  match ProjectSnapshot.baseImage snapshot with
  | Some img => call (SetBaseImage img (or_else (ProjectSnapshot.imagePath snapshot) EmptyString))
  | None => call ClearImage
  end ;;
  call (SetZoom (ProjectSnapshot.zoom snapshot)) ;;
  call (SetPan (ProjectSnapshot.panX snapshot) (ProjectSnapshot.panY snapshot)) ;;
  (if bool_decide (0 < Z.of_nat (length (ProjectSnapshot.layers snapshot)))
   then call (RestoreLayers (ProjectSnapshot.layers snapshot)
                            (ProjectSnapshot.activeLayerId snapshot))
   else call ClearLayers) ;;
  call (RestoreState (ProjectSnapshot.historyPast snapshot)
                     (ProjectSnapshot.historyFuture snapshot)
                     (ProjectSnapshot.isDirty snapshot)) ;;
  call ClearSelection.

Definition clearAllStores : M unit :=
  call ClearImage ;;
  call ClearLayers ;;
  call Reset ;;
  call ClearSelection.

(** *** The operations of [useProjectsStore] (toolStore.ts 229-424) *)

Definition saveCurrentProjectState (now : Z) : M unit :=
  st <- get ;;
  let activeProjectId := ProjectsState.activeProjectId st in
  let projects := ProjectsState.projects st in
  if negb (truthy activeProjectId) then ret tt
  else
    match JsMap.get (default EmptyString activeProjectId) projects with
    | None => ret tt
    | Some currentProject =>
        λ w,
          let updatedSnapshot :=
            captureCurrentState (default EmptyString activeProjectId)
              (ProjectSnapshot.name currentProject) now w in
          set (λ state,
                 ProjectsState.with_projects
                   (JsMap.set (default EmptyString activeProjectId) updatedSnapshot
                      (ProjectsState.projects state)) state) w
    end.

Definition createProject (name : option string) (fromDrop : bool)
    (now : Z) (rnd : string) : M string :=
  let id := generateProjectId now rnd in
  let projectName := or_else name "Untitled" in
  st <- get ;;
  let activeProjectId := ProjectsState.activeProjectId st in
  let tabOrder := ProjectsState.tabOrder st in
  when (truthy activeProjectId) (saveCurrentProjectState now) ;;
  set (ProjectsState.with_active None) ;;
  when (negb fromDrop) clearAllStores ;;
  let newProject := createEmptySnapshot id projectName now in
  set (λ state,
         {| ProjectsState.projects :=
              JsMap.set id newProject (ProjectsState.projects state);
            ProjectsState.activeProjectId := Some id;
            ProjectsState.tabOrder := tabOrder ++ [id] |}) ;;
  ret id.

Definition forceCloseProject (id : string) : M unit :=
  st <- get ;;
  let activeProjectId := ProjectsState.activeProjectId st in
  let tabOrder := ProjectsState.tabOrder st in
  let projects := ProjectsState.projects st in
  let tabIndex := indexOf id tabOrder in
  let newProjects := JsMap.delete id projects in
  let newTabOrder := filter (λ tid, tid ≠ id) tabOrder in
  let newActiveId : option string :=
    if bool_decide (0 < Z.of_nat (length newTabOrder)) then
      if bool_decide (Some id = activeProjectId) then
        let newIndex := Z.min tabIndex (Z.of_nat (length newTabOrder) - 1) in
        at_index newTabOrder newIndex
      else activeProjectId
    else None in
  when (negb (bool_decide (newActiveId = activeProjectId)))
    (set (ProjectsState.with_active None) ;;
     if truthy newActiveId then
       match JsMap.get (default EmptyString newActiveId) newProjects with
       | Some newActiveProject => restoreStateFromSnapshot newActiveProject
       | None => ret tt
       end
     else clearAllStores) ;;
  set (λ _,
         {| ProjectsState.projects := newProjects;
            ProjectsState.activeProjectId := newActiveId;
            ProjectsState.tabOrder := newTabOrder |}).

Definition closeProject (id : string) : M bool :=
  λ w,
    let activeProjectId := ProjectsState.activeProjectId (World.reg w) in
    let projects := ProjectsState.projects (World.reg w) in
    match JsMap.get id projects with
    | None => ret true w
    | Some project =>
        let isProjectDirty :=
          if bool_decide (Some id = activeProjectId)
          then HistoryState.isDirty (World.history w)
          else ProjectSnapshot.isDirty project in
        if isProjectDirty then ret false w
        else (forceCloseProject id ;; ret true) w
    end.

Definition switchProject (id : string) (now : Z) : M unit :=
  st <- get ;;
  let activeProjectId := ProjectsState.activeProjectId st in
  let projects := ProjectsState.projects st in
  if bool_decide (Some id = activeProjectId) then ret tt
  else
    match JsMap.get id projects with
    | None => ret tt
    | Some targetProject =>
        when (truthy activeProjectId) (saveCurrentProjectState now) ;;
        set (ProjectsState.with_active (Some id)) ;;
        restoreStateFromSnapshot targetProject
    end.

Definition updateProjectName (id name : string) : M unit :=
  st <- get ;;
  match JsMap.get id (ProjectsState.projects st) with
  | None => ret tt
  | Some project =>
      set (ProjectsState.with_projects
             (JsMap.set id (ProjectSnapshot.with_name name project)
                (ProjectsState.projects st)))
  end.

Definition hasUnsavedChanges (id : string) (w : World.t) : bool :=
  if bool_decide (Some id = ProjectsState.activeProjectId (World.reg w))
  then HistoryState.isDirty (World.history w)
  else
    match JsMap.get id (ProjectsState.projects (World.reg w)) with
    | Some project => ProjectSnapshot.isDirty project
    | None => false
    end.

(** [path.toLowerCase().replace(/\\/g, '/')]. *)
Definition normalizePath (path : string) : string :=
  replace_backslashes (toLowerCase path).

(** The loop [for (const [id, project] of projects)] of
    [findProjectByPath]. *)
Fixpoint scanProjects (normalizedPath : string)
    (entries : list (string * ProjectSnapshot.t)) : option string :=
  match entries with
  | [] => None
  | (id, project) :: rest =>
      if truthy (ProjectSnapshot.imagePath project)
         && bool_decide (normalizePath (default EmptyString (ProjectSnapshot.imagePath project))
                         = normalizedPath)
      then Some id
      else scanProjects normalizedPath rest
  end.

Definition findProjectByPath (filePath : string) (w : World.t) : option string :=
  let normalizedPath := normalizePath filePath in
  let projects := ProjectsState.projects (World.reg w) in
  let activeProjectId := ProjectsState.activeProjectId (World.reg w) in
  let currentImagePath := CanvasState.imagePath (World.canvas w) in
  if truthy activeProjectId && truthy currentImagePath
     && bool_decide (normalizePath (default EmptyString currentImagePath) = normalizedPath)
  then activeProjectId
  else scanProjects normalizedPath projects.

End Session.

(** * The layer stack *)

(** Modelled from the spec: the layer store ([layerStore.ts]) is not among
    the sources, only its tests and callers are.  [addLayer], [removeLayer]
    and [reorderLayers] follow section 4.1 of the specification: the
    array [layers] is the ordered view, bottom-most first; the fresh id of
    [addLayer] comes from the environment. *)
Module LayerStore.

Definition with_order (o : Z) (l : Layer.t) : Layer.t :=
  Layer.mk (Layer.id l) (Layer.name l) (Layer.type l) (Layer.visible l)
    (Layer.opacity l) o (Layer.x l) (Layer.y l) (Layer.width l)
    (Layer.height l) (Layer.imageData l) (Layer.originalImageData l)
    (Layer.featherRadius l) (Layer.polygonPoints l).

Definition with_id (i : string) (l : Layer.t) : Layer.t :=
  Layer.mk i (Layer.name l) (Layer.type l) (Layer.visible l)
    (Layer.opacity l) (Layer.order l) (Layer.x l) (Layer.y l) (Layer.width l)
    (Layer.height l) (Layer.imageData l) (Layer.originalImageData l)
    (Layer.featherRadius l) (Layer.polygonPoints l).

(** Modelled from the spec: [clearLayers()] of the absent layer store. *)
Definition clearLayers : LayerState.t := LayerState.mk [] None.

(** Modelled from the spec: [addLayer(spec)] of the absent layer store
    appends a layer with [order = currentCount] and a fresh id, returns
    the id; the new layer becomes active. *)
Definition addLayer (spec : Layer.t) (newId : string) (s : LayerState.t)
  : string * LayerState.t :=
  let layer := with_order (Z.of_nat (length (LayerState.layers s))) (with_id newId spec) in
  (newId, LayerState.mk (LayerState.layers s ++ [layer]) (Some newId)).

(** Modelled from the spec: the layer "now occupying the closest lower
    order", the base layer apart, which [removeLayer] of the absent layer
    store makes active. *)
Definition closest_below (o : Z) (layers : list Layer.t) : option string :=
  Layer.id <$>
    last (filter (λ l, Layer.order l < o ∧ Layer.type l ≠ "base") layers).

(** Modelled from the spec: [removeLayer(id)] of the absent layer store
    does nothing for the base layer or an absent id; otherwise the layer
    goes, the order of every layer above it is decremented, and an active
    removed layer hands over to the layer at the closest lower order. *)
Definition removeLayer (id : string) (s : LayerState.t) : LayerState.t :=
  match list_find (λ l, Layer.id l = id) (LayerState.layers s) with
  | None => s
  | Some (i, removed) =>
      if bool_decide (Layer.type removed = "base") then s
      else
        let layers :=
          (λ l, if bool_decide (Layer.order removed < Layer.order l)
                then with_order (Layer.order l - 1) l else l)
            <$> delete i (LayerState.layers s) in
        LayerState.mk layers
          (if bool_decide (LayerState.activeLayerId s = Some id)
           then closest_below (Layer.order removed) layers
           else LayerState.activeLayerId s)
  end.

Inductive outcome :=
| Done (s : LayerState.t)
| IndexError.

(** Modelled from the spec: [reorderLayers(fromIndex, toIndex)] of the
    absent layer store moves the element at [fromIndex] to [toIndex] and
    gives every layer its position as [order]; an index out of range is
    an [IndexError]. *)
Definition reorderLayers (fromIndex toIndex : Z) (s : LayerState.t) : outcome :=
  let n := Z.of_nat (length (LayerState.layers s)) in
  if bool_decide (0 ≤ fromIndex < n ∧ 0 ≤ toIndex < n) then
    match LayerState.layers s !! Z.to_nat fromIndex with
    | Some moved =>
        let others := delete (Z.to_nat fromIndex) (LayerState.layers s) in
        let arranged :=
          take (Z.to_nat toIndex) others ++ moved :: drop (Z.to_nat toIndex) others in
        Done (LayerState.mk (imap (λ i l, with_order (Z.of_nat i) l) arranged)
                (LayerState.activeLayerId s))
    | None => IndexError
    end
  else IndexError.

(** Sequences of the three operations; a failed reorder leaves the stack
    as it was. *)
Inductive Op :=
| AddLayer (spec : Layer.t) (newId : string)
| RemoveLayer (id : string)
| ReorderLayers (fromIndex toIndex : Z).

Definition step (op : Op) (s : LayerState.t) : LayerState.t :=
  match op with
  | AddLayer spec newId => (addLayer spec newId s).2
  | RemoveLayer id => removeLayer id s
  | ReorderLayers fromIndex toIndex =>
      match reorderLayers fromIndex toIndex s with
      | Done s' => s'
      | IndexError => s
      end
  end.

Definition run (ops : list Op) (s : LayerState.t) : LayerState.t :=
  fold_left (λ s op, step op s) ops s.

(** The [order] values of a stack, bottom-most first. *)
Definition orders (s : LayerState.t) : list Z := Layer.order <$> LayerState.layers s.

(** [{ name, type: 'shape', imageData: '', visible: true, opacity: 100 }]. *)
Definition shapeSpec (name : string) : Layer.t :=
  Layer.mk EmptyString name "shape" true 100 0 None None None None EmptyString
    None None None.

(** The stack of the test: three layers A, B, C. *)
Definition stackABC : LayerState.t :=
  run [AddLayer (shapeSpec "A") "a"; AddLayer (shapeSpec "B") "b";
       AddLayer (shapeSpec "C") "c"] clearLayers.

(** Every layer carries its position as [order]. *)
Definition contiguous (s : LayerState.t) : Prop :=
  ∀ j l, LayerState.layers s !! j = Some l → Layer.order l = Z.of_nat j.
End LayerStore.

(** * The layer renderer (useLayerRenderer.ts)

    The effect of [useLayerRenderer] and its asynchronous
    [processAllLayers].  A pass runs until its next [await] and is resumed
    with the awaited result; between two resumptions anything may change
    the shared state (a newer pass, a reload of the base image).  The
    canvas is the scene-graph collaborator: its objects are handles, kept
    in z-order.  Geometry is floating-point arithmetic in the source; the
    model records the operands of [obj.set] instead of the products. *)
Module Renderer.

Module Transform.
Record t := mk { left : Z; top : Z; scaleX : Z; scaleY : Z }.
End Transform.

(** A [FabricImage] made by [FabricImage.fromURL]. *)
Module FabricImage.
Record t := mk { handle : nat; width : Z; height : Z }.
End FabricImage.

(** What [obj.set({...})], [obj.data = { layerId }] write on a layer
    object. *)
Module Placement.
Record t := mk {
  layerId : string;
  under : Transform.t;       (* freshTransform *)
  x : Z;                     (* layer.x || 0 *)
  y : Z;                     (* layer.y || 0 *)
  boxWidth : Z;              (* layer.width || obj.width || 100 *)
  boxHeight : Z;             (* layer.height || obj.height || 100 *)
  visible : bool;
  opacity : Z;               (* layer.opacity, before the division by 100 *)
  selectable : bool;         (* !isSelectionTool, also [evented] *)
  hoverCursor : string
}.
End Placement.

(** The canvas and the refs the hook shares with [Canvas.tsx]. *)
Module Scene.
Record t := mk {
  canvasMounted : bool;                         (* fabricRef.current *)
  objects : list nat;                           (* canvas.getObjects() *)
  activeObject : option nat;                    (* canvas.getActiveObject() *)
  placements : list (nat * Placement.t);        (* obj.set calls, newest first *)
  baseApplied : option (bool * Z);              (* visible, opacity of the base object *)
  renderRequests : nat;                         (* canvas.requestRenderAll() *)
  editLayerObjects : JsMap.t FabricImage.t;     (* editLayerObjectsRef.current *)
  layerFeatherCache : JsMap.t Z;                (* layerFeatherCacheRef.current *)
  processingVersion : Z;                        (* processingVersionRef.current *)
  baseImageObject : option nat;                 (* baseImageObjectRef.current *)
  activeSelection : option nat;                 (* activeSelectionRef.current *)
  polygonOutline : option nat;                  (* polygonOutlineRef.current *)
  nextHandle : nat                              (* identity of the next object *)
}.

Definition with_objects (o : list nat) (s : t) : t :=
  mk (canvasMounted s) o (activeObject s) (placements s) (baseApplied s)
     (renderRequests s) (editLayerObjects s) (layerFeatherCache s)
     (processingVersion s) (baseImageObject s) (activeSelection s)
     (polygonOutline s) (nextHandle s).
Definition with_activeObject (a : option nat) (s : t) : t :=
  mk (canvasMounted s) (objects s) a (placements s) (baseApplied s)
     (renderRequests s) (editLayerObjects s) (layerFeatherCache s)
     (processingVersion s) (baseImageObject s) (activeSelection s)
     (polygonOutline s) (nextHandle s).
Definition with_placements (p : list (nat * Placement.t)) (s : t) : t :=
  mk (canvasMounted s) (objects s) (activeObject s) p (baseApplied s)
     (renderRequests s) (editLayerObjects s) (layerFeatherCache s)
     (processingVersion s) (baseImageObject s) (activeSelection s)
     (polygonOutline s) (nextHandle s).
Definition with_baseApplied (b : option (bool * Z)) (s : t) : t :=
  mk (canvasMounted s) (objects s) (activeObject s) (placements s) b
     (renderRequests s) (editLayerObjects s) (layerFeatherCache s)
     (processingVersion s) (baseImageObject s) (activeSelection s)
     (polygonOutline s) (nextHandle s).
Definition with_renderRequests (n : nat) (s : t) : t :=
  mk (canvasMounted s) (objects s) (activeObject s) (placements s) (baseApplied s)
     n (editLayerObjects s) (layerFeatherCache s)
     (processingVersion s) (baseImageObject s) (activeSelection s)
     (polygonOutline s) (nextHandle s).
Definition with_editLayerObjects (m : JsMap.t FabricImage.t) (s : t) : t :=
  mk (canvasMounted s) (objects s) (activeObject s) (placements s) (baseApplied s)
     (renderRequests s) m (layerFeatherCache s)
     (processingVersion s) (baseImageObject s) (activeSelection s)
     (polygonOutline s) (nextHandle s).
Definition with_layerFeatherCache (m : JsMap.t Z) (s : t) : t :=
  mk (canvasMounted s) (objects s) (activeObject s) (placements s) (baseApplied s)
     (renderRequests s) (editLayerObjects s) m
     (processingVersion s) (baseImageObject s) (activeSelection s)
     (polygonOutline s) (nextHandle s).
Definition with_processingVersion (v : Z) (s : t) : t :=
  mk (canvasMounted s) (objects s) (activeObject s) (placements s) (baseApplied s)
     (renderRequests s) (editLayerObjects s) (layerFeatherCache s)
     v (baseImageObject s) (activeSelection s)
     (polygonOutline s) (nextHandle s).
Definition with_polygonOutline (p : option nat) (s : t) : t :=
  mk (canvasMounted s) (objects s) (activeObject s) (placements s) (baseApplied s)
     (renderRequests s) (editLayerObjects s) (layerFeatherCache s)
     (processingVersion s) (baseImageObject s) (activeSelection s)
     p (nextHandle s).
Definition with_nextHandle (n : nat) (s : t) : t :=
  mk (canvasMounted s) (objects s) (activeObject s) (placements s) (baseApplied s)
     (renderRequests s) (editLayerObjects s) (layerFeatherCache s)
     (processingVersion s) (baseImageObject s) (activeSelection s)
     (polygonOutline s) n.
End Scene.

(** *** The canvas collaborator *)

(** [canvas.add(obj)]. *)
Definition canvas_add (h : nat) (s : Scene.t) : Scene.t :=
  Scene.with_objects (Scene.objects s ++ [h]) s.

(** [canvas.remove(obj)]; a removed active object is no longer active. *)
Definition canvas_remove (h : nat) (s : Scene.t) : Scene.t :=
  Scene.with_activeObject
    (if bool_decide (Scene.activeObject s = Some h) then None else Scene.activeObject s)
    (Scene.with_objects (filter (λ o, o ≠ h) (Scene.objects s)) s).

(** [canvas.moveObjectTo(obj, index)]. *)
Definition canvas_moveObjectTo (h : nat) (index : nat) (s : Scene.t) : Scene.t :=
  let others := filter (λ o, o ≠ h) (Scene.objects s) in
  Scene.with_objects (take index others ++ h :: drop index others) s.

(** [canvas.setActiveObject(obj)]. *)
Definition canvas_setActiveObject (h : nat) (s : Scene.t) : Scene.t :=
  Scene.with_activeObject (Some h) s.

(** [canvas.getObjects().indexOf(obj)]. *)
Definition object_index (h : nat) (s : Scene.t) : option nat :=
  fst <$> list_find (λ o, o = h) (Scene.objects s).

(** *** The effect's inputs: the values of one render *)
Module Inputs.
Record t := mk {
  imageTransform : option Transform.t;     (* from the hook's render *)
  freshTransform : option Transform.t;     (* useCanvasStore.getState().imageTransform *)
  layers : list Layer.t;
  activeLayerId : option string;
  activeTool : string;
  baseImageReady : bool
}.
End Inputs.

(** Where a pass is suspended: the layer in hand, the object [obj] it
    found for it at the head of the loop (line 95), and the layers still to
    come. *)
Inductive Point :=
| AwaitFeather (layer : Layer.t) (obj : option FabricImage.t) (rest : list Layer.t)
    (* await applyLayerFeathering(layer) *)
| AwaitSharp (layer : Layer.t) (obj : option FabricImage.t) (rest : list Layer.t)
    (* await applySharpPolygonMask(layer) *)
| AwaitImage (layer : Layer.t) (obj : option FabricImage.t) (imageData : string)
    (rest : list Layer.t)
    (* await FabricImage.fromURL(dataUrl) *)
| Finished.

(** A pass in flight: its tag, the values it closed over, and where it
    waits. *)
Module Pass.
Record t := mk {
  currentVersion : Z;
  inputs : Inputs.t;
  transform : Transform.t;     (* freshTransform, read when the pass began *)
  point : Point
}.
Definition with_point (p : Point) (x : t) : t :=
  mk (currentVersion x) (inputs x) (transform x) p.
End Pass.

(** What an [await] resumes with. *)
Inductive Awaited :=
| Transformed (image : option string)   (* the transform's promise resolved *)
| TransformThrew                        (* ... or rejected *)
| ImageLoaded (width height : Z)        (* fromURL resolved with an image *)
| ImageFailed.                          (* ... or rejected *)

(** [a || b || c] on numbers, [undefined] and 0 being falsy. *)
Definition first_nonzero (a : option Z) (b c : Z) : Z :=
  match a with
  | Some v => if bool_decide (v = 0) then (if bool_decide (b = 0) then c else b) else v
  | None => if bool_decide (b = 0) then c else b
  end.

Definition isSelectionTool (tool : string) : bool :=
  bool_decide (tool = "rectangle") || bool_decide (tool = "lasso").
Definition isShapeTool (tool : string) : bool :=
  bool_decide (tool = "shape-rect") || bool_decide (tool = "shape-ellipse").

(** Lines 154-186: position, scale and flags of a layer object, and the
    activation of the active layer's object. *)
Definition place (p : Pass.t) (layer : Layer.t) (obj : FabricImage.t)
    (s : Scene.t) : Scene.t :=
  let tool := Inputs.activeTool (Pass.inputs p) in
  let placement :=
    {| Placement.layerId := Layer.id layer;
       Placement.under := Pass.transform p;
       Placement.x := default 0 (Layer.x layer);
       Placement.y := default 0 (Layer.y layer);
       Placement.boxWidth := first_nonzero (Layer.width layer) (FabricImage.width obj) 100;
       Placement.boxHeight := first_nonzero (Layer.height layer) (FabricImage.height obj) 100;
       Placement.visible := Layer.visible layer;
       Placement.opacity := Layer.opacity layer;
       Placement.selectable := negb (isSelectionTool tool);
       Placement.hoverCursor :=
         if isSelectionTool tool then "crosshair"
         else if isShapeTool tool then "move" else "default" |} in
  let s1 := Scene.with_placements
              ((FabricImage.handle obj, placement) :: Scene.placements s) s in
  if bool_decide (Some (Layer.id layer) = Inputs.activeLayerId (Pass.inputs p))
     && negb (bool_decide (Scene.activeObject s1 = Some (FabricImage.handle obj)))
  then canvas_setActiveObject (FabricImage.handle obj) s1
  else s1.

(** Lines 189-201: z-order. *)
Definition enforceZIndex (layers : list Layer.t) (s : Scene.t) : Scene.t :=
  fold_left
    (λ s (il : nat * Layer.t),
       let obj :=
         if bool_decide (Layer.type il.2 = "base") then Scene.baseImageObject s
         else FabricImage.handle <$> JsMap.get (Layer.id il.2) (Scene.editLayerObjects s) in
       match obj with
       | Some h =>
           if bool_decide (object_index h s = Some il.1) then s
           else canvas_moveObjectTo h il.1 s
       | None => s
       end)
    (imap (λ i l, (i, l)) layers) s.

(** Lines 203-210: objects of layers that are gone. *)
Definition removeDeleted (layers : list Layer.t) (s : Scene.t) : Scene.t :=
  fold_left
    (λ s (entry : string * FabricImage.t),
       if bool_decide (entry.1 ∈ (Layer.id <$> layers)) then s
       else Scene.with_editLayerObjects
              (JsMap.delete entry.1 (Scene.editLayerObjects s))
              (canvas_remove (FabricImage.handle entry.2) s))
    (Scene.editLayerObjects s) s.

(** Lines 212-229: objects nobody tracks. *)
Definition removeUntracked (s : Scene.t) : Scene.t :=
  fold_left
    (λ s (h : nat),
       let isBase := bool_decide (Some h = Scene.baseImageObject s) in
       let isSelection := bool_decide (Some h = Scene.activeSelection s) in
       let isPolygonOutline := bool_decide (Some h = Scene.polygonOutline s) in
       let isTrackedLayer :=
         bool_decide (h ∈ (FabricImage.handle <$> (Scene.editLayerObjects s).*2)) in
       if negb isBase && negb isSelection && negb isPolygonOutline
          && negb isTrackedLayer
       then canvas_remove h s else s)
    (Scene.objects s) s.

(** [layer.polygonPoints && layer.polygonPoints.length >= 3]. *)
Definition hasPolygon (layer : Layer.t) : bool :=
  match Layer.polygonPoints layer with
  | Some pts => bool_decide (3 ≤ length pts)%nat
  | None => false
  end.

(** Lines 231-258: the outline of the active layer's polygon. *)
Definition drawOutline (p : Pass.t) (s : Scene.t) : Scene.t :=
  let s1 :=
    match Scene.polygonOutline s with
    | Some h => Scene.with_polygonOutline None (canvas_remove h s)
    | None => s
    end in
  match list_find (λ l, Some (Layer.id l) = Inputs.activeLayerId (Pass.inputs p))
          (Inputs.layers (Pass.inputs p)) with
  | Some (_, activeLayer) =>
      if hasPolygon activeLayer then
        match JsMap.get (Layer.id activeLayer) (Scene.editLayerObjects s1) with
        | Some _ =>
            let h := Scene.nextHandle s1 in
            canvas_add h
              (Scene.with_polygonOutline (Some h)
                 (Scene.with_nextHandle (S h) s1))
        | None => s1
        end
      else s1
  | None => s1
  end.

(** Lines 189-260: what a pass does after its loop. *)
Definition finish (p : Pass.t) (s : Scene.t) : Scene.t :=
  let s1 := enforceZIndex (Inputs.layers (Pass.inputs p)) s in
  let s2 := removeDeleted (Inputs.layers (Pass.inputs p)) s1 in
  let s3 := removeUntracked s2 in
  let s4 := drawOutline p s3 in
  Scene.with_renderRequests (S (Scene.renderRequests s4)) s4.

(** [layer.featherRadius ?? 0] and the test on the cache (lines 96-98). *)
Definition currentFeather (layer : Layer.t) : Z := default 0 (Layer.featherRadius layer).

Definition featherChanged (layer : Layer.t) (s : Scene.t) : bool :=
  match JsMap.get (Layer.id layer) (Scene.layerFeatherCache s) with
  | Some cachedFeather => negb (bool_decide (cachedFeather = currentFeather layer))
  | None => false
  end.

(** [!obj || featherChanged] (line 101). *)
Definition mustCreate (layer : Layer.t) (s : Scene.t) : bool :=
  negb (bool_decide (is_Some (JsMap.get (Layer.id layer) (Scene.editLayerObjects s))))
  || featherChanged layer s.

(** [needsFeatherApply] (lines 105-106). *)
Definition needsFeatherApply (layer : Layer.t) (s : Scene.t) : bool :=
  truthy (Layer.originalImageData layer)
  && (featherChanged layer s
      || negb (bool_decide (is_Some (JsMap.get (Layer.id layer)
                                       (Scene.layerFeatherCache s))))).

(** The loop [for (const layer of layers)] from its head, up to the next
    [await] or to the end of the pass (lines 86-187, then 189-260). *)
Fixpoint runLoop (p : Pass.t) (rest : list Layer.t) (s : Scene.t)
  : Scene.t * Point :=
  match rest with
  | [] => (finish p s, Finished)
  | layer :: rest' =>
      if negb (bool_decide (Scene.processingVersion s = Pass.currentVersion p))
      then (s, Finished)
      else if bool_decide (Layer.type layer = "base") then runLoop p rest' s
      else
        let obj := JsMap.get (Layer.id layer) (Scene.editLayerObjects s) in
        if mustCreate layer s then
          if needsFeatherApply layer s then
            if bool_decide (0 < currentFeather layer)
            then (s, AwaitFeather layer obj rest')
            else if hasPolygon layer then (s, AwaitSharp layer obj rest')
            else (s, AwaitImage layer obj
                       (or_else (Layer.originalImageData layer) (Layer.imageData layer))
                       rest')
          else (s, AwaitImage layer obj (Layer.imageData layer) rest')
        else
          match obj with
          | Some o => runLoop p rest' (place p layer o s)
          | None => runLoop p rest' s
          end
  end.

(** Lines 126-128. *)
Definition dataUrl (imageData : string) : string :=
  if String.prefix "data:" imageData then imageData
  else String.app "data:image/png;base64," imageData.

(** Lines 130-150, once the image is there: a new object replaces the old
    one, is recorded with the feather radius it was made for, and joins
    the canvas. *)
Definition installImage (layer : Layer.t) (obj : option FabricImage.t)
    (img : FabricImage.t) (s : Scene.t) : Scene.t :=
  let s1 :=
    match obj with
    | Some o => canvas_remove (FabricImage.handle o) s
    | None => s
    end in
  canvas_add (FabricImage.handle img)
    (Scene.with_layerFeatherCache
       (JsMap.set (Layer.id layer) (currentFeather layer) (Scene.layerFeatherCache s1))
       (Scene.with_editLayerObjects
          (JsMap.set (Layer.id layer) img (Scene.editLayerObjects s1)) s1)).

(** Resuming a suspended pass with the result it awaited. *)
Definition resume (p : Pass.t) (r : Awaited) (s : Scene.t) : Scene.t * Pass.t :=
  match Pass.point p, r with
  | AwaitFeather layer obj rest, Transformed image
  | AwaitSharp layer obj rest, Transformed image =>
      (s, Pass.with_point
            (AwaitImage layer obj (or_else image (Layer.imageData layer)) rest) p)
  | AwaitFeather _ _ _, TransformThrew
  | AwaitSharp _ _ _, TransformThrew => (s, Pass.with_point Finished p)
  | AwaitImage layer obj imageData rest, ImageLoaded width height =>
      let img := FabricImage.mk (Scene.nextHandle s) width height in
      let s0 := Scene.with_nextHandle (S (Scene.nextHandle s)) s in
      if bool_decide (width ≤ 0) || bool_decide (height ≤ 0) then
        let '(s', pt) := runLoop p rest s0 in (s', Pass.with_point pt p)
      else
        let '(s', pt) :=
          runLoop p rest (place p layer img (installImage layer obj img s0)) in
        (s', Pass.with_point pt p)
  | AwaitImage layer obj imageData rest, ImageFailed =>
      let '(s', pt) := runLoop p rest s in (s', Pass.with_point pt p)
  | _, _ => (s, p)
  end.

(** Lines 51-60: the base layer's flags go to the base image object. *)
Definition syncBaseLayer (baseLayer : option Layer.t) (s : Scene.t) : Scene.t :=
  match baseLayer, Scene.baseImageObject s with
  | Some l, Some _ =>
      Scene.with_baseApplied (Some (Layer.visible l, Layer.opacity l)) s
  | _, _ => s
  end.

(** Lines 62-67: an active base layer selects the base image object. *)
Definition selectBaseLayer (i : Inputs.t) (baseLayer : option Layer.t)
    (s : Scene.t) : Scene.t :=
  match baseLayer, Scene.baseImageObject s with
  | Some l, Some b =>
      if bool_decide (Inputs.activeLayerId i = Some (Layer.id l))
         && negb (bool_decide (Scene.activeObject s = Some b))
      then canvas_setActiveObject b s else s
  | _, _ => s
  end.

(** [processAllLayers()] up to its first [await] (lines 70-86). *)
Definition processAllLayers (currentVersion : Z) (i : Inputs.t) (s : Scene.t)
  : Scene.t * Pass.t :=
  match Scene.baseImageObject s, Inputs.freshTransform i with
  | Some _, Some freshTransform =>
      let p := Pass.mk currentVersion i freshTransform Finished in
      let '(s', pt) := runLoop p (Inputs.layers i) s in
      (s', Pass.with_point pt p)
  | _, _ => (s, Pass.mk currentVersion i (Transform.mk 0 0 0 0) Finished)
  end.

(** The effect (lines 38-93 and 263): nothing while the canvas, the image
    transform or the base image is missing; otherwise a new version, the
    base layer's flags, and the pass up to its first [await]. *)
Definition startPass (i : Inputs.t) (s : Scene.t) : Scene.t * option Pass.t :=
  if negb (Scene.canvasMounted s)
     || negb (bool_decide (is_Some (Inputs.imageTransform i)))
     || negb (Inputs.baseImageReady i)
  then (s, None)
  else
    let currentVersion := Scene.processingVersion s + 1 in
    let s1 := Scene.with_processingVersion currentVersion s in
    let baseLayer :=
      snd <$> list_find (λ l, Layer.type l = "base") (Inputs.layers i) in
    let '(s2, p) :=
      processAllLayers currentVersion i
        (selectBaseLayer i baseLayer (syncBaseLayer baseLayer s1)) in
    (s2, Some p).

(** Canvas.tsx 151-163: a new base image empties the canvas and the two
    maps, forgets the base object and moves the counter on (and sets
    [baseImageReady] to false for the renders to come). *)
Definition beginBaseImageLoad (s : Scene.t) : Scene.t :=
  Scene.mk (Scene.canvasMounted s) [] None (Scene.placements s)
    (Scene.baseApplied s) (Scene.renderRequests s) [] []
    (Scene.processingVersion s + 1) None (Scene.activeSelection s)
    (Scene.polygonOutline s) (Scene.nextHandle s).

(** Canvas.tsx 173-226: the base image has loaded; it becomes the base
    object and joins the canvas (and [baseImageReady] becomes true). *)
Definition completeBaseImageLoad (s : Scene.t) : Scene.t :=
  let h := Scene.nextHandle s in
  canvas_add h
    (Scene.mk (Scene.canvasMounted s) (Scene.objects s) (Scene.activeObject s)
       (Scene.placements s) (Scene.baseApplied s) (Scene.renderRequests s)
       (Scene.editLayerObjects s) (Scene.layerFeatherCache s)
       (Scene.processingVersion s) (Some h) (Scene.activeSelection s)
       (Scene.polygonOutline s) (S h)).

(** What can happen to the shared state, one event after the other: the
    effect runs for a render, a suspended pass gets what it awaited, the
    base image changes, the base image has loaded. *)
Inductive SceneEvent :=
| EffectRuns (i : Inputs.t)
| PassResumes (p : Pass.t) (r : Awaited)
| BaseImageChanges
| BaseImageLoads.

Definition sceneStep (e : SceneEvent) (s : Scene.t) : Scene.t :=
  match e with
  | EffectRuns i => (startPass i s).1
  | PassResumes p r => (resume p r s).1
  | BaseImageChanges => beginBaseImageLoad s
  | BaseImageLoads => completeBaseImageLoad s
  end.

Definition sceneRun (events : list SceneEvent) (s : Scene.t) : Scene.t :=
  fold_left (λ s e, sceneStep e s) events s.

(** The dependencies of the effect that are values of the render (line
    319): React runs the effect again when one of them changed. *)
Definition effect_reruns (old new : Inputs.t) : Prop :=
  ¬ (Inputs.layers old = Inputs.layers new
     ∧ Inputs.imageTransform old = Inputs.imageTransform new
     ∧ Inputs.activeLayerId old = Inputs.activeLayerId new
     ∧ Inputs.baseImageReady old = Inputs.baseImageReady new
     ∧ Inputs.activeTool old = Inputs.activeTool new).
End Renderer.

(** * Readers and callers of the projects store *)

(** [getActiveProject()] and [getProjectById(id)] (toolStore.ts 377-385).
    A stored snapshot is an object, so [|| null] only turns [undefined]
    into [null]. *)
Definition getActiveProject (w : World.t) : option ProjectSnapshot.t :=
  let activeProjectId := ProjectsState.activeProjectId (World.reg w) in
  if negb (truthy activeProjectId) then None
  else JsMap.get (default EmptyString activeProjectId)
         (ProjectsState.projects (World.reg w)).

Definition getProjectById (id : string) (w : World.t) : option ProjectSnapshot.t :=
  JsMap.get id (ProjectsState.projects (World.reg w)).

(** [useWindowManagement], the handler of [onCloseRequested]
    (useKeyboardShortcuts.ts 143-162): it saves the active session, then
    looks for a session with unsaved changes, in the order of the
    registry.  The result tells whether it calls [event.preventDefault()]
    and opens the confirmation dialog. *)
Definition anyUnsaved (w : World.t) : bool :=
  existsb (λ entry : string * ProjectSnapshot.t, hasUnsavedChanges entry.1 w)
    (ProjectsState.projects (World.reg w)).

Definition onCloseRequested (now : Z) : M bool :=
  saveCurrentProjectState now ;; (λ w, ret (anyUnsaved w) w).

Section Callers.
Context `{LiveStores}.
Context {engine : Engine}.

(** The first step of every way to open a file (useFileOperations.ts
    87-92, 140-145, 199-204; useDragDrop.ts 110-116, 146-152): a file that
    some session already holds is not opened again, its session is
    switched to.  The result tells whether the caller returns there. *)
Definition switchToOpenProject (filePath : string) (now : Z) : M bool :=
  λ w,
    let existingId := findProjectByPath filePath w in
    if truthy existingId
    then (switchProject (default EmptyString existingId) now ;; ret true) w
    else ret false w.

End Callers.

(** ** The tab bar (unnamed/part_001, [TabBar]) *)
Module TabBar.

(** What a click leaves besides its effect on the stores: a warning
    toast, or the id [setCloseConfirmId] stores for the dialog. *)
Inductive Feedback :=
| Quiet
| Warned (message : string)
| AskConfirm (id : string).

Section Handlers.
Context `{LiveStores}.

(** Lines 23-31. *)
Definition handleTabClick (isGenerating : bool) (id : string) (now : Z) : M Feedback :=
  λ w,
    if negb (bool_decide (Some id = ProjectsState.activeProjectId (World.reg w))) then
      if isGenerating then ret (Warned "Cannot switch tabs while generating") w
      else (switchProject id now ;; ret Quiet) w
    else ret Quiet w.

(** Lines 33-45. *)
Definition handleCloseClick (isGenerating : bool) (id : string) : M Feedback :=
  λ w,
    if isGenerating
       && bool_decide (Some id = ProjectsState.activeProjectId (World.reg w))
    then ret (Warned "Cannot close tab while generating") w
    else (canClose <- closeProject id ;;
          ret (if canClose then Quiet else AskConfirm id)) w.

End Handlers.
End TabBar.

(** ** The layer panel (unnamed/part_004, [LayerPanel]) *)
Module LayerPanel.

Definition isBaseLayer (type : string) : bool := bool_decide (type = "base").

(** What [onDragEnd] does: nothing, the call [reorderLayers(actualFrom,
    actualTo)], or a [TypeError] when [displayLayers[index]] is
    [undefined]. *)
Inductive DragOutcome :=
| NoCall
| Reorder (actualFrom actualTo : Z)
| TypeError.

(** Lines 255-273; [source] and [destination] are the indices of the
    drop result, positions in the displayed (reversed) list. *)
Definition onDragEnd (layers : list Layer.t) (source : nat)
    (destination : option nat) : DragOutcome :=
  let displayLayers := reverse layers in
  match destination with
  | None => NoCall
  | Some destination =>
      if bool_decide (destination = source) then NoCall
      else
        match displayLayers !! source with
        | None => TypeError
        | Some dragged =>
            if isBaseLayer (Layer.type dragged) then NoCall
            else
              match displayLayers !! destination with
              | None => TypeError
              | Some target =>
                  if isBaseLayer (Layer.type target) then NoCall
                  else
                    Reorder (Z.of_nat (length layers) - 1 - Z.of_nat source)
                            (Z.of_nat (length layers) - 1 - Z.of_nat destination)
              end
        end
  end.
End LayerPanel.

(** * The toast store (toastStore.ts) *)
Module ToastStore.

Inductive ToastType := success | error | info | warning.

Module Toast.
Record t := mk {
  id : string;
  type : ToastType;
  message : string;
  duration : option Z
}.
End Toast.

(** The optional [duration] of the argument of [addToast]: the key may
    be missing, or be there with [undefined] or with a number. *)
Inductive Given := Missing | Undefined | Number (d : Z).

(** [Omit<Toast, 'id'>], the argument of [addToast]. *)
Module NewToast.
Record t := mk { type : ToastType; message : string; duration : Given }.
End NewToast.

(** The store's [toasts], the module variable [toastId], and the timers
    set by [addToast] that have not fired yet, each with the id its
    callback closed over and its delay. *)
Module State.
Record t := mk {
  toasts : list Toast.t;
  toastId : Z;
  timers : list (string * Z)
}.
End State.

Definition initial : State.t := State.mk [] 0 [].

(** [++toastId] on a JavaScript number: up to 2^53 every integer is
    represented; 2^53 + 1 rounds back to 2^53. *)
Definition increment (n : Z) : Z :=
  if bool_decide (n < 2 ^ 53) then n + 1 else n.

(** [`toast-${n}`]. *)
Definition toastIdString (n : Z) : string :=
  String.app "toast-" (NilZero.string_of_int (Z.to_int n)).

Definition removeToast (id : string) (s : State.t) : State.t :=
  State.mk (filter (λ t, Toast.id t ≠ id) (State.toasts s))
    (State.toastId s) (State.timers s).

Definition clearAll (s : State.t) : State.t :=
  State.mk [] (State.toastId s) (State.timers s).

(** [{ id, duration: 4000, ...toast }]: a key of [toast] overrides the
    default, also when its value is [undefined]. *)
Definition spreadDuration (given : Given) : option Z :=
  match given with
  | Missing => Some 4000
  | Undefined => None
  | Number d => Some d
  end.

(** [newToast.duration && newToast.duration > 0]. *)
Definition autoRemoved (duration : option Z) : bool :=
  match duration with
  | Some d => bool_decide (d ≠ 0) && bool_decide (0 < d)
  | None => false
  end.

Definition addToast (toast : NewToast.t) (s : State.t) : State.t :=
  let n := increment (State.toastId s) in
  let id := toastIdString n in
  let duration := spreadDuration (NewToast.duration toast) in
  let newToast :=
    Toast.mk id (NewToast.type toast) (NewToast.message toast) duration in
  State.mk (State.toasts s ++ [newToast]) n
    (if autoRemoved duration
     then State.timers s ++ [(id, default 0 duration)]
     else State.timers s).

(** A timer of [addToast] fires: [get().removeToast(id)]. *)
Definition timerFires (id : string) (s : State.t) : State.t :=
  if bool_decide (id ∈ (State.timers s).*1) then
    removeToast id
      (State.mk (State.toasts s) (State.toastId s)
         (filter (λ timer, timer.1 ≠ id) (State.timers s)))
  else s.

(** The helpers [toast.success], [toast.error], [toast.info] and
    [toast.warning] (lines 59-64). *)
Definition toast_success (message : string) : State.t → State.t :=
  addToast (NewToast.mk success message Missing).
Definition toast_error (message : string) : State.t → State.t :=
  addToast (NewToast.mk error message (Number 6000)).
Definition toast_info (message : string) : State.t → State.t :=
  addToast (NewToast.mk info message Missing).
Definition toast_warning (message : string) : State.t → State.t :=
  addToast (NewToast.mk warning message (Number 5000)).

(** What can happen to the store, one event after the other. *)
Inductive Op :=
| AddToast (toast : NewToast.t)
| RemoveToast (id : string)
| ClearAll
| TimerFires (id : string).

Definition step (op : Op) (s : State.t) : State.t :=
  match op with
  | AddToast toast => addToast toast s
  | RemoveToast id => removeToast id s
  | ClearAll => clearAll s
  | TimerFires id => timerFires id s
  end.

Definition run (ops : list Op) (s : State.t) : State.t :=
  fold_left (λ s op, step op s) ops s.

Definition ids (s : State.t) : list string := Toast.id <$> State.toasts s.
End ToastStore.

(** * The recent files store (recentFilesStore.ts) *)
Module RecentFiles.

Inductive FileType := image | project.

Module RecentFile.
Record t := mk { path : string; name : string; type : FileType; timestamp : Z }.
End RecentFile.

Module State.
Record t := mk { recentFiles : list RecentFile.t; maxFiles : Z }.
End State.

Definition initial : State.t := State.mk [] 10.

(** A character matched by [/[\\/]/]. *)
Definition is_separator (c : ascii) : bool :=
  bool_decide (c = "\"%char) || bool_decide (c = "/"%char).

Fixpoint has_separator (s : string) : bool :=
  match s with
  | EmptyString => false
  | String c r => is_separator c || has_separator r
  end.

(** [s.split(/[\\/]/).pop()]: what follows the last separator, the whole
    string when there is none. *)
Fixpoint lastSegment (s : string) : string :=
  match s with
  | EmptyString => EmptyString
  | String c r =>
      if has_separator r then lastSegment r
      else if is_separator c then r else String c r
  end.

(** [arr.slice(0, end)]. *)
Definition slice0 {A} (stop : Z) (arr : list A) : list A :=
  let n := Z.of_nat (length arr) in
  take (Z.to_nat (if bool_decide (stop < 0) then Z.max (n + stop) 0 else Z.min stop n)) arr.

(** Lines 28-53; [now] is the reading of [Date.now()]. *)
Definition addRecentFile (path : string) (type : FileType) (now : Z)
    (s : State.t) : State.t :=
  let recentFiles := State.recentFiles s in
  let maxFiles := State.maxFiles s in
  let name := or_else (Some (lastSegment path)) path in
  let filtered := filter (λ f, RecentFile.path f ≠ path) recentFiles in
  let newFile := RecentFile.mk path name type now in
  let newList := newFile :: filtered in
  State.mk
    (if bool_decide (maxFiles < Z.of_nat (length newList))
     then slice0 maxFiles newList else newList)
    maxFiles.

Definition removeRecentFile (path : string) (s : State.t) : State.t :=
  State.mk (filter (λ f, RecentFile.path f ≠ path) (State.recentFiles s))
    (State.maxFiles s).

Definition clearRecentFiles (s : State.t) : State.t :=
  State.mk [] (State.maxFiles s).

Inductive Op :=
| AddRecentFile (path : string) (type : FileType) (now : Z)
| RemoveRecentFile (path : string)
| ClearRecentFiles.

Definition step (op : Op) (s : State.t) : State.t :=
  match op with
  | AddRecentFile path type now => addRecentFile path type now s
  | RemoveRecentFile path => removeRecentFile path s
  | ClearRecentFiles => clearRecentFiles s
  end.

Definition run (ops : list Op) (s : State.t) : State.t :=
  fold_left (λ s op, step op s) ops s.

Definition paths (s : State.t) : list string :=
  RecentFile.path <$> State.recentFiles s.

(** The readings of [Date.now()] in a sequence of operations. *)
Definition clock (ops : list Op) : list Z :=
  omap (λ op, match op with AddRecentFile _ _ now => Some now | _ => None end) ops.
End RecentFiles.

(** * The compositor (layerCompositor.ts) *)
Module Compositor.

(** A [ctx.drawImage(img, x, y, width, height)] together with the
    [globalAlpha] in force, recorded as [layer.opacity] before the
    division by 100. *)
Module Draw.
Record t := mk {
  imageData : string;
  opacity : Z;
  x : Z;
  y : Z;
  width : Z;
  height : Z
}.
End Draw.

(** [[...layers].sort((a, b) => a.order - b.order)]: the sort of an
    array is stable, layers of equal [order] keep their places. *)
Fixpoint insertByOrder (layer : Layer.t) (sorted : list Layer.t) : list Layer.t :=
  match sorted with
  | [] => [layer]
  | l :: rest =>
      if bool_decide (Layer.order layer ≤ Layer.order l)
      then layer :: l :: rest
      else l :: insertByOrder layer rest
  end.

Definition sortByOrder (layers : list Layer.t) : list Layer.t :=
  foldr insertByOrder [] layers.

Definition drawOf (layer : Layer.t) (img : Z * Z) : Draw.t :=
  {| Draw.imageData := Layer.imageData layer;
     Draw.opacity := Layer.opacity layer;
     Draw.x := default 0 (Layer.x layer);
     Draw.y := default 0 (Layer.y layer);
     Draw.width := default img.1 (Layer.width layer);
     Draw.height := default img.2 (Layer.height layer) |}.

(** The loop of lines 28-46.  [loadImage] answers the natural size of an
    image, or [None] when its promise rejects, which rejects the whole
    composition. *)
Fixpoint drawLayers (loadImage : string → option (Z * Z))
    (sortedLayers : list Layer.t) : option (list Draw.t) :=
  match sortedLayers with
  | [] => Some []
  | layer :: rest =>
      if negb (Layer.visible layer) then drawLayers loadImage rest
      else
        match loadImage (Layer.imageData layer) with
        | None => None
        | Some img => cons (drawOf layer img) <$> drawLayers loadImage rest
        end
  end.

(** [compositeLayersInBrowser], as far as the calls on the 2D context
    go. *)
Definition compositeLayersInBrowser (loadImage : string → option (Z * Z))
    (layers : list Layer.t) : option (list Draw.t) :=
  drawLayers loadImage (sortByOrder layers).
End Compositor.

(** * The tool store (toolStore.ts 30-90, the version with brush settings) *)
Module ToolStore.

Module BrushSettings.
Record t := mk { size : Z; hardness : Z; feather : Z }.
End BrushSettings.

Module State.
Record t := mk {
  activeTool : string;
  brushSettings : BrushSettings.t;
  brushSize : Z;
  brushHardness : Z;
  brushFeather : Z
}.
End State.

Definition initial : State.t :=
  State.mk "move" (BrushSettings.mk 50 100 10) 50 100 10.

Definition setTool (tool : string) (s : State.t) : State.t :=
  State.mk tool (State.brushSettings s) (State.brushSize s)
    (State.brushHardness s) (State.brushFeather s).

Definition setActiveTool (tool : string) (s : State.t) : State.t :=
  State.mk tool (State.brushSettings s) (State.brushSize s)
    (State.brushHardness s) (State.brushFeather s).

(** [{ ...state.brushSettings, size }] and the flat field. *)
Definition setBrushSize (size : Z) (s : State.t) : State.t :=
  State.mk (State.activeTool s)
    (BrushSettings.mk size (BrushSettings.hardness (State.brushSettings s))
       (BrushSettings.feather (State.brushSettings s)))
    size (State.brushHardness s) (State.brushFeather s).

Definition setBrushHardness (hardness : Z) (s : State.t) : State.t :=
  State.mk (State.activeTool s)
    (BrushSettings.mk (BrushSettings.size (State.brushSettings s)) hardness
       (BrushSettings.feather (State.brushSettings s)))
    (State.brushSize s) hardness (State.brushFeather s).

Definition setBrushFeather (feather : Z) (s : State.t) : State.t :=
  State.mk (State.activeTool s)
    (BrushSettings.mk (BrushSettings.size (State.brushSettings s))
       (BrushSettings.hardness (State.brushSettings s)) feather)
    (State.brushSize s) (State.brushHardness s) feather.

Inductive Op :=
| SetTool (tool : string)
| SetActiveTool (tool : string)
| SetBrushSize (size : Z)
| SetBrushHardness (hardness : Z)
| SetBrushFeather (feather : Z).

Definition step (op : Op) (s : State.t) : State.t :=
  match op with
  | SetTool tool => setTool tool s
  | SetActiveTool tool => setActiveTool tool s
  | SetBrushSize size => setBrushSize size s
  | SetBrushHardness hardness => setBrushHardness hardness s
  | SetBrushFeather feather => setBrushFeather feather s
  end.

Definition run (ops : list Op) (s : State.t) : State.t :=
  fold_left (λ s op, step op s) ops s.

(** The brush settings as the nested object has them, and as the flat
    fields have them. *)
Definition nested (s : State.t) : Z * Z * Z :=
  (BrushSettings.size (State.brushSettings s),
   BrushSettings.hardness (State.brushSettings s),
   BrushSettings.feather (State.brushSettings s)).

Definition flat (s : State.t) : Z * Z * Z :=
  (State.brushSize s, State.brushHardness s, State.brushFeather s).
End ToolStore.

(** * Vocabulary of the properties, and concrete inputs *)

(** ** A reference implementation of the live stores' actions *)

(** Modelled from the spec: the actions of the four absent live stores,
    in the plain reading of their names and of the spec's History Engine
    ([reset] clears both stacks and marks clean, [restoreState] replaces
    the three fields) and Layer Model ([clearLayers], [restoreLayers]:
    full replace).  It is used to run the operations on concrete inputs;
    the theorems hold for every implementation. *)
Definition plainStores : LiveStores :=
  {| setBaseImage img path c :=
       CanvasState.mk (Some img) (Some path) (CanvasState.zoom c)
         (CanvasState.panX c) (CanvasState.panY c);
     clearImage c :=
       CanvasState.mk None None (CanvasState.zoom c) (CanvasState.panX c)
         (CanvasState.panY c);
     setZoom z c :=
       CanvasState.mk (CanvasState.baseImage c) (CanvasState.imagePath c) z
         (CanvasState.panX c) (CanvasState.panY c);
     setPan px py c :=
       CanvasState.mk (CanvasState.baseImage c) (CanvasState.imagePath c)
         (CanvasState.zoom c) px py;
     restoreLayers ls a _ := LayerState.mk ls a;
     clearLayers _ := LayerState.mk [] None;
     restoreState p f d _ := HistoryState.mk p f d;
     reset _ := HistoryState.mk [] [] false;
     clearSelection _ := SelectionState.mk None |}.

(** A world with no session and empty live stores. *)
Definition emptyWorld : World.t :=
  {| World.reg := ProjectsState.initial;
     World.canvas := CanvasState.mk None None 100 0 0;
     World.layerStore := LayerState.mk [] None;
     World.history := HistoryState.mk [] [] false;
     World.selection := SelectionState.mk None;
     World.previousImagePath := None |}.

(** ** Reading a trace *)

(** The projects-store states left by the [set]s of a trace, in order. *)
Definition sets_of (tr : list Event) : list ProjectsState.t :=
  omap (λ e, match e with ProjectsSet st => Some st | _ => None end) tr.

(** The live-store calls of a trace, in order, each with the active id it
    ran under. *)
Definition calls_of (tr : list Event) : list (StoreAction * option string) :=
  omap (λ e, match e with StoreCall a o => Some (a, o) | _ => None end) tr.

(** What the registry invariants depend on: the keys of the mapping, the
    active id and the tab sequence. *)
Definition shape (st : ProjectsState.t) : list string * option string * list string :=
  (JsMap.keys (ProjectsState.projects st),
   ProjectsState.activeProjectId st,
   ProjectsState.tabOrder st).

Definition active (w : World.t) : option string :=
  ProjectsState.activeProjectId (World.reg w).

(** The calls [restoreStateFromSnapshot] and [clearAllStores] make. *)
Definition restoreActions (snapshot : ProjectSnapshot.t) : list StoreAction :=
  [ match ProjectSnapshot.baseImage snapshot with
    | Some img => SetBaseImage img (or_else (ProjectSnapshot.imagePath snapshot) EmptyString)
    | None => ClearImage
    end;
    SetZoom (ProjectSnapshot.zoom snapshot);
    SetPan (ProjectSnapshot.panX snapshot) (ProjectSnapshot.panY snapshot);
    if bool_decide (0 < Z.of_nat (length (ProjectSnapshot.layers snapshot)))
    then RestoreLayers (ProjectSnapshot.layers snapshot)
                       (ProjectSnapshot.activeLayerId snapshot)
    else ClearLayers;
    RestoreState (ProjectSnapshot.historyPast snapshot)
                 (ProjectSnapshot.historyFuture snapshot)
                 (ProjectSnapshot.isDirty snapshot);
    ClearSelection ].

Definition clearActions : list StoreAction :=
  [ClearImage; ClearLayers; Reset; ClearSelection].

(** [acts_as m acts]: [m] calls the live stores with [acts], in this
    order and under the active id it started with; whatever it [set]s in
    the projects store keeps the keys, the active id and the tabs; and
    under a falsy active id it leaves the projects store alone. *)
Definition acts_as (m : M unit) (acts : list StoreAction) : Prop :=
  ∀ w,
    shape (World.reg (final (m w))) = shape (World.reg w) ∧
    calls_of (trace (m w)) = map (λ a, (a, active w)) acts ∧
    Forall (λ st, shape st = shape (World.reg w)) (sets_of (trace (m w))) ∧
    (truthy (active w) = false →
       World.reg (final (m w)) = World.reg w ∧
       trace (m w) = map (λ a, StoreCall a (active w)) acts).

(** The dirtiness [closeProject] reads: the live History Engine for the
    active session, the stored snapshot for every other one. *)
Definition isProjectDirty (id : string) (project : ProjectSnapshot.t)
    (w : World.t) : bool :=
  if bool_decide (Some id = active w)
  then HistoryState.isDirty (World.history w)
  else ProjectSnapshot.isDirty project.

(** ** The registry invariant *)

(** The keys of the mapping are exactly the tabs, no key is the empty
    string, and the active id, when there is one, is a key. *)
Definition registry_ok (st : ProjectsState.t) : Prop :=
  (∀ k, k ∈ JsMap.keys (ProjectsState.projects st) ↔ k ∈ ProjectsState.tabOrder st)
  ∧ (EmptyString ∉ JsMap.keys (ProjectsState.projects st))
  ∧ (∀ a, ProjectsState.activeProjectId st = Some a →
          a ∈ JsMap.keys (ProjectsState.projects st)).

(** A decision procedure for [registry_ok] on concrete registries. *)
Definition registry_okb (st : ProjectsState.t) : bool :=
  bool_decide (JsMap.keys (ProjectsState.projects st) = ProjectsState.tabOrder st)
  && bool_decide (EmptyString ∉ JsMap.keys (ProjectsState.projects st))
  && match ProjectsState.activeProjectId st with
     | Some a => bool_decide (a ∈ JsMap.keys (ProjectsState.projects st))
     | None => true
     end.

(** ** Force-closing a session *)

(** The tabs left after closing [id], and the tab that takes over when
    [id] was active: the one at [min(originalTabIndex, newTabCount - 1)]. *)
Definition tabsAfterClose (id : string) (st : ProjectsState.t) : list string :=
  filter (λ tid, tid ≠ id) (ProjectsState.tabOrder st).

Definition replacementTab (id : string) (st : ProjectsState.t) : option string :=
  at_index (tabsAfterClose id st)
    (Z.min (indexOf id (ProjectsState.tabOrder st))
           (Z.of_nat (length (tabsAfterClose id st)) - 1)).

(** [newActiveId] as [forceCloseProject] computes it. *)
Definition newActiveIdOf (id : string) (st : ProjectsState.t) : option string :=
  if bool_decide (0 < Z.of_nat (length (tabsAfterClose id st))) then
    if bool_decide (Some id = ProjectsState.activeProjectId st)
    then replacementTab id st
    else ProjectsState.activeProjectId st
  else None.

Definition closedRegistry (id : string) (st : ProjectsState.t) : ProjectsState.t :=
  {| ProjectsState.projects := JsMap.delete id (ProjectsState.projects st);
     ProjectsState.activeProjectId := newActiveIdOf id st;
     ProjectsState.tabOrder := tabsAfterClose id st |}.

(** The order of effects as the specification words it for
    [switchSession]: after the saving, a [set] that leaves the active id
    null, then the restore (no [set] in it), and only then the [set] that
    makes [id] active. *)
Definition null_window_switch (id : string) (tr : list Event) : Prop :=
  ∃ saving st_null restoring st_id,
    tr = saving ++ [ProjectsSet st_null] ++ restoring ++ [ProjectsSet st_id]
    ∧ ProjectsState.activeProjectId st_null = None
    ∧ sets_of restoring = []
    ∧ ProjectsState.activeProjectId st_id = Some id.

(** The clearing of the live stores as the specification words it for
    [createSession]: the four calls of [clearAllStores], under the null
    active id. *)
Definition create_clears_live_stores (tr : list Event) : Prop :=
  calls_of tr = map (λ a, (a, None)) clearActions.

(** The operations of the session manager, and the edits of the live
    document that happen between them (each runs the subscribers of its
    store). *)
Inductive Op :=
| CreateProject (name : option string) (fromDrop : bool) (now : Z) (rnd : string)
| SwitchProject (id : string) (now : Z)
| CloseProject (id : string)
| ForceCloseProject (id : string)
| SaveCurrentProjectState (now : Z)
| UpdateProjectName (id name : string)
| EditCanvas (f : CanvasState.t → CanvasState.t)
| EditLayers (f : LayerState.t → LayerState.t)
| EditHistory (f : HistoryState.t → HistoryState.t)
| EditSelection (f : SelectionState.t → SelectionState.t).

Section SessionVocabulary.
Context `{LiveStores}.

(** What [forceCloseProject] does before its final [set] when the active
    id changes. *)
Definition handover (id : string) (st : ProjectsState.t) : M unit :=
  if truthy (newActiveIdOf id st) then
    match JsMap.get (default EmptyString (newActiveIdOf id st))
            (JsMap.delete id (ProjectsState.projects st)) with
    | Some newActiveProject => restoreStateFromSnapshot newActiveProject
    | None => ret tt
    end
  else clearAllStores.

Definition step (op : Op) (w : World.t) : World.t :=
  match op with
  | CreateProject name fromDrop now rnd => final (createProject name fromDrop now rnd w)
  | SwitchProject id now => final (switchProject id now w)
  | CloseProject id => final (closeProject id w)
  | ForceCloseProject id => final (forceCloseProject id w)
  | SaveCurrentProjectState now => final (saveCurrentProjectState now w)
  | UpdateProjectName id name => final (updateProjectName id name w)
  | EditCanvas f => final (canvas_action f w)
  | EditLayers f => final (layer_action f w)
  | EditHistory f => final (history_action f w)
  | EditSelection f => final (selection_action f w)
  end.

Definition run_ops (ops : list Op) (w : World.t) : World.t :=
  fold_left (λ w op, step op w) ops w.

End SessionVocabulary.

(** The invariant of the Session Registry: the active id, when not null,
    is a key of the mapping and an element of the tab sequence. *)
Definition active_is_registered (st : ProjectsState.t) : Prop :=
  match ProjectsState.activeProjectId st with
  | Some a =>
      is_Some (JsMap.get a (ProjectsState.projects st))
      ∧ a ∈ ProjectsState.tabOrder st
  | None => True
  end.

(** ** Finding a session by path *)

(** An engine for strings of ASCII characters only, to run the operations
    on concrete inputs made of such characters, where every engine
    answers the same.  On other strings its answers are not those of a
    JavaScript engine; the theorems hold for every engine. *)
Definition asciiEngine : Engine :=
  {| toLowerCase := map_string lower_ascii;
     toLowerCase_ascii := λ _ _, eq_refl |}.

Section PathVocabulary.
Context {engine : Engine}.

(** Two paths compare equal without regard to case and to the kind of
    separator: the engine lower-cases both to the same string, once every
    backslash is a slash. *)
Definition same_file (p q : string) : Prop :=
  replace_backslashes (toLowerCase p) = replace_backslashes (toLowerCase q).

Global Instance same_file_dec p q : Decision (same_file p q).
Proof. unfold same_file. apply _. Defined.

(** A stored path matches a query when it is there (not null, not empty)
    and the two compare equal in that way. *)
Definition path_matches (stored : option string) (query : string) : bool :=
  truthy stored
  && bool_decide (same_file (default EmptyString stored) query).

Definition snapshot_matches (query : string) (entry : string * ProjectSnapshot.t) : Prop :=
  path_matches (ProjectSnapshot.imagePath entry.2) query = true.

Global Instance snapshot_matches_dec query entry : Decision (snapshot_matches query entry).
Proof. unfold snapshot_matches. apply _. Defined.

End PathVocabulary.

(** The character a path character is compared as. *)
Definition fold_char (c : ascii) : ascii := slash_ascii (lower_ascii c).

(** The 256 bytes. *)
Definition all_ascii : list ascii := ascii_of_nat <$> seq 0 256.

(** The upper-case letter of an ASCII lower-case letter. *)
Definition upper_ascii (c : ascii) : ascii :=
  let n := nat_of_ascii c in
  if bool_decide (97 ≤ n ≤ 122)%nat then ascii_of_nat (n - 32) else c.

(** Two characters that differ at most by the case of an ASCII letter or
    by the kind of separator. *)
Definition same_path_char (c d : ascii) : Prop :=
  c = d ∨ d = upper_ascii c ∨ c = upper_ascii d
  ∨ ((c = "\"%char ∨ c = "/"%char) ∧ (d = "\"%char ∨ d = "/"%char)).

Inductive same_path : string → string → Prop :=
| same_path_nil : same_path EmptyString EmptyString
| same_path_cons c d p q :
    same_path_char c d → same_path p q → same_path (String c p) (String d q).

(** ** Concrete worlds, run with [plainStores] *)

(** Two sessions, A then B; B is active. *)
Definition twoTabs : World.t :=
  final (createProject (H := plainStores) (Some "B") false 2 "b"
           (final (createProject (H := plainStores) (Some "A") false 1 "a" emptyWorld))).

(** The same, after an edit of the live document: the History Engine holds
    one past snapshot and is dirty. *)
Definition twoTabsEdited : World.t :=
  World.with_history
    (HistoryState.mk [HistorySnapshot.mk [] None] [] true) twoTabs.

(** The snapshot stored for session A in [twoTabs]: it was flushed when B
    was created. *)
Definition snapshotA : ProjectSnapshot.t := createEmptySnapshot "project-1-a" "A" 2.

(** A world where session A has a stored path and the live document of
    the active session B has another. *)
Definition pathsWorld : World.t :=
  World.with_canvas
    (CanvasState.mk None (Some "D:\Shots\Dog.jpg") 100 0 0)
    (World.with_reg
       (ProjectsState.with_projects
          (JsMap.set "project-1-a"
             (ProjectSnapshot.with_imagePath (Some "C:\Pics\Cat.PNG") snapshotA)
             (ProjectsState.projects (World.reg twoTabs)))
          (World.reg twoTabs))
       twoTabs).

(** A concrete document for the renderer: a base layer and one feathered
    layer. *)
Module RendererCases.
Import Renderer.

Definition baseLayer0 : Layer.t :=
  Layer.mk "base" "Background" "base" true 100 0 None None None None "bg"
    None None None.

Definition featheredLayer : Layer.t :=
  Layer.mk "l1" "Layer 1" "generated" true 100 1 (Some 10) (Some 20) None None
    "raw" (Some "orig") (Some 5) None.

Definition transform0 : Transform.t := Transform.mk 0 0 1 1.

Definition inputs0 : Inputs.t :=
  Inputs.mk (Some transform0) (Some transform0) [baseLayer0; featheredLayer]
    (Some "l1") "move" true.

(** The canvas once the base image (object 0) is loaded. *)
Definition sceneReady : Scene.t :=
  Scene.mk true [0%nat] None [] None 0 [] [] 0 (Some 0%nat) None None 1.

(** The first pass: it stops at [await applyLayerFeathering]. *)
Definition firstPass : Scene.t * option Pass.t := startPass inputs0 sceneReady.

(** The same pass once the feathering has answered: it waits for the
    image. *)
Definition passAwaitingImage : Pass.t :=
  Pass.mk 1 inputs0 transform0 (AwaitImage featheredLayer None "feathered" []).

(** Meanwhile the opacity of the layer changed and a newer pass began. *)
Definition inputs1 : Inputs.t :=
  Inputs.mk (Some transform0) (Some transform0)
    [baseLayer0;
     Layer.mk "l1" "Layer 1" "generated" true 40 1 (Some 10) (Some 20) None None
       "raw" (Some "orig") (Some 5) None]
    (Some "l1") "move" true.

Definition sceneAfterNewerPass : Scene.t := (startPass inputs1 firstPass.1).1.

(** A stale pass that writes nothing more, as the specification words
    it. *)
Definition stale_resume_is_inert (p : Pass.t) (r : Awaited) (s : Scene.t) : Prop :=
  Scene.processingVersion s ≠ Pass.currentVersion p → (resume p r s).1 = s.

(** A second course of events.  Render A shows one layer above the base
    layer; render B, which follows while pass A waits for the image of
    that layer, shows a second one.  The two images of pass B load first
    and pass B runs to its end; the image pass A waits for loads last. *)
Definition plainLayer (id : string) (order : Z) : Layer.t :=
  Layer.mk id id "generated" true 100 order None None None None "raw"
    None None None.

Definition inputsA : Inputs.t :=
  Inputs.mk (Some transform0) (Some transform0)
    [baseLayer0; plainLayer "l1" 1] None "move" true.

Definition inputsB : Inputs.t :=
  Inputs.mk (Some transform0) (Some transform0)
    [baseLayer0; plainLayer "l1" 1; plainLayer "l2" 2] None "move" true.

Definition passA : Pass.t :=
  Pass.mk 1 inputsA transform0 (AwaitImage (plainLayer "l1" 1) None "raw" []).

Definition passB : Pass.t :=
  Pass.mk 2 inputsB transform0
    (AwaitImage (plainLayer "l1" 1) None "raw" [plainLayer "l2" 2]).

(** The scene once pass B has started. *)
Definition sceneBothWaiting : Scene.t :=
  (startPass inputsB (startPass inputsA sceneReady).1).1.

(** The scene once pass B has finished, pass A still waiting. *)
Definition sceneOvertaken : Scene.t :=
  let '(s1, p1) := resume passB (ImageLoaded 32 32) sceneBothWaiting in
  (resume p1 (ImageLoaded 32 32) s1).1.

(** A feathered layer that kept no original data. *)
Definition featheredNoOriginal : Layer.t :=
  Layer.mk "l2" "Layer 2" "generated" true 100 1 None None None None
    "raw2" None (Some 5) None.

Definition passAtHead : Pass.t := Pass.mk 1 inputs0 transform0 Finished.



End RendererCases.

(** ** Isolation of the sessions *)

(** Every stored snapshot carries the key it is stored under. *)
Definition ids_match (st : ProjectsState.t) : Prop :=
  ∀ k p, JsMap.get k (ProjectsState.projects st) = Some p → ProjectSnapshot.id p = k.

(** [session_local m]: [m] leaves the snapshot stored for every session
    other than the active one as it is, and what it stores carries its
    key. *)
Definition session_local (m : M unit) : Prop :=
  ∀ w,
    (∀ k, active w ≠ Some k →
       JsMap.get k (ProjectsState.projects (World.reg (final (m w))))
       = JsMap.get k (ProjectsState.projects (World.reg w)))
    ∧ (ids_match (World.reg w) → ids_match (World.reg (final (m w)))).

(** The four live stores of a world. *)
Definition live (w : World.t)
  : CanvasState.t * LayerState.t * HistoryState.t * SelectionState.t :=
  (World.canvas w, World.layerStore w, World.history w, World.selection w).

Section LiveVocabulary.
Context `{LiveStores}.

(** What an action makes of the four live stores: it changes its own
    store and no other. *)
Definition performed (a : StoreAction)
    (l : CanvasState.t * LayerState.t * HistoryState.t * SelectionState.t)
  : CanvasState.t * LayerState.t * HistoryState.t * SelectionState.t :=
  let '(c, ls, h, sel) := l in
  match a with
  | SetBaseImage img path => (setBaseImage img path c, ls, h, sel)
  | ClearImage => (clearImage c, ls, h, sel)
  | SetZoom z => (setZoom z c, ls, h, sel)
  | SetPan px py => (setPan px py c, ls, h, sel)
  | RestoreLayers layers a => (c, restoreLayers layers a ls, h, sel)
  | ClearLayers => (c, clearLayers ls, h, sel)
  | RestoreState p f d => (c, ls, restoreState p f d h, sel)
  | Reset => (c, ls, reset h, sel)
  | ClearSelection => (c, ls, h, clearSelection sel)
  end.

(** The live stores of [w] once a snapshot is restored into them: the
    canvas store has taken the snapshot's image and path (or was cleared
    of its image), then its zoom, then its pan; the layer store has taken
    its layers and active layer (or was cleared); the history store has
    taken its two stacks and its dirty flag; the selection is cleared. *)
Definition restored (snapshot : ProjectSnapshot.t) (w : World.t)
  : CanvasState.t * LayerState.t * HistoryState.t * SelectionState.t :=
  (setPan (ProjectSnapshot.panX snapshot) (ProjectSnapshot.panY snapshot)
     (setZoom (ProjectSnapshot.zoom snapshot)
        match ProjectSnapshot.baseImage snapshot with
        | Some img =>
            setBaseImage img (or_else (ProjectSnapshot.imagePath snapshot) EmptyString)
              (World.canvas w)
        | None => clearImage (World.canvas w)
        end),
   match ProjectSnapshot.layers snapshot with
   | [] => clearLayers (World.layerStore w)
   | _ :: _ =>
       restoreLayers (ProjectSnapshot.layers snapshot)
         (ProjectSnapshot.activeLayerId snapshot) (World.layerStore w)
   end,
   restoreState (ProjectSnapshot.historyPast snapshot)
     (ProjectSnapshot.historyFuture snapshot) (ProjectSnapshot.isDirty snapshot)
     (World.history w),
   clearSelection (World.selection w)).

(** The live stores of [w] once they are cleared. *)
Definition cleared (w : World.t)
  : CanvasState.t * LayerState.t * HistoryState.t * SelectionState.t :=
  (clearImage (World.canvas w), clearLayers (World.layerStore w),
   reset (World.history w), clearSelection (World.selection w)).

End LiveVocabulary.

(** Two sessions, A then B, after switching back to A. *)
Definition twoTabsOnA : World.t :=
  final (switchProject (H := plainStores) "project-1-a" 3 twoTabs).

(** A character that [normalizePath] never leaves in a path: a backslash
    or an ASCII upper-case letter. *)
Definition foldable (c : ascii) : bool :=
  bool_decide (c = "\"%char)
  || bool_decide (65 ≤ nat_of_ascii c ≤ 90)%nat.

(** ** What a pass leaves on the canvas *)
Module RendererVocabulary.
Import Renderer.

(** The objects [removeUntracked] keeps: the base image, the selection,
    the polygon outline and the objects of the layers. *)
Definition tracked (s : Scene.t) (h : nat) : Prop :=
  Some h = Scene.baseImageObject s
  ∨ Some h = Scene.activeSelection s
  ∨ Some h = Scene.polygonOutline s
  ∨ h ∈ (FabricImage.handle <$> (Scene.editLayerObjects s).*2).

Global Instance tracked_dec s h : Decision (tracked s h).
Proof. unfold tracked. apply _. Defined.

(** The object of a layer, as [enforceZIndex] looks it up. *)
Definition layerObject (s : Scene.t) (layer : Layer.t) : option nat :=
  if bool_decide (Layer.type layer = "base") then Scene.baseImageObject s
  else FabricImage.handle <$> JsMap.get (Layer.id layer) (Scene.editLayerObjects s).

(** The handles of the objects [removeDeleted] takes off the canvas. *)
Definition deletedHandles (layers : list Layer.t) (s : Scene.t) : list nat :=
  FabricImage.handle <$>
    (filter (λ entry : string * FabricImage.t, entry.1 ∉ (Layer.id <$> layers))
       (Scene.editLayerObjects s)).*2.

(** A scene where the object of layer [l1] exists and is cached for the
    feather radius 5: the first pass, once its image has loaded. *)
Definition sceneWithLayer : Scene.t :=
  (resume (Pass.with_point
             (AwaitImage RendererCases.featheredLayer None "feathered" [])
             RendererCases.passAtHead)
     (ImageLoaded 64 64) RendererCases.firstPass.1).1.

(** The next render: the layer is now half transparent. *)
Definition passAfterEdit : Pass.t :=
  Pass.mk 1 RendererCases.inputs1 RendererCases.transform0 Finished.
End RendererVocabulary.

(** ** Concrete inputs for the stores of the shell *)

(** Three notifications, the first dismissed by hand, then the timer of
    the second. *)
Definition toastOps : list ToastStore.Op :=
  [ToastStore.AddToast
     (ToastStore.NewToast.mk ToastStore.success "Saved" ToastStore.Missing);
   ToastStore.AddToast
     (ToastStore.NewToast.mk ToastStore.error "Failed" (ToastStore.Number 6000));
   ToastStore.RemoveToast "toast-1";
   ToastStore.AddToast
     (ToastStore.NewToast.mk ToastStore.info "Hint" (ToastStore.Number 0));
   ToastStore.TimerFires "toast-2"].

(** The first two of them, both on display. *)
Definition twoToasts : list ToastStore.Op := take 2 toastOps.

(** Two files opened, the first one again later. *)
Definition recentOps : list RecentFiles.Op :=
  [RecentFiles.AddRecentFile "C:\Pics\cat.png" RecentFiles.image 10;
   RecentFiles.AddRecentFile "/home/ann/trip.banslice" RecentFiles.project 20;
   RecentFiles.AddRecentFile "C:\Pics\cat.png" RecentFiles.image 30].

(** The layers of the compositor's test: a hidden layer between two
    visible ones, given here top-most first. *)
Definition testLayers : list Layer.t :=
  [Layer.mk "3" "Top" "shape" true 50 2 (Some 10) (Some 10) (Some 50) (Some 50)
     "top" None None None;
   Layer.mk "2" "Middle (Hidden)" "shape" false 100 1 (Some 0) (Some 0) (Some 100)
     (Some 100) "broken" None None None;
   Layer.mk "1" "Bottom" "base" true 100 0 (Some 0) (Some 0) (Some 100) (Some 100)
     "bottom" None None None].

(** An image loader that knows the two visible layers only. *)
Definition testLoader (imageData : string) : option (Z * Z) :=
  if bool_decide (imageData = "broken") then None else Some (100, 100).

(** A stack for the layer panel: the base layer and two edit layers. *)
Definition panelLayers : list Layer.t :=
  [RendererCases.baseLayer0; RendererCases.featheredLayer;
   RendererCases.featheredNoOriginal].

(** Bottom-most first: the order in which the compositor draws. *)
Definition below (a b : Layer.t) : Prop := Layer.order a ≤ Layer.order b.

(** ** Invariants of the stores of the shell *)
Module ToastVocabulary.
Import ToastStore.

(** Every toast on display got its id from the counter, and the ids are
    pairwise distinct, as long as the counter has not reached 2^53. *)
Definition numbered (s : State.t) : Prop :=
  0 ≤ State.toastId s
  ∧ Forall (λ t, ∃ k, 1 ≤ k ≤ State.toastId s ∧ Toast.id t = toastIdString k)
      (State.toasts s)
  ∧ NoDup (ids s).

(** Every toast on display with a positive duration has a timer
    pending. *)
Definition timed (s : State.t) : Prop :=
  ∀ t d, t ∈ State.toasts s → Toast.duration t = Some d → 0 < d →
    (Toast.id t, d) ∈ State.timers s.

(** The four helpers [toast.success], [toast.error], [toast.info] and
    [toast.warning]. *)
Definition helpers : list (string → State.t → State.t) :=
  [toast_success; toast_error; toast_info; toast_warning].

End ToastVocabulary.

Module RecentFilesVocabulary.
Import RecentFiles.

(** No path twice, at most ten entries. *)
Definition tidy (s : State.t) : Prop :=
  State.maxFiles s = 10
  ∧ NoDup (paths s)
  ∧ (length (State.recentFiles s) ≤ 10)%nat.

End RecentFilesVocabulary.

(** * Properties *)

(** ** Insertion-ordered maps *)

Module JsMapFacts.
Section Facts.
Context {V : Type}.
Implicit Types (m : list (string * V)) (k : string) (v : V).

Lemma get_set_eq m k v : JsMap.get k (JsMap.set k v m) = Some v.
Proof.
  induction m as [|[k' v'] r IH]; simpl.
  - by rewrite bool_decide_eq_true_2.
  - case_bool_decide as E; simpl.
    + by rewrite bool_decide_eq_true_2.
    + by rewrite bool_decide_eq_false_2.
Qed.

Lemma get_set_ne m k k' v :
  k ≠ k' → JsMap.get k' (JsMap.set k v m) = JsMap.get k' m.
Proof.
  intros Hne. induction m as [|[k0 v0] r IH]; simpl.
  - by rewrite bool_decide_eq_false_2.
  - case_bool_decide as E; simpl.
    + subst k0. by rewrite !bool_decide_eq_false_2.
    + by rewrite IH.
Qed.

Lemma get_delete_eq m k : JsMap.get k (JsMap.delete k m) = None.
Proof.
  unfold JsMap.delete. induction m as [|[k' v'] r IH]; [done|].
  rewrite filter_cons. case_decide as E; simpl in *; [|done].
  by rewrite bool_decide_eq_false_2.
Qed.

Lemma get_delete_ne m k k' :
  k' ≠ k → JsMap.get k' (JsMap.delete k m) = JsMap.get k' m.
Proof.
  intros Hne. unfold JsMap.delete.
  induction m as [|[k0 v0] r IH]; [done|].
  rewrite filter_cons. case_decide as E; simpl in *.
  - by rewrite IH.
  - rewrite IH. subst k0.
    by rewrite bool_decide_eq_false_2.
Qed.

Lemma elem_of_keys m k : k ∈ JsMap.keys m ↔ is_Some (JsMap.get k m).
Proof.
  unfold JsMap.keys. induction m as [|[k' v'] r IH]; simpl.
  - split; [by intros ?%elem_of_nil | by intros [? ?]].
  - rewrite elem_of_cons, IH. case_bool_decide as E.
    + split; [by eauto | by left].
    + split; [by intros [?|?] | by right].
Qed.

Lemma keys_set_present m k v :
  is_Some (JsMap.get k m) → JsMap.keys (JsMap.set k v m) = JsMap.keys m.
Proof.
  unfold JsMap.keys. induction m as [|[k' v'] r IH]; simpl.
  - by intros [? ?].
  - case_bool_decide as E; simpl; intros Hs.
    + by subst.
    + f_equal. by apply IH.
Qed.

Lemma elem_of_keys_set m k k' v :
  k' ∈ JsMap.keys (JsMap.set k v m) ↔ k' = k ∨ k' ∈ JsMap.keys m.
Proof.
  rewrite !elem_of_keys. destruct (decide (k = k')) as [->|Hne].
  - rewrite get_set_eq. split; [by left | by eauto].
  - rewrite get_set_ne by done. split; [by right | by intros [?|?]].
Qed.

Lemma elem_of_keys_delete m k k' :
  k' ∈ JsMap.keys (JsMap.delete k m) ↔ k' ≠ k ∧ k' ∈ JsMap.keys m.
Proof.
  rewrite !elem_of_keys. destruct (decide (k' = k)) as [->|Hne].
  - rewrite get_delete_eq. split; [intros Hn; by destruct Hn | intros [Hn _]; by destruct Hn].
  - rewrite get_delete_ne by done. split; [by intros ? | by intros [_ ?]].
Qed.

Lemma keys_delete m k :
  JsMap.keys (JsMap.delete k m) = filter (λ k', k' ≠ k) (JsMap.keys m).
Proof.
  unfold JsMap.keys, JsMap.delete.
  induction m as [|[k' v'] r IH]; [done|].
  rewrite fmap_cons, !filter_cons. simpl.
  destruct (decide (k' ≠ k)); [rewrite fmap_cons; simpl|]; by rewrite IH.
Qed.
End Facts.
End JsMapFacts.

(** ** The monad *)

Section MonadFacts.
Context {A B : Type}.
Implicit Types (m : M A) (f : A → M B) (w : World.t).

Lemma result_bind m f w :
  result (bind m f w) = result (f (result (m w)) (final (m w))).
Proof.
  unfold bind, result, final.
  destruct (m w) as [[a w1] t1]; simpl. by destruct (f a w1) as [[b w2] t2].
Qed.

Lemma final_bind m f w :
  final (bind m f w) = final (f (result (m w)) (final (m w))).
Proof.
  unfold bind, result, final.
  destruct (m w) as [[a w1] t1]; simpl. by destruct (f a w1) as [[b w2] t2].
Qed.

Lemma trace_bind m f w :
  trace (bind m f w) = trace (m w) ++ trace (f (result (m w)) (final (m w))).
Proof.
  unfold bind, result, final, trace.
  destruct (m w) as [[a w1] t1]; simpl. by destruct (f a w1) as [[b w2] t2].
Qed.
End MonadFacts.

Lemma bind_get {B} (f : ProjectsState.t → M B) w :
  bind get f w = f (World.reg w) w.
Proof. unfold bind, get. by destruct (f (World.reg w) w) as [[b w2] t2]. Qed.

Lemma run_eta {A} (r : A * World.t * list Event) :
  r = (result r, final r, trace r).
Proof. by destruct r as [[? ?] ?]. Qed.

(** ** Traces and the calls on the live stores *)

Lemma sets_of_app t1 t2 : sets_of (t1 ++ t2) = sets_of t1 ++ sets_of t2.
Proof. apply omap_app. Qed.

Lemma calls_of_app t1 t2 : calls_of (t1 ++ t2) = calls_of t1 ++ calls_of t2.
Proof. apply omap_app. Qed.

Section SessionFacts.
Context `{LiveStores}.

Lemma acts_as_ret : acts_as (ret tt) [].
Proof. intros w. by repeat split. Qed.

Lemma acts_as_bind m1 m2 l1 l2 :
  acts_as m1 l1 → acts_as m2 l2 → acts_as (m1 ;; m2) (l1 ++ l2).
Proof.
  intros H1 H2 w.
  destruct (H1 w) as (Hs1 & Hc1 & Hf1 & Hq1).
  destruct (H2 (final (m1 w))) as (Hs2 & Hc2 & Hf2 & Hq2).
  assert (Ha : active (final (m1 w)) = active w).
  { unfold active. unfold shape in Hs1. by simplify_eq. }
  rewrite final_bind, trace_bind, calls_of_app, sets_of_app, map_app.
  rewrite Ha in Hc2, Hq2. split; [|split; [|split]].
  - by rewrite Hs2.
  - by rewrite Hc1, Hc2.
  - apply Forall_app. split; [done|].
    eapply Forall_impl; [exact Hf2|]. intros st Hst. by rewrite Hst.
  - intros Hfalsy.
    destruct (Hq1 Hfalsy) as [E1 T1], (Hq2 Hfalsy) as [E2 T2].
    by rewrite E2, E1, T1, T2, map_app.
Qed.

Lemma acts_as_when c m l : acts_as m l → acts_as (when c m) (if c then l else []).
Proof. destruct c; [done|]. intros _. apply acts_as_ret. Qed.

(** A [set] that replaces the snapshot stored under an existing key. *)
Lemma shape_set_present st k v :
  is_Some (JsMap.get k (ProjectsState.projects st)) →
  shape (ProjectsState.with_projects (JsMap.set k v (ProjectsState.projects st)) st)
  = shape st.
Proof.
  intros Hk. unfold shape; simpl. by rewrite JsMapFacts.keys_set_present.
Qed.

Lemma truthy_default o : truthy o = true → o = Some (default EmptyString o).
Proof. by destruct o as [[|]|]. Qed.

Lemma acts_as_isDirtyListener d : acts_as (isDirtyListener d) [].
Proof.
  intros w. unfold isDirtyListener. rewrite bind_get. fold (active w).
  destruct (truthy (active w)) eqn:Ht; simpl; [|by repeat split].
  destruct (JsMap.get _ _) as [project|] eqn:Hg; [|by repeat split].
  case_bool_decide; simpl; [by repeat split|].
  split; [|split; [|split]]; try done.
  - by apply shape_set_present.
  - constructor; [|done]. by apply shape_set_present.
Qed.

Lemma acts_as_imagePathListener c : acts_as (imagePathListener c) [].
Proof.
  intros w. unfold imagePathListener.
  case_bool_decide; simpl; [by repeat split|].
  rewrite bind_get. simpl. fold (active w).
  destruct (truthy (active w)) eqn:Ht; simpl; [|by repeat split].
  destruct (JsMap.get _ _) as [project|] eqn:Hg; [|by repeat split].
  case_bool_decide; simpl; [by repeat split|].
  split; [|split; [|split]]; try done.
  - by apply shape_set_present.
  - constructor; [|done]. by apply shape_set_present.
Qed.

Lemma acts_as_canvas_action f : acts_as (canvas_action f) [].
Proof.
  intros w. apply (acts_as_imagePathListener _ (World.with_canvas _ w)).
Qed.

Lemma acts_as_history_action f : acts_as (history_action f) [].
Proof.
  intros w. unfold history_action. case_bool_decide; simpl.
  - by repeat split.
  - apply (acts_as_isDirtyListener _ (World.with_history _ w)).
Qed.

Lemma acts_as_perform a : acts_as (perform a) [].
Proof.
  destruct a; simpl;
    try apply acts_as_canvas_action; try apply acts_as_history_action;
    intros w; by repeat split.
Qed.

Lemma bind_log {B} e (m : M B) w :
  bind (log e) (λ _, m) w = (result (m w), final (m w), e :: trace (m w)).
Proof. unfold bind, log. by destruct (m w) as [[b w2] t2]. Qed.

Lemma acts_as_call a : acts_as (call a) [a].
Proof.
  intros w. unfold call. rewrite bind_get, bind_log.
  destruct (acts_as_perform a w) as (Hs & Hc & Hf & Hq).
  unfold final, trace in *. simpl in *. unfold active.
  split; [done|]. split; [by rewrite Hc|]. split; [done|].
  intros Hfalsy. destruct (Hq Hfalsy) as [E T]. by rewrite E, T.
Qed.

Lemma acts_as_restoreStateFromSnapshot snapshot :
  acts_as (restoreStateFromSnapshot snapshot) (restoreActions snapshot).
Proof.
  unfold restoreStateFromSnapshot, restoreActions.
  apply (acts_as_bind _ _ [_] [_; _; _; _; _]).
  { destruct (ProjectSnapshot.baseImage snapshot); apply acts_as_call. }
  apply (acts_as_bind _ _ [_] [_; _; _; _]); [apply acts_as_call|].
  apply (acts_as_bind _ _ [_] [_; _; _]); [apply acts_as_call|].
  apply (acts_as_bind _ _ [_] [_; _]).
  { case_bool_decide; apply acts_as_call. }
  apply (acts_as_bind _ _ [_] [_]); apply acts_as_call.
Qed.

Lemma acts_as_clearAllStores : acts_as clearAllStores clearActions.
Proof.
  unfold clearAllStores, clearActions.
  apply (acts_as_bind _ _ [_] [_; _; _]); [apply acts_as_call|].
  apply (acts_as_bind _ _ [_] [_; _]); [apply acts_as_call|].
  apply (acts_as_bind _ _ [_] [_]); apply acts_as_call.
Qed.

(** Saving replaces the snapshot under the active id; it calls no live
    store. *)
Lemma saveCurrentProjectState_run now w :
  saveCurrentProjectState now w =
    if truthy (active w) then
      match JsMap.get (default EmptyString (active w)) (ProjectsState.projects (World.reg w)) with
      | Some currentProject =>
          let st :=
            ProjectsState.with_projects
              (JsMap.set (default EmptyString (active w))
                 (captureCurrentState (default EmptyString (active w))
                    (ProjectSnapshot.name currentProject) now w)
                 (ProjectsState.projects (World.reg w)))
              (World.reg w) in
          (tt, World.with_reg st w, [ProjectsSet st])
      | None => (tt, w, [])
      end
    else (tt, w, []).
Proof.
  unfold saveCurrentProjectState. rewrite bind_get. fold (active w).
  destruct (truthy (active w)); [|done].
  by destruct (JsMap.get _ _).
Qed.

Lemma acts_as_saveCurrentProjectState now :
  acts_as (saveCurrentProjectState now) [].
Proof.
  intros w. rewrite saveCurrentProjectState_run.
  destruct (truthy (active w)) eqn:Ht; [|by repeat split].
  destruct (JsMap.get _ _) as [p|] eqn:Hg; [|by repeat split].
  simpl. split; [|split; [|split]]; try done.
  - by apply shape_set_present.
  - constructor; [|done]. by apply shape_set_present.
Qed.
End SessionFacts.

(** ** What the calls leave in the live stores *)

Section LiveFacts.
Context `{LiveStores}.

(** The subscribers write to the projects store only. *)
Lemma live_isDirtyListener d w : live (final (isDirtyListener d w)) = live w.
Proof.
  unfold isDirtyListener. rewrite bind_get.
  destruct (truthy _); simpl; [|done].
  destruct (JsMap.get _ _); [|done]. by case_bool_decide.
Qed.

Lemma live_imagePathListener c w : live (final (imagePathListener c w)) = live w.
Proof.
  unfold imagePathListener. case_bool_decide; simpl; [done|].
  rewrite bind_get. simpl.
  destruct (truthy _); simpl; [|done].
  destruct (JsMap.get _ _); [|done]. by case_bool_decide.
Qed.

Lemma live_canvas_action f w :
  live (final (canvas_action f w))
  = (f (World.canvas w), World.layerStore w, World.history w, World.selection w).
Proof. unfold canvas_action. cbv zeta. by rewrite live_imagePathListener. Qed.

Lemma live_history_action f w :
  live (final (history_action f w))
  = (World.canvas w, World.layerStore w, f (World.history w), World.selection w).
Proof.
  unfold history_action. cbv zeta. case_bool_decide; simpl; [done|].
  by rewrite live_isDirtyListener.
Qed.

Lemma final_call a w : final (call a w) = final (perform a w).
Proof. unfold call. rewrite bind_get, bind_log. done. Qed.

(** A call changes the store it is made on, by the store's own action,
    and no other live store. *)
Lemma live_call a w : live (final (call a w)) = performed a (live w).
Proof.
  rewrite final_call. destruct a; simpl;
    rewrite ?live_canvas_action, ?live_history_action; done.
Qed.

Lemma live_restoreStateFromSnapshot snapshot w :
  live (final (restoreStateFromSnapshot snapshot w)) = restored snapshot w.
Proof.
  unfold restoreStateFromSnapshot, restored.
  rewrite !final_bind. cbv beta.
  destruct (ProjectSnapshot.layers snapshot) as [|layer layers];
    [rewrite bool_decide_eq_false_2 by (simpl; lia)
    |rewrite bool_decide_eq_true_2 by (simpl; lia)];
    destruct (ProjectSnapshot.baseImage snapshot) as [img|];
    by rewrite !live_call.
Qed.

Lemma live_clearAllStores w : live (final (clearAllStores w)) = cleared w.
Proof.
  unfold clearAllStores, cleared. rewrite !final_bind. cbv beta.
  by rewrite !live_call.
Qed.

Lemma restored_live snapshot w w' :
  live w = live w' → restored snapshot w = restored snapshot w'.
Proof. unfold live, restored. by intros [= -> -> -> ->]. Qed.

Lemma cleared_live w w' : live w = live w' → cleared w = cleared w'.
Proof. unfold live, cleared. by intros [= -> -> -> ->]. Qed.

(** Flushing the outgoing session writes to the projects store only. *)
Lemma live_flush now w :
  live (final (when (truthy (active w)) (saveCurrentProjectState now) w)) = live w.
Proof.
  destruct (truthy (active w)) eqn:Ht; simpl; [|done].
  rewrite saveCurrentProjectState_run, Ht.
  by destruct (JsMap.get _ _).
Qed.
End LiveFacts.

Example twoTabs_registry :
  JsMap.keys (ProjectsState.projects (World.reg twoTabs)) = ["project-1-a"; "project-2-b"]
  ∧ ProjectsState.tabOrder (World.reg twoTabs) = ["project-1-a"; "project-2-b"]
  ∧ active twoTabs = Some "project-2-b".
Proof. by vm_compute. Qed.

(** ** Closing a session *)

Section CloseFacts.
Context `{LiveStores}.

(** C10. [closeProject(id)] with an [id] that is not a key of the registry
    returns [true] and changes nothing: the registry, the tab sequence,
    the active id and the live stores are as before, and no store is
    written. *)
Theorem closeProject_unknown_id (id : string) (w : World.t) :
  JsMap.get id (ProjectsState.projects (World.reg w)) = None →
  closeProject id w = (true, w, []).
Proof. intros Hg. unfold closeProject. by rewrite Hg. Qed.

(** C1. For a session of the registry, [closeProject(id)] on a dirty
    session returns [false] and leaves everything as it was; on a clean
    session it returns [true] and does exactly what [forceCloseProject(id)]
    does (same final state, same effects). *)
Theorem closeProject_dirty_or_clean (id : string) (project : ProjectSnapshot.t)
    (w : World.t) :
  JsMap.get id (ProjectsState.projects (World.reg w)) = Some project →
  (isProjectDirty id project w = true → closeProject id w = (false, w, []))
  ∧ (isProjectDirty id project w = false →
       closeProject id w
       = (true, final (forceCloseProject id w), trace (forceCloseProject id w))).
Proof.
  intros Hg. unfold closeProject, isProjectDirty, active. rewrite Hg.
  split; intros ->; [done|].
  unfold bind, ret, final, trace.
  destruct (forceCloseProject id w) as [[[] w'] t']. simpl.
  by rewrite app_nil_r.
Qed.

(** For a session of the registry the dirtiness read by [closeProject] is
    [hasUnsavedChanges]. *)
Lemma isProjectDirty_hasUnsavedChanges id project w :
  JsMap.get id (ProjectsState.projects (World.reg w)) = Some project →
  isProjectDirty id project w = hasUnsavedChanges id w.
Proof.
  intros Hg. unfold isProjectDirty, hasUnsavedChanges, active. by rewrite Hg.
Qed.
End CloseFacts.

Lemma closeProject_unknown_id_witness :
  JsMap.get "project-9-z" (ProjectsState.projects (World.reg twoTabs)) = None
  ∧ closeProject (H := plainStores) "project-9-z" twoTabs = (true, twoTabs, []).
Proof.
  split; [reflexivity|].
  apply (closeProject_unknown_id (H := plainStores) "project-9-z" twoTabs).
  reflexivity.
Defined.

Lemma closeProject_dirty_or_clean_witness :
  JsMap.get "project-2-b" (ProjectsState.projects (World.reg twoTabsEdited))
  = Some (createEmptySnapshot "project-2-b" "B" 2)
  ∧ isProjectDirty "project-2-b" (createEmptySnapshot "project-2-b" "B" 2)
      twoTabsEdited = true
  ∧ closeProject (H := plainStores) "project-2-b" twoTabsEdited
    = (false, twoTabsEdited, []).
Proof.
  split; [reflexivity|]. split; [reflexivity|].
  apply (closeProject_dirty_or_clean (H := plainStores) "project-2-b"
           (createEmptySnapshot "project-2-b" "B" 2) twoTabsEdited);
    reflexivity.
Defined.

(** ** The registry invariant *)

Lemma registry_ok_shape st st' :
  shape st' = shape st → registry_ok st → registry_ok st'.
Proof.
  unfold shape, registry_ok. intros E. injection E as -> -> ->. done.
Qed.

Lemma registry_ok_initial : registry_ok ProjectsState.initial.
Proof.
  unfold registry_ok, ProjectsState.initial, JsMap.keys; simpl.
  split; [done|]. split; [by intros ?%elem_of_nil | done].
Qed.

Lemma registry_ok_active_truthy st a :
  registry_ok st → ProjectsState.activeProjectId st = Some a →
  truthy (Some a) = true ∧ a ∈ ProjectsState.tabOrder st
  ∧ is_Some (JsMap.get a (ProjectsState.projects st)).
Proof.
  intros (Hk & He & Ha) E. specialize (Ha _ E).
  split; [|split].
  - destruct a; [done|done].
  - by apply Hk.
  - by apply JsMapFacts.elem_of_keys.
Qed.

(** ** Array helpers *)

Lemma at_index_elem_of {A} (l : list A) i x : at_index l i = Some x → x ∈ l.
Proof.
  unfold at_index. case_bool_decide; [done|].
  intros E. by eapply list_elem_of_lookup_2.
Qed.

Lemma at_index_is_Some {A} (l : list A) i :
  0 ≤ i < Z.of_nat (length l) → is_Some (at_index l i).
Proof.
  intros Hi. unfold at_index. rewrite bool_decide_eq_false_2 by lia.
  apply lookup_lt_is_Some. lia.
Qed.

Lemma indexOf_elem_of x l : x ∈ l → 0 ≤ indexOf x l < Z.of_nat (length l).
Proof.
  intros Hx. unfold indexOf.
  destruct (list_find_elem_of (λ y, y = x) l x Hx eq_refl) as [[i y] E].
  rewrite E. apply list_find_Some in E as (Hl & _ & _).
  apply lookup_lt_Some in Hl. lia.
Qed.

Lemma indexOf_not_elem_of x l : x ∉ l → indexOf x l = -1.
Proof.
  intros Hx. unfold indexOf.
  destruct (list_find _ l) as [[i y]|] eqn:E; [|done].
  apply list_find_Some in E as (Hl & -> & _).
  apply list_elem_of_lookup_2 in Hl. done.
Qed.

(** ** Force-closing a session *)

Section ForceCloseFacts.
Context `{LiveStores}.

Lemma forceCloseProject_run id w :
  forceCloseProject id w =
    let st := World.reg w in
    if bool_decide (newActiveIdOf id st = ProjectsState.activeProjectId st) then
      (tt, World.with_reg (closedRegistry id st) w, [ProjectsSet (closedRegistry id st)])
    else
      let w0 := World.with_reg (ProjectsState.with_active None st) w in
      (tt, World.with_reg (closedRegistry id st) (final (handover id st w0)),
       ProjectsSet (ProjectsState.with_active None st)
         :: trace (handover id st w0) ++ [ProjectsSet (closedRegistry id st)]).
Proof.
  unfold forceCloseProject. rewrite bind_get.
  fold (tabsAfterClose id (World.reg w)).
  fold (replacementTab id (World.reg w)).
  fold (newActiveIdOf id (World.reg w)).
  fold (closedRegistry id (World.reg w)).
  simpl. case_bool_decide as E; simpl.
  - done.
  - fold (handover id (World.reg w)).
    unfold bind at 1. unfold bind at 1. unfold set at 1. simpl.
    destruct (handover id (World.reg w) _) as [[[] w1] t1]. simpl.
    unfold final, trace. simpl. done.
Qed.
End ForceCloseFacts.

Section ForceCloseSpec.
Context `{LiveStores}.

Lemma elem_of_tabsAfterClose id st k :
  k ∈ tabsAfterClose id st ↔ k ≠ id ∧ k ∈ ProjectsState.tabOrder st.
Proof. unfold tabsAfterClose. by rewrite list_elem_of_filter. Qed.

Lemma tabsAfterClose_length id st :
  tabsAfterClose id st ≠ [] ↔ 0 < Z.of_nat (length (tabsAfterClose id st)).
Proof. destruct (tabsAfterClose id st); simpl; split; (done || lia). Qed.

(** With the active session among the tabs, the tab that takes over
    exists as soon as a tab remains. *)
Lemma replacementTab_is_Some id st :
  id ∈ ProjectsState.tabOrder st → tabsAfterClose id st ≠ [] →
  ∃ rep, replacementTab id st = Some rep ∧ rep ∈ tabsAfterClose id st.
Proof.
  intros Hid Hne. apply tabsAfterClose_length in Hne.
  pose proof (indexOf_elem_of _ _ Hid) as Hi.
  destruct (at_index_is_Some (tabsAfterClose id st)
              (Z.min (indexOf id (ProjectsState.tabOrder st))
                     (Z.of_nat (length (tabsAfterClose id st)) - 1)))
    as [rep Hrep]; [lia|].
  exists rep. split; [done|]. by eapply at_index_elem_of.
Qed.

Lemma newActiveIdOf_active id st :
  registry_ok st → Some id = ProjectsState.activeProjectId st →
  (tabsAfterClose id st ≠ [] →
     newActiveIdOf id st = replacementTab id st
     ∧ ∃ rep, replacementTab id st = Some rep ∧ rep ≠ id
              ∧ truthy (Some rep) = true
              ∧ is_Some (JsMap.get rep (JsMap.delete id (ProjectsState.projects st))))
  ∧ (tabsAfterClose id st = [] → newActiveIdOf id st = None).
Proof.
  intros Hok Ha. unfold newActiveIdOf.
  destruct (registry_ok_active_truthy st id Hok (eq_sym Ha)) as (_ & Hid & _).
  split.
  - intros Hne. rewrite bool_decide_eq_true_2 by by apply tabsAfterClose_length.
    rewrite bool_decide_eq_true_2 by done. split; [done|].
    destruct (replacementTab_is_Some id st Hid Hne) as (rep & Hrep & Hin).
    apply elem_of_tabsAfterClose in Hin as [Hneq Hin].
    destruct Hok as (Hk & He & _).
    exists rep. split; [done|]. split; [done|]. split.
    + destruct rep; [|done]. exfalso. apply He. by apply Hk.
    + apply JsMapFacts.elem_of_keys, JsMapFacts.elem_of_keys_delete.
      split; [done|]. by apply Hk.
  - intros ->. done.
Qed.

Lemma newActiveIdOf_inactive id st :
  registry_ok st → Some id ≠ ProjectsState.activeProjectId st →
  newActiveIdOf id st = ProjectsState.activeProjectId st.
Proof.
  intros Hok Ha. unfold newActiveIdOf.
  rewrite (bool_decide_eq_false_2 (Some id = _)) by done.
  case_bool_decide as Hlen; [done|].
  destruct (ProjectsState.activeProjectId st) as [a|] eqn:E; [|done].
  exfalso. apply Hlen. apply tabsAfterClose_length.
  destruct (registry_ok_active_truthy st a Hok E) as (_ & Hin & _).
  intros Hnil.
  assert (a ∈ tabsAfterClose id st) as Hin'.
  { apply elem_of_tabsAfterClose. split; [congruence|done]. }
  rewrite Hnil in Hin'. by apply elem_of_nil in Hin'.
Qed.

(** C2. [forceCloseProject(id)] removes [id] from the mapping and from
    the tabs.  When [id] was active, the new active id is the tab at
    [min(originalTabIndex, newTabCount - 1)] of the new tab sequence if a
    tab remains and null otherwise.  In a registry whose tabs are its keys
    (every registry the operations build from the empty one) that tab
    exists, the active id stays when [id] was not active, and when the
    active id changes the effects are, in this order: [set] the active id
    to null; restore the replacement's snapshot into the live stores
    (clear them when there is no replacement), every call running under
    the null active id and with no write to the projects store in between;
    [set] the new registry, which makes the replacement active.  The live
    stores then hold what the stores' own restore actions make of them with
    the replacement's snapshot (what their clearing actions make of them
    when there is no replacement); they are untouched when the active id
    does not change. *)
Theorem forceCloseProject_spec (id : string) (w : World.t) :
  let st := World.reg w in
  let r := forceCloseProject id w in
  let st' := World.reg (final r) in
  let w0 := World.with_reg (ProjectsState.with_active None st) w in
  ProjectsState.projects st' = JsMap.delete id (ProjectsState.projects st)
  ∧ JsMap.get id (ProjectsState.projects st') = None
  ∧ ProjectsState.tabOrder st' = tabsAfterClose id st
  ∧ (id ∉ ProjectsState.tabOrder st')
  ∧ (Some id = ProjectsState.activeProjectId st →
       (tabsAfterClose id st ≠ [] →
          ProjectsState.activeProjectId st' = replacementTab id st)
       ∧ (tabsAfterClose id st = [] → ProjectsState.activeProjectId st' = None))
  ∧ (registry_ok st →
       (Some id = ProjectsState.activeProjectId st → tabsAfterClose id st ≠ [] →
          is_Some (replacementTab id st))
       ∧ (Some id ≠ ProjectsState.activeProjectId st →
            ProjectsState.activeProjectId st' = ProjectsState.activeProjectId st)
       ∧ (ProjectsState.activeProjectId st' ≠ ProjectsState.activeProjectId st →
            match ProjectsState.activeProjectId st' with
            | Some replacement =>
                ∃ snapshot,
                  JsMap.get replacement (ProjectsState.projects st') = Some snapshot
                  ∧ trace r = [ProjectsSet (ProjectsState.with_active None st)]
                              ++ map (λ a, StoreCall a None) (restoreActions snapshot)
                              ++ [ProjectsSet st']
                  ∧ final r = World.with_reg st'
                                (final (restoreStateFromSnapshot snapshot w0))
                  ∧ live (final r) = restored snapshot w
            | None =>
                trace r = [ProjectsSet (ProjectsState.with_active None st)]
                          ++ map (λ a, StoreCall a None) clearActions
                          ++ [ProjectsSet st']
                ∧ final r = World.with_reg st' (final (clearAllStores w0))
                ∧ live (final r) = cleared w
            end)
       ∧ (ProjectsState.activeProjectId st' = ProjectsState.activeProjectId st →
            trace r = [ProjectsSet st'] ∧ final r = World.with_reg st' w
            ∧ live (final r) = live w)).
Proof.
  intros st r st' w0.
  assert (Hreg : st' = closedRegistry id st).
  { unfold st', r. rewrite forceCloseProject_run. simpl.
    by case_bool_decide. }
  rewrite Hreg. simpl.
  split; [done|]. split; [apply JsMapFacts.get_delete_eq|].
  split; [done|].
  split; [intros [Hc _]%elem_of_tabsAfterClose; done|].
  split.
  { intros Ha. unfold newActiveIdOf. split.
    - intros Hne. rewrite bool_decide_eq_true_2 by by apply tabsAfterClose_length.
      by rewrite bool_decide_eq_true_2.
    - by intros ->. }
  intros Hok. split.
  { intros Ha Hne. destruct (newActiveIdOf_active id st Hok Ha) as [H1 _].
    destruct (H1 Hne) as (_ & rep & Hrep & _). by rewrite Hrep. }
  split; [by apply newActiveIdOf_inactive|].
  unfold r. rewrite forceCloseProject_run. fold st. simpl.
  split.
  - intros Hchg. rewrite bool_decide_eq_false_2 by done. fold w0.
    destruct (decide (Some id = ProjectsState.activeProjectId st)) as [Ha|Ha];
      [|by rewrite newActiveIdOf_inactive in Hchg].
    destruct (newActiveIdOf_active id st Hok Ha) as [H1 H2].
    destruct (decide (tabsAfterClose id st = [])) as [Hnil|Hne].
    + rewrite (H2 Hnil). unfold handover. rewrite (H2 Hnil). simpl.
      destruct (acts_as_clearAllStores w0) as (_ & _ & _ & Hq).
      destruct (Hq eq_refl) as [_ Ht]. unfold trace in *. simpl in *.
      rewrite Ht. split; [done|]. split; [done|].
      apply (live_clearAllStores w0).
    + destruct (H1 Hne) as (E & rep & Hrep & Hneq & Htr & [snapshot Hsn]).
      rewrite E, Hrep. exists snapshot. split; [done|].
      unfold handover. rewrite E, Hrep, Htr. simpl. rewrite Hsn.
      destruct (acts_as_restoreStateFromSnapshot snapshot w0) as (_ & _ & _ & Hq).
      destruct (Hq eq_refl) as [_ Ht]. unfold trace in *. simpl in *.
      rewrite Ht. split; [done|]. split; [done|].
      apply (live_restoreStateFromSnapshot snapshot w0).
  - intros Hsame. by rewrite bool_decide_eq_true_2.
Qed.
End ForceCloseSpec.

Lemma registry_okb_sound st : registry_okb st = true → registry_ok st.
Proof.
  unfold registry_okb, registry_ok.
  intros [[Hk He%bool_decide_eq_true]%andb_prop Ha]%andb_prop.
  apply bool_decide_eq_true in Hk. rewrite Hk in *.
  split; [done|]. split; [done|].
  intros a E. rewrite E in Ha. by apply bool_decide_eq_true in Ha.
Qed.

Lemma forceCloseProject_spec_witness :
  registry_ok (World.reg twoTabsEdited)
  ∧ ProjectsState.activeProjectId
      (World.reg (final (forceCloseProject (H := plainStores) "project-2-b"
                           twoTabsEdited)))
    = Some "project-1-a"
  ∧ trace (forceCloseProject (H := plainStores) "project-2-b" twoTabsEdited)
    = [ProjectsSet (ProjectsState.with_active None (World.reg twoTabsEdited))]
      ++ map (λ a, StoreCall a None) (restoreActions snapshotA)
      ++ [ProjectsSet
            (World.reg (final (forceCloseProject (H := plainStores)
                                 "project-2-b" twoTabsEdited)))]
  ∧ World.history twoTabsEdited = HistoryState.mk [HistorySnapshot.mk [] None] [] true
  ∧ live (final (forceCloseProject (H := plainStores) "project-2-b" twoTabsEdited))
    = (CanvasState.mk None None 100 0 0, LayerState.mk [] None,
       HistoryState.mk [] [] false, SelectionState.mk None).
Proof.
  assert (Hok : registry_ok (World.reg twoTabsEdited)).
  { apply registry_okb_sound. vm_compute. reflexivity. }
  split; [exact Hok|].
  destruct (forceCloseProject_spec (H := plainStores) "project-2-b" twoTabsEdited)
    as (_ & _ & _ & _ & Hact & Hwf).
  destruct (Hact eq_refl) as [Hrep _].
  assert (Hnew : ProjectsState.activeProjectId
                   (World.reg (final (forceCloseProject (H := plainStores)
                                        "project-2-b" twoTabsEdited)))
                 = Some "project-1-a").
  { rewrite Hrep; [reflexivity | discriminate]. }
  split; [exact Hnew|].
  destruct (Hwf Hok) as (_ & _ & Hord & _).
  rewrite Hnew in Hord.
  destruct Hord as (snapshot & Hsn & Htr & _ & Hlive); [discriminate|].
  assert (snapshot = snapshotA) as ->
    by (vm_compute in Hsn; injection Hsn as <-; reflexivity).
  split; [exact Htr|]. split; [reflexivity|].
  rewrite Hlive. reflexivity.
Defined.

(** ** Creating and switching sessions: the order of the effects *)

Section CreateSwitchFacts.
Context `{LiveStores}.

Lemma bind_set {B} f (m : M B) w :
  bind (set f) (λ _, m) w =
    let w' := World.with_reg (f (World.reg w)) w in
    (result (m w'), final (m w'), ProjectsSet (f (World.reg w)) :: trace (m w')).
Proof. unfold bind, set. simpl. by destruct (m _) as [[b w2] t2]. Qed.

Lemma bind_run {A B} (m : M A) (f : A → M B) w :
  bind m f w =
    (result (f (result (m w)) (final (m w))),
     final (f (result (m w)) (final (m w))),
     trace (m w) ++ trace (f (result (m w)) (final (m w)))).
Proof.
  rewrite (run_eta (bind m f w)). by rewrite result_bind, final_bind, trace_bind.
Qed.

(** The three phases of [createProject]: flush the outgoing session, then
    [set] the active id to null, then clear the live stores unless
    [fromDrop]; the last [set] inserts the new session and activates it. *)
Lemma createProject_run name fromDrop now rnd w :
  createProject name fromDrop now rnd w =
    let id := generateProjectId now rnd in
    let r1 := when (truthy (active w)) (saveCurrentProjectState now) w in
    let w1 := World.with_reg (ProjectsState.with_active None (World.reg (final r1)))
                (final r1) in
    let r2 := when (negb fromDrop) clearAllStores w1 in
    let st' :=
      {| ProjectsState.projects :=
           JsMap.set id (createEmptySnapshot id (or_else name "Untitled") now)
             (ProjectsState.projects (World.reg (final r2)));
         ProjectsState.activeProjectId := Some id;
         ProjectsState.tabOrder := ProjectsState.tabOrder (World.reg w) ++ [id] |} in
    (id, World.with_reg st' (final r2),
     trace r1 ++ [ProjectsSet (World.reg w1)] ++ trace r2 ++ [ProjectsSet st']).
Proof.
  unfold createProject. rewrite bind_get. fold (active w).
  rewrite bind_run, bind_set. simpl.
  rewrite bind_run. rewrite bind_set. simpl.
  unfold result, final, trace. simpl. by rewrite ?app_nil_r.
Qed.

(** [switchProject] towards a session of the registry that is not the
    active one: flush the outgoing session, [set] the active id to the
    target, restore the target's snapshot. *)
Lemma switchProject_run id now w targetProject :
  Some id ≠ active w →
  JsMap.get id (ProjectsState.projects (World.reg w)) = Some targetProject →
  switchProject id now w =
    let r1 := when (truthy (active w)) (saveCurrentProjectState now) w in
    let w1 := World.with_reg (ProjectsState.with_active (Some id) (World.reg (final r1)))
                (final r1) in
    let r2 := restoreStateFromSnapshot targetProject w1 in
    (tt, final r2, trace r1 ++ [ProjectsSet (World.reg w1)] ++ trace r2).
Proof.
  intros Hne Hg. unfold switchProject. rewrite bind_get. fold (active w).
  rewrite bool_decide_eq_false_2 by done. rewrite Hg.
  rewrite bind_run, bind_set. simpl.
  unfold result, final, trace. simpl.
  by destruct (restoreStateFromSnapshot _ _) as [[u ?] ?]; destruct u.
Qed.

Lemma switchProject_noop id now w :
  Some id = active w ∨ JsMap.get id (ProjectsState.projects (World.reg w)) = None →
  switchProject id now w = (tt, w, []).
Proof.
  intros Hc. unfold switchProject. rewrite bind_get. fold (active w).
  case_bool_decide; [done|]. destruct Hc as [? | ->]; done.
Qed.
End CreateSwitchFacts.

Section CreateSwitchSpec.
Context `{LiveStores}.

(** What flushing the outgoing session stores: the live state, captured
    under the active id and the session's name. *)
Lemma flush_saves_live_state now w a currentProject :
  active w = Some a → a ≠ EmptyString →
  JsMap.get a (ProjectsState.projects (World.reg w)) = Some currentProject →
  let r1 := when (truthy (active w)) (saveCurrentProjectState now) w in
  JsMap.get a (ProjectsState.projects (World.reg (final r1)))
  = Some (captureCurrentState a (ProjectSnapshot.name currentProject) now w)
  ∧ World.canvas (final r1) = World.canvas w
  ∧ World.layerStore (final r1) = World.layerStore w
  ∧ World.history (final r1) = World.history w
  ∧ World.selection (final r1) = World.selection w.
Proof.
  intros Ha Hne Hg. simpl.
  assert (Ht : truthy (active w) = true) by (rewrite Ha; by destruct a).
  rewrite Ht. simpl. rewrite saveCurrentProjectState_run, Ht, Ha. simpl.
  rewrite Hg. simpl. by rewrite JsMapFacts.get_set_eq.
Qed.

Lemma flush_sets now w :
  let r1 := when (truthy (active w)) (saveCurrentProjectState now) w in
  calls_of (trace r1) = []
  ∧ Forall (λ st, ProjectsState.activeProjectId st ≠ None) (sets_of (trace r1))
  ∧ shape (World.reg (final r1)) = shape (World.reg w).
Proof.
  simpl. destruct (truthy (active w)) eqn:Ht; simpl; [|done].
  destruct (acts_as_saveCurrentProjectState now w) as (Hs & Hc & Hf & _).
  split; [done|]. split; [|done].
  eapply Forall_impl; [exact Hf|]. intros st Hst. unfold shape in Hst.
  injection Hst as _ -> _. fold (active w). by destruct (active w).
Qed.

(** C3 (as the code has it).  [switchProject(id)] does nothing when [id]
    is the active session or not in the registry.  Otherwise it first
    saves the live state of the active session into its snapshot, then
    [set]s the active id to [id], and then restores the target's snapshot
    into the live stores: every call of the restore runs under the active
    id [id], and no [set] of the operation leaves the active id null.
    Afterwards the live stores hold what the stores' own restore actions
    make of them with the target's snapshot. *)
Theorem switchProject_order (id : string) (now : Z) (w : World.t) :
  (Some id = active w
   ∨ JsMap.get id (ProjectsState.projects (World.reg w)) = None →
   switchProject id now w = (tt, w, []))
  ∧ (∀ targetProject,
       Some id ≠ active w →
       JsMap.get id (ProjectsState.projects (World.reg w)) = Some targetProject →
       let r := switchProject id now w in
       let r1 := when (truthy (active w)) (saveCurrentProjectState now) w in
       let w1 := World.with_reg
                   (ProjectsState.with_active (Some id) (World.reg (final r1)))
                   (final r1) in
       let r2 := restoreStateFromSnapshot targetProject w1 in
       trace r = trace r1 ++ [ProjectsSet (World.reg w1)] ++ trace r2
       ∧ final r = final r2
       ∧ (∀ a currentProject,
            active w = Some a → a ≠ EmptyString →
            JsMap.get a (ProjectsState.projects (World.reg w)) = Some currentProject →
            JsMap.get a (ProjectsState.projects (World.reg (final r1)))
            = Some (captureCurrentState a (ProjectSnapshot.name currentProject) now w))
       ∧ calls_of (trace r1) = []
       ∧ calls_of (trace r2) = map (λ a, (a, Some id)) (restoreActions targetProject)
       ∧ calls_of (trace r) = map (λ a, (a, Some id)) (restoreActions targetProject)
       ∧ Forall (λ st, ProjectsState.activeProjectId st = Some id) (sets_of (trace r2))
       ∧ Forall (λ st, ProjectsState.activeProjectId st ≠ None) (sets_of (trace r))
       ∧ active (final r) = Some id
       ∧ live (final r) = restored targetProject w).
Proof.
  split; [apply switchProject_noop|].
  intros targetProject Hne Hg r r1 w1 r2.
  assert (Htr : trace r = trace r1 ++ [ProjectsSet (World.reg w1)] ++ trace r2).
  { unfold r. by rewrite (switchProject_run id now w targetProject Hne Hg). }
  assert (Hfin : final r = final r2).
  { unfold r. by rewrite (switchProject_run id now w targetProject Hne Hg). }
  rewrite Htr, Hfin.
  destruct (flush_sets now w) as (Hc1 & Hf1 & Hs1). fold r1 in Hc1, Hf1, Hs1.
  destruct (acts_as_restoreStateFromSnapshot targetProject w1) as (Hs2 & Hc2 & Hf2 & _).
  fold r2 in Hs2, Hc2, Hf2.
  assert (Hf2' : Forall (λ st, ProjectsState.activeProjectId st = Some id)
                   (sets_of (trace r2))).
  { eapply Forall_impl; [exact Hf2|]. intros st Hst. unfold shape in Hst.
    by injection Hst as _ -> _. }
  split; [done|]. split; [done|].
  split. { intros a cur Ha Hna Hga. by apply (flush_saves_live_state now w a cur). }
  split; [done|]. split; [done|].
  split. { rewrite calls_of_app, Hc1. simpl. exact Hc2. }
  split; [done|].
  split.
  { rewrite sets_of_app. apply Forall_app. split; [done|]. simpl.
    constructor; [done|]. eapply Forall_impl; [exact Hf2'|].
    intros st ->. done. }
  split.
  { unfold active. unfold shape in Hs2. injection Hs2 as _ Ha _. by rewrite Ha. }
  unfold r2. rewrite live_restoreStateFromSnapshot.
  apply restored_live. apply (live_flush now w).
Qed.
End CreateSwitchSpec.

Lemma switchProject_order_witness :
  Some "project-1-a" ≠ active twoTabsEdited
  ∧ JsMap.get "project-1-a" (ProjectsState.projects (World.reg twoTabsEdited))
    = Some snapshotA
  ∧ calls_of (trace (switchProject (H := plainStores) "project-1-a" 3 twoTabsEdited))
    = map (λ a, (a, Some "project-1-a")) (restoreActions snapshotA)
  ∧ active (final (switchProject (H := plainStores) "project-1-a" 3 twoTabsEdited))
    = Some "project-1-a"
  ∧ World.history twoTabsEdited = HistoryState.mk [HistorySnapshot.mk [] None] [] true
  ∧ live (final (switchProject (H := plainStores) "project-1-a" 3 twoTabsEdited))
    = (CanvasState.mk None None 100 0 0, LayerState.mk [] None,
       HistoryState.mk [] [] false, SelectionState.mk None).
Proof.
  assert (Hne : Some "project-1-a" ≠ active twoTabsEdited) by (vm_compute; discriminate).
  assert (Hg : JsMap.get "project-1-a" (ProjectsState.projects (World.reg twoTabsEdited))
               = Some snapshotA) by reflexivity.
  split; [exact Hne|]. split; [exact Hg|].
  destruct (switchProject_order (H := plainStores) "project-1-a" 3 twoTabsEdited)
    as [_ Hsw].
  destruct (Hsw snapshotA Hne Hg)
    as (_ & _ & _ & _ & _ & Hcalls & _ & _ & Hact & Hlive).
  split; [exact Hcalls|]. split; [exact Hact|]. split; [reflexivity|].
  rewrite Hlive. reflexivity.
Defined.

(** Switching from B to A in [twoTabs] never [set]s the active id to null:
    the trace has not the shape the specification describes. *)
Lemma switchProject_no_null_window :
  ¬ null_window_switch "project-1-a"
      (trace (switchProject (H := plainStores) "project-1-a" 3 twoTabs)).
Proof.
  intros (saving & st_null & restoring & st_id & E & Hnull & _ & _).
  assert (Hall : Forall (λ st, ProjectsState.activeProjectId st ≠ None)
                   (sets_of (trace (switchProject (H := plainStores)
                                      "project-1-a" 3 twoTabs)))).
  { vm_compute. repeat constructor; discriminate. }
  rewrite E, !sets_of_app in Hall.
  apply Forall_app in Hall as [_ Hall]. apply Forall_app in Hall as [Hall _].
  simpl in Hall. apply Forall_cons in Hall as [Hall _]. by apply Hall.
Qed.

Section CreateSpec.
Context `{LiveStores}.

(** C7 (as the code has it).  [createProject(name, fromDrop)] first
    flushes the live state into the active session's snapshot (when one
    is active), then [set]s the active id to null, then clears the live
    stores unless [fromDrop] is set (with [fromDrop] the live stores are
    left as they are), then inserts a fresh empty snapshot under a new id
    into the registry, appends the id to the tabs and makes it active, all
    in one [set].  Between the flush and that last [set] the active id is
    null: every call on the live stores runs under the null id and the
    projects store is not written.  Afterwards the live stores hold what
    the stores' own clearing actions make of them, and with [fromDrop]
    what they held before. *)
Theorem createProject_order (name : option string) (fromDrop : bool)
    (now : Z) (rnd : string) (w : World.t) :
  let id := generateProjectId now rnd in
  let r := createProject name fromDrop now rnd w in
  let r1 := when (truthy (active w)) (saveCurrentProjectState now) w in
  let st_null := ProjectsState.with_active None (World.reg (final r1)) in
  let w1 := World.with_reg st_null (final r1) in
  let st' := World.reg (final r) in
  result r = id
  ∧ trace r = trace r1 ++ [ProjectsSet st_null]
              ++ map (λ a, StoreCall a None) (if fromDrop then [] else clearActions)
              ++ [ProjectsSet st']
  ∧ calls_of (trace r1) = []
  ∧ (∀ a currentProject,
       active w = Some a → a ≠ EmptyString →
       JsMap.get a (ProjectsState.projects (World.reg w)) = Some currentProject →
       JsMap.get a (ProjectsState.projects (World.reg (final r1)))
       = Some (captureCurrentState a (ProjectSnapshot.name currentProject) now w))
  ∧ final r = World.with_reg st' (final (when (negb fromDrop) clearAllStores w1))
  ∧ (fromDrop = true → final r = World.with_reg st' (final r1))
  ∧ st' = {| ProjectsState.projects :=
               JsMap.set id (createEmptySnapshot id (or_else name "Untitled") now)
                 (ProjectsState.projects (World.reg (final r1)));
             ProjectsState.activeProjectId := Some id;
             ProjectsState.tabOrder := ProjectsState.tabOrder (World.reg w) ++ [id] |}
  ∧ JsMap.get id (ProjectsState.projects st')
    = Some (createEmptySnapshot id (or_else name "Untitled") now)
  ∧ id ∈ ProjectsState.tabOrder st'
  ∧ live (final r) = (if fromDrop then live w else cleared w).
Proof.
  intros id r r1 st_null w1 st'.
  pose proof (createProject_run name fromDrop now rnd w) as Hrun.
  simpl in Hrun. fold id r r1 in Hrun. fold st_null in Hrun. fold w1 in Hrun.
  destruct (acts_as_when (negb fromDrop) _ _ acts_as_clearAllStores w1)
    as (_ & _ & _ & Hq).
  destruct (Hq eq_refl) as [Hreg2 Htr2]. clear Hq.
  rewrite Hreg2 in Hrun. simpl in Hrun.
  assert (Hst : st' = {| ProjectsState.projects :=
               JsMap.set id (createEmptySnapshot id (or_else name "Untitled") now)
                 (ProjectsState.projects (World.reg (final r1)));
             ProjectsState.activeProjectId := Some id;
             ProjectsState.tabOrder := ProjectsState.tabOrder (World.reg w) ++ [id] |}).
  { unfold st'. by rewrite Hrun. }
  assert (Hacts : map (λ a, StoreCall a (active w1))
                    (if negb fromDrop then clearActions else [])
                  = map (λ a, StoreCall a None) (if fromDrop then [] else clearActions)).
  { by destruct fromDrop. }
  rewrite Hacts in Htr2. rewrite Htr2 in Hrun.
  split; [by rewrite Hrun|].
  split; [rewrite Hst; by rewrite Hrun|].
  split; [apply (flush_sets now w)|].
  split. { intros a cur Ha Hna Hga. by apply (flush_saves_live_state now w a cur). }
  split; [rewrite Hst; by rewrite Hrun|].
  split. { intros ->. rewrite Hst. by rewrite Hrun. }
  split; [done|]. rewrite Hst. simpl.
  split; [apply JsMapFacts.get_set_eq|].
  split; [apply elem_of_app; right; apply elem_of_cons; by left|].
  rewrite Hrun. change (final (?u, ?x, ?t)) with x.
  change (live (World.with_reg ?st ?x)) with (live x).
  destruct fromDrop; simpl.
  - apply (live_flush now w).
  - rewrite live_clearAllStores. apply cleared_live. apply (live_flush now w).
Qed.
End CreateSpec.

(** With [fromDrop] the live stores are not cleared: no call is made on
    them, and the History Engine still holds the edited document. *)
Lemma createProject_fromDrop_keeps_live_stores :
  ¬ create_clears_live_stores
      (trace (createProject (H := plainStores) None true 3 "c" twoTabsEdited)).
Proof. unfold create_clears_live_stores. vm_compute. discriminate. Qed.

Example createProject_fromDrop_history :
  World.history (final (createProject (H := plainStores) None true 3 "c" twoTabsEdited))
  = World.history twoTabsEdited
  ∧ active (final (createProject (H := plainStores) None true 3 "c" twoTabsEdited))
    = Some "project-3-c".
Proof. by vm_compute. Qed.

Lemma createProject_order_witness :
  active twoTabsEdited = Some "project-2-b"
  ∧ JsMap.get "project-2-b"
      (ProjectsState.projects
         (World.reg (final (when (truthy (active twoTabsEdited))
                              (saveCurrentProjectState 3)
                              twoTabsEdited))))
    = Some (captureCurrentState "project-2-b" "B" 3 twoTabsEdited)
  ∧ calls_of (trace (createProject (H := plainStores) None false 3 "c" twoTabsEdited))
    = map (λ a, (a, None)) clearActions
  ∧ World.history twoTabsEdited = HistoryState.mk [HistorySnapshot.mk [] None] [] true
  ∧ live (final (createProject (H := plainStores) None false 3 "c" twoTabsEdited))
    = (CanvasState.mk None None 100 0 0, LayerState.mk [] None,
       HistoryState.mk [] [] false, SelectionState.mk None).
Proof.
  split; [reflexivity|].
  destruct (createProject_order (H := plainStores) None false 3 "c" twoTabsEdited)
    as (_ & Htr & Hc1 & Hsave & _ & _ & _ & _ & _ & Hlive).
  split.
  { apply (Hsave "project-2-b" (createEmptySnapshot "project-2-b" "B" 2));
      [reflexivity | discriminate | reflexivity]. }
  split; [rewrite Htr, !calls_of_app, Hc1; vm_compute; reflexivity|].
  split; [reflexivity|]. rewrite Hlive. reflexivity.
Defined.

(** ** Sequences of operations *)

Section Sequences.
Context `{LiveStores}.

Lemma generateProjectId_nonempty now rnd : generateProjectId now rnd ≠ EmptyString.
Proof. unfold generateProjectId. simpl. discriminate. Qed.

Lemma createProject_registry name fromDrop now rnd w :
  let id := generateProjectId now rnd in
  let r1 := when (truthy (active w)) (saveCurrentProjectState now) w in
  let w1 := World.with_reg (ProjectsState.with_active None (World.reg (final r1)))
              (final r1) in
  let r2 := when (negb fromDrop) clearAllStores w1 in
  World.reg (final (createProject name fromDrop now rnd w)) =
    {| ProjectsState.projects :=
         JsMap.set id (createEmptySnapshot id (or_else name "Untitled") now)
           (ProjectsState.projects (World.reg (final r2)));
       ProjectsState.activeProjectId := Some id;
       ProjectsState.tabOrder := ProjectsState.tabOrder (World.reg w) ++ [id] |}.
Proof. by rewrite createProject_run. Qed.

Lemma switchProject_final id now w targetProject :
  Some id ≠ active w →
  JsMap.get id (ProjectsState.projects (World.reg w)) = Some targetProject →
  let r1 := when (truthy (active w)) (saveCurrentProjectState now) w in
  let w1 := World.with_reg (ProjectsState.with_active (Some id) (World.reg (final r1)))
              (final r1) in
  final (switchProject id now w) = final (restoreStateFromSnapshot targetProject w1).
Proof. intros Hne Hg. by rewrite (switchProject_run id now w targetProject Hne Hg). Qed.

Lemma createProject_registry_ok name fromDrop now rnd w :
  registry_ok (World.reg w) →
  registry_ok (World.reg (final (createProject name fromDrop now rnd w))).
Proof.
  intros (Hk & He & Ha). rewrite createProject_registry. simpl.
  set (r1 := when (truthy (active w)) (saveCurrentProjectState now) w).
  set (w1 := World.with_reg _ (final r1)).
  destruct (acts_as_when (negb fromDrop) _ _ acts_as_clearAllStores w1)
    as (Hs2 & _).
  destruct (acts_as_when (truthy (active w)) _ _
              (acts_as_saveCurrentProjectState now) w) as (Hs1 & _).
  fold r1 in Hs1. unfold shape in Hs1, Hs2. simpl in Hs2.
  injection Hs2 as Hk2 _ _. injection Hs1 as Hk1 _ _.
  unfold registry_ok. simpl.
  split; [|split].
  - intros k. rewrite JsMapFacts.elem_of_keys_set, elem_of_app,
      list_elem_of_singleton, Hk2, Hk1, Hk. tauto.
  - rewrite JsMapFacts.elem_of_keys_set, Hk2, Hk1. intros [E|E]; [|done].
    by apply (generateProjectId_nonempty now rnd).
  - intros a [= <-]. apply JsMapFacts.elem_of_keys_set. by left.
Qed.

Lemma switchProject_registry_ok id now w :
  registry_ok (World.reg w) →
  registry_ok (World.reg (final (switchProject id now w))).
Proof.
  intros Hok.
  destruct (decide (Some id = active w)) as [Ha|Ha];
    [by rewrite switchProject_noop by by left|].
  destruct (JsMap.get id (ProjectsState.projects (World.reg w))) as [t|] eqn:Hg;
    [|by rewrite switchProject_noop by by right].
  rewrite (switchProject_final id now w t Ha Hg). simpl.
  set (r1 := when (truthy (active w)) (saveCurrentProjectState now) w).
  set (w1 := World.with_reg _ (final r1)).
  destruct (acts_as_restoreStateFromSnapshot t w1) as (Hs2 & _).
  destruct (acts_as_when (truthy (active w)) _ _
              (acts_as_saveCurrentProjectState now) w) as (Hs1 & _).
  fold r1 in Hs1.
  unfold shape in Hs1, Hs2. simpl in Hs2.
  injection Hs2 as Hk2 Ha2 Ht2. injection Hs1 as Hk1 _ Ht1.
  destruct Hok as (Hk & He & _). unfold registry_ok.
  rewrite Hk2, Ha2, Ht2, Hk1, Ht1. split; [done|]. split; [done|].
  intros a [= <-]. apply JsMapFacts.elem_of_keys. by rewrite Hg.
Qed.

Lemma registry_ok_closedRegistry id st :
  registry_ok st → registry_ok (closedRegistry id st).
Proof.
  intros Hok. pose proof Hok as (Hk & He & Ha).
  unfold registry_ok, closedRegistry. simpl. split; [|split].
  - intros k. by rewrite JsMapFacts.elem_of_keys_delete, elem_of_tabsAfterClose, Hk.
  - by intros [_ ?]%JsMapFacts.elem_of_keys_delete.
  - intros a Hnew.
    destruct (decide (Some id = ProjectsState.activeProjectId st)) as [E|E].
    + destruct (newActiveIdOf_active id st Hok E) as [H1 H2].
      destruct (decide (tabsAfterClose id st = [])) as [Hnil|Hne];
        [by rewrite (H2 Hnil) in Hnew|].
      destruct (H1 Hne) as (E1 & rep & Hrep & _ & _ & Hsome).
      rewrite E1, Hrep in Hnew. injection Hnew as <-.
      by apply JsMapFacts.elem_of_keys.
    + rewrite (newActiveIdOf_inactive id st Hok E) in Hnew.
      apply JsMapFacts.elem_of_keys_delete. split; [congruence|by apply Ha].
Qed.

Lemma forceCloseProject_registry id w :
  World.reg (final (forceCloseProject id w)) = closedRegistry id (World.reg w).
Proof. rewrite forceCloseProject_run. simpl. by case_bool_decide. Qed.

Lemma updateProjectName_shape id name w :
  shape (World.reg (final (updateProjectName id name w))) = shape (World.reg w).
Proof.
  unfold updateProjectName. rewrite bind_get.
  destruct (JsMap.get id _) eqn:Hg; [|done].
  unfold final; simpl. by apply shape_set_present.
Qed.

Lemma step_registry_ok op w :
  registry_ok (World.reg w) → registry_ok (World.reg (step op w)).
Proof.
  intros Hok. destruct op; simpl.
  - by apply createProject_registry_ok.
  - by apply switchProject_registry_ok.
  - unfold closeProject.
    destruct (JsMap.get id _) as [project|]; [|done].
    destruct (if bool_decide _ then _ else _); [done|].
    rewrite final_bind. change (final (ret true ?x)) with x.
    rewrite forceCloseProject_registry. by apply registry_ok_closedRegistry.
  - rewrite forceCloseProject_registry. by apply registry_ok_closedRegistry.
  - eapply registry_ok_shape; [|exact Hok].
    apply (acts_as_saveCurrentProjectState now w).
  - eapply registry_ok_shape; [|exact Hok]. apply updateProjectName_shape.
  - eapply registry_ok_shape; [|exact Hok]. apply (acts_as_canvas_action f w).
  - done.
  - eapply registry_ok_shape; [|exact Hok]. apply (acts_as_history_action f w).
  - done.
Qed.

Lemma run_ops_registry_ok ops w :
  registry_ok (World.reg w) → registry_ok (World.reg (run_ops ops w)).
Proof.
  revert w. induction ops as [|op ops IH]; intros w Hok; [done|].
  simpl. apply IH. by apply step_registry_ok.
Qed.

(** C6. After every sequence of session operations (and live-document
    edits) run from the empty registry, whatever the live stores hold, the
    active session id is null or is a key of the registry mapping and an
    element of the tab sequence. *)
Theorem active_session_registered (ops : list Op)
    (c : CanvasState.t) (l : LayerState.t) (h : HistoryState.t)
    (s : SelectionState.t) (p : option string) :
  active_is_registered
    (World.reg (run_ops ops (World.mk ProjectsState.initial c l h s p))).
Proof.
  pose proof (run_ops_registry_ok ops (World.mk ProjectsState.initial c l h s p)
                registry_ok_initial) as Hok.
  unfold active_is_registered.
  destruct (ProjectsState.activeProjectId _) as [a|] eqn:E; [|done].
  destruct (registry_ok_active_truthy _ a Hok E) as (_ & Ht & Hs). done.
Qed.
End Sequences.

(** ** Finding a session by path *)

Lemma map_string_map_string f g s :
  map_string f (map_string g s) = map_string (λ c, f (g c)) s.
Proof. induction s as [|c s IH]; simpl; [done|]. by rewrite IH. Qed.

Lemma fold_char_upper c : fold_char (upper_ascii c) = fold_char c.
Proof.
  destruct c as [[] [] [] [] [] [] [] []]; by vm_compute.
Qed.

Lemma fold_char_same c d : same_path_char c d → fold_char c = fold_char d.
Proof.
  intros [->|[->|[->|[[-> | ->] [-> | ->]]]]];
    by rewrite ?fold_char_upper.
Qed.

(** Every byte is among the 256 of [all_ascii]. *)
Lemma elem_of_all_ascii c : c ∈ all_ascii.
Proof.
  unfold all_ascii. apply list_elem_of_fmap. exists (nat_of_ascii c).
  split; [by rewrite ascii_nat_embedding|].
  apply elem_of_seq. pose proof (nat_ascii_bounded c). lia.
Qed.

(** Two characters are compared as the same one only when they differ by
    the case of a letter or by the kind of separator. *)
Lemma fold_char_inv c d : fold_char c = fold_char d → same_path_char c d.
Proof.
  assert (Hall : forallb (λ c, forallb (λ d,
                   bool_decide (fold_char c = fold_char d → same_path_char c d))
                   all_ascii) all_ascii = true) by (vm_compute; reflexivity).
  rewrite forallb_forall in Hall.
  specialize (Hall c (proj1 (list_elem_of_In _ _) (elem_of_all_ascii c))).
  rewrite forallb_forall in Hall.
  specialize (Hall d (proj1 (list_elem_of_In _ _) (elem_of_all_ascii d))).
  by apply bool_decide_eq_true in Hall.
Qed.

Lemma map_fold_char_same_path p q :
  map_string fold_char p = map_string fold_char q ↔ same_path p q.
Proof.
  split.
  - revert q. induction p as [|c p IH]; intros [|d q] E; simpl in E; try done.
    + constructor.
    + injection E as Ec Ep. constructor; [by apply fold_char_inv | by apply IH].
  - induction 1 as [|c d p q Hc _ IH]; simpl; [done|].
    by rewrite IH, (fold_char_same c d Hc).
Qed.

Section PathFacts.
Context {engine : Engine}.

(** On a path of ASCII characters the engine has no say. *)
Lemma normalizePath_map s :
  string_forall is_ascii s = true → normalizePath s = map_string fold_char s.
Proof.
  intros Hs. unfold normalizePath, replace_backslashes.
  by rewrite (toLowerCase_ascii s Hs), map_string_map_string.
Qed.



End PathFacts.

Example normalizePath_example :
  normalizePath (engine := asciiEngine) "C:\Users\Ann\Photo.PNG"
  = "c:/users/ann/photo.png".
Proof. reflexivity. Qed.


(** ** The layer stack *)

Module LayerStoreFacts.
Import LayerStore.

Lemma contiguous_orders s :
  contiguous s → orders s = seqZ 0 (Z.of_nat (length (LayerState.layers s))).
Proof.
  intros Hc. unfold orders. apply list_eq. intros j.
  rewrite list_lookup_fmap.
  destruct (LayerState.layers s !! j) as [l|] eqn:E; simpl.
  - rewrite (Hc j l E). symmetry. apply lookup_seqZ.
    apply lookup_lt_Some in E. lia.
  - symmetry. apply lookup_seqZ_ge. apply lookup_ge_None in E. lia.
Qed.

Lemma contiguous_clearLayers : contiguous clearLayers.
Proof. intros j l. unfold clearLayers. simpl. by rewrite lookup_nil. Qed.

Lemma contiguous_addLayer spec newId s :
  contiguous s → contiguous (addLayer spec newId s).2.
Proof.
  intros Hc j l. simpl. intros E.
  destruct (decide (j < length (LayerState.layers s))%nat) as [Hlt|Hge].
  - rewrite lookup_app_l in E by done. by apply Hc.
  - rewrite lookup_app_r in E by lia.
    destruct (j - length (LayerState.layers s))%nat as [|k] eqn:Hk; simpl in E; [|done].
    injection E as <-. simpl. lia.
Qed.

Lemma contiguous_removeLayer id s : contiguous s → contiguous (removeLayer id s).
Proof.
  intros Hc. unfold removeLayer.
  destruct (list_find _ _) as [[i removed]|] eqn:Hf; [|done].
  case_bool_decide; [done|].
  apply list_find_Some in Hf as (Hi & _ & _).
  pose proof (Hc i removed Hi) as Hord.
  intros j l. simpl. rewrite list_lookup_fmap. intros E.
  destruct (delete i (LayerState.layers s) !! j) as [l0|] eqn:E0; [|done].
  simpl in E. injection E as <-.
  destruct (decide (j < i)%nat) as [Hlt|Hge].
  - rewrite list_lookup_delete_lt in E0 by done.
    pose proof (Hc j l0 E0) as Hj. rewrite bool_decide_eq_false_2 by lia. done.
  - rewrite list_lookup_delete_ge in E0 by lia.
    pose proof (Hc (S j) l0 E0) as Hj. rewrite bool_decide_eq_true_2 by lia.
    simpl. lia.
Qed.

Lemma contiguous_reorderLayers fromIndex toIndex s s' :
  reorderLayers fromIndex toIndex s = Done s' → contiguous s'.
Proof.
  unfold reorderLayers. case_bool_decide; [|done].
  destruct (LayerState.layers s !! _) as [moved|]; [|done].
  intros [= <-] j l. simpl. rewrite list_lookup_imap.
  destruct (_ !! j); [|done]. simpl. by intros [= <-].
Qed.

Lemma contiguous_step op s : contiguous s → contiguous (step op s).
Proof.
  intros Hc. destruct op; simpl.
  - by apply contiguous_addLayer.
  - by apply contiguous_removeLayer.
  - destruct (reorderLayers fromIndex toIndex s) as [s'|] eqn:E; [|done].
    by eapply contiguous_reorderLayers.
Qed.

Lemma contiguous_run ops s : contiguous s → contiguous (run ops s).
Proof.
  revert s. induction ops as [|op ops IH]; intros s Hc; [done|].
  simpl. apply IH. by apply contiguous_step.
Qed.

(** Where the layers are after a move towards the top. *)
Lemma reorderLayers_move (i k : nat) s moved :
  (i ≤ k < length (LayerState.layers s))%nat →
  LayerState.layers s !! i = Some moved →
  ∃ s', reorderLayers (Z.of_nat i) (Z.of_nat k) s = Done s'
    ∧ length (LayerState.layers s') = length (LayerState.layers s)
    ∧ LayerState.layers s' !! k = Some (with_order (Z.of_nat k) moved)
    ∧ (∀ j, (i ≤ j < k)%nat →
         LayerState.layers s' !! j
         = with_order (Z.of_nat j) <$> LayerState.layers s !! S j)
    ∧ (∀ j, (j < i ∨ k < j)%nat →
         LayerState.layers s' !! j
         = with_order (Z.of_nat j) <$> LayerState.layers s !! j).
Proof.
  intros Hik Hi. unfold reorderLayers.
  rewrite bool_decide_eq_true_2 by lia. rewrite !Nat2Z.id, Hi.
  eexists. split; [done|]. simpl.
  set (others := delete i (LayerState.layers s)).
  assert (Hlen : length others = (length (LayerState.layers s) - 1)%nat).
  { unfold others. rewrite length_delete; [done|by eexists]. }
  assert (Htake : length (take k others) = k) by (rewrite length_take; lia).
  split; [|split; [|split]].
  - rewrite length_imap, length_app, Htake. simpl. rewrite length_drop. lia.
  - rewrite list_lookup_imap, lookup_app_r by lia.
    rewrite Htake, Nat.sub_diag. done.
  - intros j Hj. rewrite list_lookup_imap, lookup_app_l by lia.
    rewrite lookup_take_lt by lia. unfold others.
    by rewrite list_lookup_delete_ge by lia.
  - intros j Hj. rewrite list_lookup_imap.
    destruct (decide (j < i)%nat) as [Hlt|Hge].
    + rewrite lookup_app_l by lia. rewrite lookup_take_lt by lia.
      unfold others. by rewrite list_lookup_delete_lt by lia.
    + rewrite lookup_app_r by lia. rewrite Htake.
      destruct (j - k)%nat as [|d] eqn:Hd; [lia|]. simpl.
      rewrite lookup_drop. unfold others.
      rewrite list_lookup_delete_ge by lia. do 2 f_equal. lia.
Qed.

(** C9. On the three-layer stack [A,B,C] with orders 0,1,2,
    [reorderLayers(0, 2)] yields [B,C,A] with orders 0,1,2; in general a
    move towards the top puts the moved element at the target index and
    shifts the elements it crossed back by one; and after any sequence of
    [addLayer]/[removeLayer]/[reorderLayers] from the empty stack the
    order values are exactly [0, ..., count-1], without duplicates. *)
Theorem reorderLayers_and_order_invariant :
  (Layer.name <$> LayerState.layers stackABC = ["A"; "B"; "C"]
   ∧ orders stackABC = [0; 1; 2]
   ∧ ∃ s', reorderLayers 0 2 stackABC = Done s'
           ∧ Layer.name <$> LayerState.layers s' = ["B"; "C"; "A"]
           ∧ orders s' = [0; 1; 2])
  ∧ (∀ (i k : nat) s moved,
       (i ≤ k < length (LayerState.layers s))%nat →
       LayerState.layers s !! i = Some moved →
       ∃ s', reorderLayers (Z.of_nat i) (Z.of_nat k) s = Done s'
         ∧ LayerState.layers s' !! k = Some (with_order (Z.of_nat k) moved)
         ∧ ∀ j, (i ≤ j < k)%nat →
             LayerState.layers s' !! j
             = with_order (Z.of_nat j) <$> LayerState.layers s !! S j)
  ∧ (∀ ops,
       orders (run ops clearLayers)
       = seqZ 0 (Z.of_nat (length (LayerState.layers (run ops clearLayers))))
       ∧ NoDup (orders (run ops clearLayers))).
Proof.
  split; [|split].
  - split; [reflexivity|]. split; [reflexivity|].
    eexists. split; [reflexivity|]. split; reflexivity.
  - intros i k s moved Hik Hi.
    destruct (reorderLayers_move i k s moved Hik Hi) as (s' & E & _ & Hk & Hj & _).
    exists s'. done.
  - intros ops.
    pose proof (contiguous_orders _ (contiguous_run ops _ contiguous_clearLayers)) as E.
    split; [done|]. rewrite E. apply NoDup_seqZ.
Qed.

Lemma reorderLayers_and_order_invariant_witness :
  ∃ s', reorderLayers 1 2 stackABC = Done s'
        ∧ Layer.name <$> LayerState.layers s' !! 2%nat = Some "B"
        ∧ Layer.name <$> LayerState.layers s' !! 1%nat = Some "C".
Proof.
  destruct reorderLayers_and_order_invariant as (_ & Hmove & _).
  destruct (Hmove 1%nat 2%nat stackABC
              (with_order 1 (with_id "b" (shapeSpec "B"))))
    as (s' & E & Hk & Hj); [simpl; lia | reflexivity |].
  exists s'. split; [exact E|]. split.
  - rewrite Hk. reflexivity.
  - rewrite (Hj 1%nat) by lia. reflexivity.
Defined.
End LayerStoreFacts.

(** ** The layer renderer *)

Module RendererFacts.
Import Renderer RendererCases.

(** *** The version counter is written by the effect only *)

Lemma version_fold_left {A} (f : Scene.t → A → Scene.t) (l : list A) s :
  (∀ s a, Scene.processingVersion (f s a) = Scene.processingVersion s) →
  Scene.processingVersion (fold_left f l s) = Scene.processingVersion s.
Proof.
  intros Hf. revert s. induction l as [|a l IH]; intros s; simpl; [done|].
  by rewrite IH, Hf.
Qed.

Lemma version_place p layer obj s :
  Scene.processingVersion (place p layer obj s) = Scene.processingVersion s.
Proof. unfold place. by destruct (_ && _). Qed.

Lemma version_finish p s :
  Scene.processingVersion (finish p s) = Scene.processingVersion s.
Proof.
  unfold finish. simpl.
  assert (Hd : ∀ s, Scene.processingVersion (drawOutline p s)
                    = Scene.processingVersion s).
  { intros s0. unfold drawOutline.
    destruct (list_find _ _) as [[? activeLayer]|];
      [destruct (hasPolygon activeLayer); [destruct (JsMap.get _ _)|]|];
      by destruct (Scene.polygonOutline s0). }
  rewrite Hd. unfold removeUntracked, removeDeleted, enforceZIndex.
  rewrite !version_fold_left; [done| | |].
  - intros s0 [i l]. simpl.
    destruct (if bool_decide _ then _ else _); [|done]. by case_bool_decide.
  - intros s0 [k v]. simpl. by case_bool_decide.
  - intros s0 h. simpl. by destruct (_ && _).
Qed.

Lemma version_runLoop p rest s :
  Scene.processingVersion (runLoop p rest s).1 = Scene.processingVersion s.
Proof.
  revert s. induction rest as [|layer rest IH]; intros s; simpl.
  - apply version_finish.
  - case_bool_decide; simpl; [|done].
    case_bool_decide; [apply IH|].
    destruct (mustCreate layer s).
    + destruct (needsFeatherApply layer s); [|done].
      case_bool_decide; [done|]. by destruct (hasPolygon layer).
    + destruct (JsMap.get _ _); [|apply IH]. by rewrite IH, version_place.
Qed.

Lemma version_syncBaseLayer b s :
  Scene.processingVersion (syncBaseLayer b s) = Scene.processingVersion s.
Proof. unfold syncBaseLayer. destruct b; [|done]. by destruct (Scene.baseImageObject s). Qed.

Lemma version_selectBaseLayer i b s :
  Scene.processingVersion (selectBaseLayer i b s) = Scene.processingVersion s.
Proof.
  unfold selectBaseLayer. destruct b; [|done].
  destruct (Scene.baseImageObject s); [|done]. by destruct (_ && _).
Qed.

Lemma processAllLayers_version cv i s :
  Scene.processingVersion (processAllLayers cv i s).1 = Scene.processingVersion s
  ∧ Pass.currentVersion (processAllLayers cv i s).2 = cv.
Proof.
  unfold processAllLayers. destruct (Scene.baseImageObject s); [|done].
  destruct (Inputs.freshTransform i) as [t|]; [|done].
  pose proof (version_runLoop (Pass.mk cv i t Finished) (Inputs.layers i) s) as Hv.
  by destruct (runLoop _ _ s) as [s' pt].
Qed.

Lemma startPass_version i s s' p :
  startPass i s = (s', Some p) →
  Pass.currentVersion p = Scene.processingVersion s + 1
  ∧ Scene.processingVersion s' = Scene.processingVersion s + 1.
Proof.
  unfold startPass. destruct (_ || _); [done|].
  destruct (processAllLayers _ _ _) as [s2 p2] eqn:E. intros [= <- <-].
  destruct (processAllLayers_version (Scene.processingVersion s + 1) i
              (selectBaseLayer i
                 (snd <$> list_find (λ l, Layer.type l = "base") (Inputs.layers i))
                 (syncBaseLayer
                    (snd <$> list_find (λ l, Layer.type l = "base") (Inputs.layers i))
                    (Scene.with_processingVersion (Scene.processingVersion s + 1) s))))
    as [Hv Hp].
  rewrite E in Hv, Hp. simpl in Hv, Hp.
  rewrite version_selectBaseLayer, version_syncBaseLayer in Hv. done.
Qed.

Lemma version_installImage layer obj img s :
  Scene.processingVersion (installImage layer obj img s) = Scene.processingVersion s.
Proof. unfold installImage. by destruct obj. Qed.

Lemma version_resume p r s :
  Scene.processingVersion (resume p r s).1 = Scene.processingVersion s.
Proof.
  unfold resume.
  destruct (Pass.point p) as [layer obj rest|layer obj rest|layer obj data rest|];
    destruct r as [image| |width height|]; try done.
  - destruct (_ || _).
    + pose proof (version_runLoop p rest
                    (Scene.with_nextHandle (S (Scene.nextHandle s)) s)) as Hv.
      by destruct (runLoop _ _ _).
    + pose proof (version_runLoop p rest
                    (place p layer (FabricImage.mk (Scene.nextHandle s) width height)
                       (installImage layer obj
                          (FabricImage.mk (Scene.nextHandle s) width height)
                          (Scene.with_nextHandle (S (Scene.nextHandle s)) s)))) as Hv.
      rewrite version_place, version_installImage in Hv.
      by destruct (runLoop _ _ _).
  - pose proof (version_runLoop p rest s) as Hv. by destruct (runLoop _ _ _).
Qed.

Lemma startPass_version_le i s :
  Scene.processingVersion s ≤ Scene.processingVersion (startPass i s).1.
Proof.
  destruct (startPass i s) as [s' [p|]] eqn:E.
  - destruct (startPass_version i s s' p E) as [_ Hv]. simpl. lia.
  - unfold startPass in E. destruct (_ || _); [by injection E as <-|].
    by destruct (processAllLayers _ _ _).
Qed.

(** Nothing ever lowers the counter. *)
Lemma sceneRun_version_le events s :
  Scene.processingVersion s ≤ Scene.processingVersion (sceneRun events s).
Proof.
  revert s. induction events as [|e events IH]; intros s; simpl; [done|].
  etrans; [|apply IH]. destruct e; simpl.
  - apply startPass_version_le.
  - by rewrite version_resume.
  - lia.
  - done.
Qed.

(** The pass looks at the counter at the head of the loop only: with a
    stale tag it returns there, the scene untouched. *)
Lemma runLoop_stale p layer rest s :
  Scene.processingVersion s ≠ Pass.currentVersion p →
  runLoop p (layer :: rest) s = (s, Finished).
Proof. intros Hs. simpl. by rewrite bool_decide_eq_false_2. Qed.

(** The effect gives every pass the counter incremented by one as its
    tag, and nothing lowers the counter: a pass started later has a
    strictly larger tag. *)
Lemma later_pass_larger_tag i s s1 p1 events j s2 p2 :
  startPass i s = (s1, Some p1) →
  startPass j (sceneRun events s1) = (s2, Some p2) →
  Pass.currentVersion p1 < Pass.currentVersion p2.
Proof.
  intros H1 H2.
  destruct (startPass_version _ _ _ _ H1) as [Hp1 Hs1].
  destruct (startPass_version _ _ _ _ H2) as [Hp2 _].
  pose proof (sceneRun_version_le events s1). lia.
Qed.

(** Between two heads of the loop the counter is not read: the image a
    pass was waiting for when a newer pass started is still installed and
    placed, the pass stops at the next head, and when no layer is left the
    steps after the loop run as well. *)
Lemma stale_image_still_installed p layer obj imageData rest width height s :
  Pass.point p = AwaitImage layer obj imageData rest →
  Scene.processingVersion s ≠ Pass.currentVersion p →
  0 < width → 0 < height →
  let img := FabricImage.mk (Scene.nextHandle s) width height in
  let installed :=
    place p layer img
      (installImage layer obj img
         (Scene.with_nextHandle (S (Scene.nextHandle s)) s)) in
  (resume p (ImageLoaded width height) s).1
  = match rest with
    | [] => finish p installed
    | _ :: _ => installed
    end.
Proof.
  intros Hpt Hstale Hw Hh img installed.
  unfold resume. rewrite Hpt.
  rewrite !bool_decide_eq_false_2 by lia. simpl.
  fold img. fold installed.
  destruct rest as [|next rest]; [done|].
  rewrite runLoop_stale; [done|].
  unfold installed. rewrite version_place. unfold installImage.
  by destruct obj.
Qed.

(** The effect does nothing while the base image is not ready; the
    change of the ready flag runs it again, and with the canvas and the
    image transform there it then starts a pass. *)
Lemma startPass_not_ready i s :
  Inputs.baseImageReady i = false → startPass i s = (s, None).
Proof. intros Hr. unfold startPass. rewrite Hr. by rewrite orb_true_r. Qed.

Lemma ready_flag_reruns_effect old new :
  Inputs.baseImageReady old = false → Inputs.baseImageReady new = true →
  effect_reruns old new.
Proof. intros Ho Hn (_ & _ & _ & E & _). congruence. Qed.

Lemma startPass_ready i s :
  Inputs.baseImageReady i = true → Scene.canvasMounted s = true →
  is_Some (Inputs.imageTransform i) → is_Some (startPass i s).2.
Proof.
  intros Hr Hc Ht. unfold startPass. rewrite Hr, Hc.
  rewrite bool_decide_eq_true_2 by done. simpl.
  by destruct (processAllLayers _ _ _).
Qed.

Example firstPass_awaits_feathering :
  ∃ p, firstPass = (Scene.with_baseApplied (Some (true, 100))
                      (Scene.with_processingVersion 1 sceneReady), Some p)
       ∧ Pass.currentVersion p = 1
       ∧ Pass.point p = AwaitFeather featheredLayer None [].
Proof. eexists. split; [by vm_compute|]. by split. Qed.

(** C5.  The renderer at the failing input.  The first pass has the tag
    1 and waits for the image of its layer; a newer pass has started and
    the counter is 2.  The image arrives: the out-dated pass does not
    abort, it still writes to the scene graph. *)
Lemma stale_pass_still_writes :
  ¬ stale_resume_is_inert passAwaitingImage (ImageLoaded 64 64) sceneAfterNewerPass.
Proof.
  unfold stale_resume_is_inert. intros Hinert.
  assert (Hstale : Scene.processingVersion sceneAfterNewerPass
                   ≠ Pass.currentVersion passAwaitingImage) by (vm_compute; discriminate).
  specialize (Hinert Hstale). apply (f_equal Scene.objects) in Hinert.
  vm_compute in Hinert. discriminate.
Qed.

(** What it writes: the object joins the canvas and is placed with the
    opacity the out-dated pass closed over (100, the newer render has 40),
    and the steps after the loop run and request a rendering. *)
Example stale_pass_objects :
  Pass.currentVersion passAwaitingImage = 1
  ∧ Scene.processingVersion sceneAfterNewerPass = 2
  ∧ Scene.objects sceneAfterNewerPass = [0%nat]
  ∧ Scene.objects (resume passAwaitingImage (ImageLoaded 64 64) sceneAfterNewerPass).1
    = [0%nat; 1%nat]
  ∧ (Placement.opacity <$>
       (snd <$> head (Scene.placements
                        (resume passAwaitingImage (ImageLoaded 64 64)
                           sceneAfterNewerPass).1))) = Some 100
  ∧ Scene.renderRequests
      (resume passAwaitingImage (ImageLoaded 64 64) sceneAfterNewerPass).1
    = S (Scene.renderRequests sceneAfterNewerPass).
Proof. by vm_compute. Qed.

(** The same defect when the out-dated pass is the last to finish.  Pass
    A (one layer) and pass B (two layers) both wait for the image of
    [l1]; pass B gets its two images and finishes, leaving the objects 1
    and 2 for [l1] and [l2].  Then the image of pass A arrives: pass A
    installs a third object for [l1], and its steps after the loop, run
    with the layers of render A, take the object of [l2] off the canvas
    and out of the map although [l2] is a layer of the newest render. *)
Example stale_pass_removes_newer_object :
  (startPass inputsA sceneReady).2 = Some passA
  ∧ (startPass inputsB (startPass inputsA sceneReady).1).2 = Some passB
  ∧ Scene.processingVersion sceneOvertaken = 2
  ∧ Scene.objects sceneOvertaken = [0%nat; 1%nat; 2%nat]
  ∧ JsMap.keys (Scene.editLayerObjects sceneOvertaken) = ["l1"; "l2"]
  ∧ Scene.objects (resume passA (ImageLoaded 32 32) sceneOvertaken).1
    = [0%nat; 3%nat]
  ∧ JsMap.keys (Scene.editLayerObjects
                  (resume passA (ImageLoaded 32 32) sceneOvertaken).1) = ["l1"].
Proof. by vm_compute. Qed.

(** *** The derived image of a layer *)





(** After the failed feathering of the counterexample the next pass does
    not try again: it finds the object and the cache entry, and places the
    object. *)
Example failed_feathering_not_retried :
  let s2 := (resume (Pass.with_point (AwaitImage featheredLayer None "raw" []) passAtHead)
               (ImageLoaded 64 64) firstPass.1).1 in
  JsMap.get "l1" (Scene.layerFeatherCache s2) = Some 5
  ∧ mustCreate featheredLayer s2 = false.
Proof. by vm_compute. Qed.

End RendererFacts.
(** ** More on insertion-ordered maps *)

Section MoreMapFacts.
Context {V : Type}.
Implicit Types (m : list (string * V)) (k : string) (v : V).

Lemma set_set m k v v' : JsMap.set k v (JsMap.set k v' m) = JsMap.set k v m.
Proof.
  induction m as [|[k0 v0] r IH]; simpl.
  - by rewrite bool_decide_eq_true_2.
  - case_bool_decide as E; simpl.
    + by rewrite bool_decide_eq_true_2.
    + rewrite bool_decide_eq_false_2 by done. by rewrite IH.
Qed.

Lemma delete_set_absent m k v :
  JsMap.get k m = None → JsMap.delete k (JsMap.set k v m) = m.
Proof.
  unfold JsMap.delete. induction m as [|[k0 v0] r IH]; simpl.
  - intros _. rewrite filter_cons. simpl. by rewrite decide_False by naive_solver.
  - case_bool_decide as E; [done|]. intros Hg.
    rewrite filter_cons. simpl. rewrite decide_True by done. by rewrite IH.
Qed.

End MoreMapFacts.

(** ** Isolation of the sessions *)

Lemma ids_match_same st st' :
  ProjectsState.projects st' = ProjectsState.projects st →
  ids_match st → ids_match st'.
Proof. unfold ids_match. by intros ->. Qed.

Lemma ids_match_set st st' k v :
  ProjectsState.projects st' = JsMap.set k v (ProjectsState.projects st) →
  ids_match st → ProjectSnapshot.id v = k → ids_match st'.
Proof.
  intros E Hm Hv k' p. rewrite E. destruct (decide (k = k')) as [<-|Hne].
  - rewrite JsMapFacts.get_set_eq. by intros [= <-].
  - rewrite JsMapFacts.get_set_ne by done. apply Hm.
Qed.

Lemma ids_match_delete st st' k :
  ProjectsState.projects st' = JsMap.delete k (ProjectsState.projects st) →
  ids_match st → ids_match st'.
Proof.
  intros E Hm k' p. rewrite E. destruct (decide (k' = k)) as [->|Hne].
  - by rewrite JsMapFacts.get_delete_eq.
  - rewrite JsMapFacts.get_delete_ne by done. apply Hm.
Qed.

Section IsolationFacts.
Context `{LiveStores}.

Lemma active_after m l w : acts_as m l → active (final (m w)) = active w.
Proof.
  intros Ha. destruct (Ha w) as (Hs & _). unfold active, shape in *.
  by injection Hs as _ -> _.
Qed.

Lemma session_local_ret : session_local (ret tt).
Proof. intros w. by split. Qed.

Lemma session_local_bind m1 m2 l1 :
  acts_as m1 l1 → session_local m1 → session_local m2 →
  session_local (m1 ;; m2).
Proof.
  intros Ha H1 H2 w. rewrite final_bind.
  destruct (H1 w) as [F1 I1], (H2 (final (m1 w))) as [F2 I2].
  split.
  - intros k Hk. rewrite F2 by by rewrite (active_after m1 l1 w Ha).
    by apply F1.
  - intros Hm. by apply I2, I1.
Qed.

Lemma session_local_when c m : session_local m → session_local (when c m).
Proof. destruct c; [done|]. intros _. apply session_local_ret. Qed.

(** A [set] that replaces the snapshot of the active session by one that
    carries the same id. *)
Lemma session_local_set_active w (f : ProjectSnapshot.t → ProjectSnapshot.t) project :
  truthy (active w) = true →
  JsMap.get (default EmptyString (active w)) (ProjectsState.projects (World.reg w))
  = Some project →
  (ids_match (World.reg w) → ProjectSnapshot.id (f project) = default EmptyString (active w)) →
  let st := ProjectsState.with_projects
              (JsMap.set (default EmptyString (active w)) (f project)
                 (ProjectsState.projects (World.reg w))) (World.reg w) in
  (∀ k, active w ≠ Some k →
     JsMap.get k (ProjectsState.projects st)
     = JsMap.get k (ProjectsState.projects (World.reg w)))
  ∧ (ids_match (World.reg w) → ids_match st).
Proof.
  intros Ht Hg Hid st. split.
  - intros k Hk. simpl. apply JsMapFacts.get_set_ne.
    intros E. apply Hk. rewrite <- E. by apply truthy_default.
  - intros Hm. eapply ids_match_set; [done | done | by apply Hid].
Qed.

Lemma session_local_isDirtyListener d : session_local (isDirtyListener d).
Proof.
  intros w. unfold isDirtyListener. rewrite bind_get. fold (active w).
  destruct (truthy (active w)) eqn:Ht; simpl; [|by split].
  destruct (JsMap.get _ _) as [project|] eqn:Hg; [|by split].
  case_bool_decide; simpl; [by split|].
  apply (session_local_set_active w (ProjectSnapshot.with_isDirty d) project Ht Hg).
  intros Hm. simpl. by apply Hm.
Qed.

Lemma session_local_imagePathListener c : session_local (imagePathListener c).
Proof.
  intros w. unfold imagePathListener.
  case_bool_decide; simpl; [by split|].
  rewrite bind_get. simpl. fold (active w).
  destruct (truthy (active w)) eqn:Ht; simpl; [|by split].
  destruct (JsMap.get _ _) as [project|] eqn:Hg; [|by split].
  case_bool_decide; simpl; [by split|].
  apply (session_local_set_active
           (World.with_previousImagePath (CanvasState.imagePath c) w)
           (ProjectSnapshot.with_imagePath (CanvasState.imagePath c)) project Ht Hg).
  intros Hm. simpl. by apply Hm.
Qed.

Lemma session_local_canvas_action f : session_local (canvas_action f).
Proof.
  intros w. apply (session_local_imagePathListener _ (World.with_canvas _ w)).
Qed.

Lemma session_local_history_action f : session_local (history_action f).
Proof.
  intros w. unfold history_action. case_bool_decide; simpl.
  - by split.
  - apply (session_local_isDirtyListener _ (World.with_history _ w)).
Qed.

Lemma session_local_perform a : session_local (perform a).
Proof.
  destruct a; simpl;
    try apply session_local_canvas_action; try apply session_local_history_action;
    intros w; by split.
Qed.

Lemma session_local_call a : session_local (call a).
Proof. intros w. rewrite final_call. apply session_local_perform. Qed.

Lemma session_local_restoreStateFromSnapshot snapshot :
  session_local (restoreStateFromSnapshot snapshot).
Proof.
  unfold restoreStateFromSnapshot.
  destruct (ProjectSnapshot.baseImage snapshot);
    (eapply session_local_bind; [apply acts_as_call | apply session_local_call |]);
    (eapply session_local_bind; [apply acts_as_call | apply session_local_call |]);
    (eapply session_local_bind; [apply acts_as_call | apply session_local_call |]);
    case_bool_decide;
    (eapply session_local_bind; [apply acts_as_call | apply session_local_call |]);
    (eapply session_local_bind; [apply acts_as_call | apply session_local_call |]);
    apply session_local_call.
Qed.

Lemma session_local_clearAllStores : session_local clearAllStores.
Proof.
  unfold clearAllStores.
  eapply session_local_bind; [apply acts_as_call | apply session_local_call |].
  eapply session_local_bind; [apply acts_as_call | apply session_local_call |].
  eapply session_local_bind; [apply acts_as_call | apply session_local_call |].
  apply session_local_call.
Qed.

Lemma session_local_saveCurrentProjectState now :
  session_local (saveCurrentProjectState now).
Proof.
  intros w. rewrite saveCurrentProjectState_run.
  destruct (truthy (active w)) eqn:Ht; [|by split].
  destruct (JsMap.get _ _) as [p|] eqn:Hg; [|by split].
  apply (session_local_set_active w
           (λ p, captureCurrentState (default EmptyString (active w))
                   (ProjectSnapshot.name p) now w) p Ht Hg).
  done.
Qed.

(** The live stores are not touched by the saving. *)
Lemma saveCurrentProjectState_live now w :
  final (saveCurrentProjectState now w)
  = World.with_reg (World.reg (final (saveCurrentProjectState now w))) w.
Proof.
  rewrite saveCurrentProjectState_run.
  destruct (truthy (active w)); [|by destruct w].
  destruct (JsMap.get _ _); [done|by destruct w].
Qed.
End IsolationFacts.

(** ** Saving and renaming *)

Section SaveRename.
Context `{LiveStores}.

Lemma getActiveProject_cases w :
  (getActiveProject w = None ∧
   (truthy (active w) = false
    ∨ JsMap.get (default EmptyString (active w)) (ProjectsState.projects (World.reg w)) = None))
  ∨ (∃ cur, getActiveProject w = Some cur ∧ truthy (active w) = true
            ∧ JsMap.get (default EmptyString (active w))
                (ProjectsState.projects (World.reg w)) = Some cur).
Proof.
  unfold getActiveProject. fold (active w).
  destruct (truthy (active w)); simpl; [|left; split; [done|by left]].
  destruct (JsMap.get _ _) as [cur|] eqn:Hg.
  - right. by exists cur.
  - left. split; [done|by right].
Qed.

Lemma saveCurrentProjectState_none now w :
  getActiveProject w = None → saveCurrentProjectState now w = (tt, w, []).
Proof.
  intros Hn. rewrite saveCurrentProjectState_run.
  destruct (getActiveProject_cases w) as [[_ Hc]|(cur & Hs & _)]; [|congruence].
  destruct Hc as [-> | Hg]; [done|]. rewrite Hg. by destruct (truthy _).
Qed.

Lemma saveCurrentProjectState_some now w cur :
  getActiveProject w = Some cur →
  let st := ProjectsState.with_projects
              (JsMap.set (default EmptyString (active w))
                 (captureCurrentState (default EmptyString (active w))
                    (ProjectSnapshot.name cur) now w)
                 (ProjectsState.projects (World.reg w))) (World.reg w) in
  truthy (active w) = true
  ∧ saveCurrentProjectState now w = (tt, World.with_reg st w, [ProjectsSet st]).
Proof.
  intros Hc. rewrite saveCurrentProjectState_run.
  destruct (getActiveProject_cases w) as [[Hn _]|(cur' & Hs & Ht & Hg)]; [congruence|].
  rewrite Hs in Hc. injection Hc as ->. by rewrite Ht, Hg.
Qed.

(** X1. [saveCurrentProjectState()] writes no live store and keeps the
    keys, the tabs and the active id of the registry; it leaves the
    snapshot of every session other than the active one as it is; without
    an active session that is registered it does nothing at all;
    otherwise [getActiveProject()] then answers the live state captured
    under the active id and the name the session had; and saving a second
    time at the same clock reading changes nothing more. *)
Theorem saveCurrentProjectState_effect (now : Z) (w : World.t) :
  let w' := final (saveCurrentProjectState now w) in
  live w' = live w
  ∧ shape (World.reg w') = shape (World.reg w)
  ∧ (∀ k, active w ≠ Some k → getProjectById k w' = getProjectById k w)
  ∧ (getActiveProject w = None → saveCurrentProjectState now w = (tt, w, []))
  ∧ (∀ cur, getActiveProject w = Some cur →
       getActiveProject w'
       = Some (captureCurrentState (default EmptyString (active w))
                 (ProjectSnapshot.name cur) now w))
  ∧ final (saveCurrentProjectState now w') = w'.
Proof.
  intros w'.
  split; [unfold w'; by rewrite saveCurrentProjectState_live|].
  split; [apply (acts_as_saveCurrentProjectState now w)|].
  split; [apply (session_local_saveCurrentProjectState now w)|].
  split; [apply saveCurrentProjectState_none|].
  assert (Hsome : ∀ cur, getActiveProject w = Some cur →
            getActiveProject w'
            = Some (captureCurrentState (default EmptyString (active w))
                      (ProjectSnapshot.name cur) now w)).
  { intros cur Hc. destruct (saveCurrentProjectState_some now w cur Hc) as [Ht E].
    unfold w'. rewrite E. change (final (?u, ?x, ?t)) with x.
    unfold getActiveProject. simpl. fold (active w). rewrite Ht. simpl.
    apply JsMapFacts.get_set_eq. }
  split; [exact Hsome|].
  destruct (getActiveProject w) as [cur|] eqn:Hc.
  - specialize (Hsome cur eq_refl).
    destruct (saveCurrentProjectState_some now w' _ Hsome) as [_ E2].
    rewrite E2. change (final (?u, ?x, ?t)) with x.
    destruct (saveCurrentProjectState_some now w cur Hc) as [_ E1].
    unfold w' in *. rewrite E1 in *. change (final (?u, ?x, ?t)) with x in *.
    unfold World.with_reg, ProjectsState.with_projects, active, captureCurrentState.
    simpl. by rewrite set_set.
  - unfold w'. rewrite (saveCurrentProjectState_none now w Hc).
    change (final (?u, ?x, ?t)) with x.
    by rewrite (saveCurrentProjectState_none now w Hc).
Qed.

Lemma updateProjectName_run id name w :
  updateProjectName id name w =
    match JsMap.get id (ProjectsState.projects (World.reg w)) with
    | None => (tt, w, [])
    | Some project =>
        let st := ProjectsState.with_projects
                    (JsMap.set id (ProjectSnapshot.with_name name project)
                       (ProjectsState.projects (World.reg w))) (World.reg w) in
        (tt, World.with_reg st w, [ProjectsSet st])
    end.
Proof.
  unfold updateProjectName. rewrite bind_get. by destruct (JsMap.get _ _).
Qed.

(** X2. [updateProjectName(id, name)] writes no live store, keeps the
    keys, the tabs and the active id, and leaves every other session's
    snapshot as it is.  For an [id] that is not registered it does
    nothing, with no [set] of the store.  For a registered one the
    snapshot keeps all its fields but the name, and the new name survives
    the next [saveCurrentProjectState()], which takes the name from the
    stored snapshot. *)
Theorem updateProjectName_effect (id name : string) (now : Z) (w : World.t) :
  let r := updateProjectName id name w in
  let w' := final r in
  live w' = live w
  ∧ shape (World.reg w') = shape (World.reg w)
  ∧ (∀ k, k ≠ id → getProjectById k w' = getProjectById k w)
  ∧ (getProjectById id w = None → r = (tt, w, []))
  ∧ (∀ project, getProjectById id w = Some project →
       getProjectById id w' = Some (ProjectSnapshot.with_name name project)
       ∧ trace r = [ProjectsSet (World.reg w')]
       ∧ ∃ saved,
           getProjectById id (final (saveCurrentProjectState now w')) = Some saved
           ∧ ProjectSnapshot.name saved = name).
Proof.
  intros r w'.
  split. { unfold w', r. rewrite updateProjectName_run. by destruct (JsMap.get _ _). }
  split; [apply updateProjectName_shape|].
  unfold w', r, getProjectById. rewrite updateProjectName_run.
  destruct (JsMap.get id (ProjectsState.projects (World.reg w))) as [project|] eqn:Hg.
  - cbv zeta. change (final (?u, ?x, ?t)) with x. change (trace (?u, ?x, ?t)) with t.
    remember (World.with_reg
                (ProjectsState.with_projects
                   (JsMap.set id (ProjectSnapshot.with_name name project)
                      (ProjectsState.projects (World.reg w))) (World.reg w)) w)
      as w1 eqn:Hw1.
    assert (Hid : JsMap.get id (ProjectsState.projects (World.reg w1))
                  = Some (ProjectSnapshot.with_name name project)).
    { rewrite Hw1. simpl. apply JsMapFacts.get_set_eq. }
    split. { intros k Hk. rewrite Hw1. simpl. by apply JsMapFacts.get_set_ne. }
    split; [done|]. intros ? [= <-]. split; [done|].
    split; [by rewrite Hw1|].
    destruct (decide (active w1 = Some id)) as [Ha|Ha].
    + destruct (getActiveProject w1) as [cur|] eqn:Hc.
      * destruct (saveCurrentProjectState_some now w1 cur Hc) as [Ht E].
        rewrite E. change (final (?u, ?x, ?t)) with x. simpl.
        rewrite Ha. simpl. rewrite JsMapFacts.get_set_eq.
        eexists. split; [done|]. simpl.
        unfold getActiveProject in Hc. fold (active w1) in Hc.
        rewrite Ht, Ha in Hc. simpl in Hc. rewrite Hid in Hc. by injection Hc as <-.
      * rewrite (saveCurrentProjectState_none now w1 Hc).
        change (final (?u, ?x, ?t)) with x.
        eexists. split; [exact Hid|done].
    + destruct (session_local_saveCurrentProjectState now w1) as [Hf _].
      rewrite (Hf id Ha). eexists. split; [exact Hid|done].
  - change (final (?u, ?x, ?t)) with x. by repeat split.
Qed.
End SaveRename.

(** ** Closing and unsaved changes *)

Section CloseUnsaved.
Context `{LiveStores}.

Lemma closeProject_run id w :
  closeProject id w =
    match JsMap.get id (ProjectsState.projects (World.reg w)) with
    | None => (true, w, [])
    | Some project =>
        if isProjectDirty id project w then (false, w, [])
        else (true, final (forceCloseProject id w), trace (forceCloseProject id w))
    end.
Proof.
  unfold closeProject, isProjectDirty, active.
  destruct (JsMap.get _ _) as [project|]; [|done].
  destruct (if bool_decide _ then _ else _); [done|].
  unfold bind, ret, final, trace.
  destruct (forceCloseProject id w) as [[[] w'] t']. simpl.
  by rewrite app_nil_r.
Qed.

Lemma hasUnsavedChanges_unregistered id w :
  registry_ok (World.reg w) →
  JsMap.get id (ProjectsState.projects (World.reg w)) = None →
  hasUnsavedChanges id w = false
  ∧ (id ∉ ProjectsState.tabOrder (World.reg w)).
Proof.
  intros Hok Hg. split.
  - unfold hasUnsavedChanges. rewrite Hg. case_bool_decide as Ha; [|done].
    destruct (registry_ok_active_truthy _ id Hok (eq_sym Ha)) as (_ & _ & Hs).
    rewrite Hg in Hs. by destruct Hs.
  - destruct Hok as (Hk & _). intros Hin. apply Hk, JsMapFacts.elem_of_keys in Hin.
    rewrite Hg in Hin. by destruct Hin.
Qed.

(** X3. In a registry whose tabs are its keys, [closeProject(id)]
    answers the negation of [hasUnsavedChanges(id)]: a session with
    unsaved changes is refused and nothing changes, not even a [set] of
    the store; in every other case the answer is [true] and afterwards
    [id] is neither a key of the registry nor a tab. *)
Theorem closeProject_refuses_unsaved (id : string) (w : World.t) :
  registry_ok (World.reg w) →
  let r := closeProject id w in
  result r = negb (hasUnsavedChanges id w)
  ∧ (hasUnsavedChanges id w = true → r = (false, w, []))
  ∧ (hasUnsavedChanges id w = false →
       getProjectById id (final r) = None
       ∧ id ∉ ProjectsState.tabOrder (World.reg (final r))).
Proof.
  intros Hok r. unfold r, getProjectById. rewrite closeProject_run.
  destruct (JsMap.get id (ProjectsState.projects (World.reg w))) as [project|] eqn:Hg.
  - rewrite (isProjectDirty_hasUnsavedChanges id project w Hg).
    destruct (hasUnsavedChanges id w); [by repeat split|].
    split; [done|]. split; [done|]. intros _.
    change (final (?u, ?x, ?t)) with x.
    rewrite forceCloseProject_registry. simpl.
    split; [apply JsMapFacts.get_delete_eq|].
    by intros [Hc _]%elem_of_tabsAfterClose.
  - destruct (hasUnsavedChanges_unregistered id w Hok Hg) as [-> Hnot].
    by repeat split.
Qed.
End CloseUnsaved.

Lemma closeProject_refuses_unsaved_witness :
  registry_ok (World.reg twoTabsEdited)
  ∧ closeProject (H := plainStores) "project-2-b" twoTabsEdited = (false, twoTabsEdited, [])
  ∧ getProjectById "project-1-a"
      (final (closeProject (H := plainStores) "project-1-a" twoTabsEdited)) = None.
Proof.
  assert (Hok : registry_ok (World.reg twoTabsEdited)).
  { apply registry_okb_sound. vm_compute. reflexivity. }
  split; [exact Hok|].
  destruct (closeProject_refuses_unsaved (H := plainStores) "project-2-b"
              twoTabsEdited Hok) as (_ & Hdirty & _).
  destruct (closeProject_refuses_unsaved (H := plainStores) "project-1-a"
              twoTabsEdited Hok) as (_ & _ & Hclean).
  split; [apply Hdirty; reflexivity|].
  apply Hclean. reflexivity.
Defined.

(** ** Snapshots carry their key *)

Section IdsFacts.
Context `{LiveStores}.

Lemma ids_match_initial : ids_match ProjectsState.initial.
Proof. by intros k p. Qed.

Lemma flush_ids_match now w :
  ids_match (World.reg w) →
  ids_match (World.reg (final (when (truthy (active w)) (saveCurrentProjectState now) w))).
Proof.
  apply (session_local_when _ _ (session_local_saveCurrentProjectState now) w).
Qed.

Lemma step_ids_match op w :
  ids_match (World.reg w) → ids_match (World.reg (step op w)).
Proof.
  intros Hm. destruct op; simpl.
  - rewrite createProject_registry. simpl.
    eapply ids_match_set; [done| |done].
    apply (session_local_when _ _ session_local_clearAllStores).
    eapply ids_match_same; [|by apply (flush_ids_match now w)]. done.
  - destruct (decide (Some id = active w)) as [Ha|Ha];
      [by rewrite switchProject_noop by by left|].
    destruct (JsMap.get id (ProjectsState.projects (World.reg w))) as [t|] eqn:Hg;
      [|by rewrite switchProject_noop by by right].
    rewrite (switchProject_final id now w t Ha Hg). simpl.
    apply (session_local_restoreStateFromSnapshot t).
    eapply ids_match_same; [|by apply (flush_ids_match now w)]. done.
  - rewrite closeProject_run.
    destruct (JsMap.get id _) as [project|]; [|done].
    destruct (isProjectDirty id project w); [done|].
    change (final (?u, ?x, ?t)) with x.
    rewrite forceCloseProject_registry. by eapply ids_match_delete.
  - rewrite forceCloseProject_registry. by eapply ids_match_delete.
  - by apply (session_local_saveCurrentProjectState now w).
  - rewrite updateProjectName_run.
    destruct (JsMap.get id _) as [project|] eqn:Hg; [|done].
    eapply ids_match_set; [done|done|]. simpl. by apply Hm.
  - by apply (session_local_canvas_action f w).
  - done.
  - by apply (session_local_history_action f w).
  - done.
Qed.

Lemma run_ops_ids_match ops w :
  ids_match (World.reg w) → ids_match (World.reg (run_ops ops w)).
Proof.
  revert w. induction ops as [|op ops IH]; intros w Hm; [done|].
  simpl. apply IH. by apply step_ids_match.
Qed.

(** X4. After every sequence of session operations and live-document
    edits run from the empty registry, whatever the live stores hold:
    [getProjectById(id)] answers null or a snapshot whose [id] field is
    [id]; [getActiveProject()] answers null exactly when no session is
    active, and otherwise the snapshot whose [id] field is the active
    id. *)
Theorem snapshots_carry_their_key (ops : list Op)
    (c : CanvasState.t) (l : LayerState.t) (h : HistoryState.t)
    (s : SelectionState.t) (p : option string) :
  let w := run_ops ops (World.mk ProjectsState.initial c l h s p) in
  (∀ id snapshot, getProjectById id w = Some snapshot → ProjectSnapshot.id snapshot = id)
  ∧ (getActiveProject w = None ↔ active w = None)
  ∧ (∀ snapshot, getActiveProject w = Some snapshot →
       active w = Some (ProjectSnapshot.id snapshot)).
Proof.
  intros w.
  pose proof (run_ops_ids_match ops (World.mk ProjectsState.initial c l h s p)
                ids_match_initial) as Hm.
  pose proof (run_ops_registry_ok ops (World.mk ProjectsState.initial c l h s p)
                registry_ok_initial) as Hok.
  fold w in Hm, Hok.
  split; [exact Hm|].
  unfold getActiveProject. fold (active w).
  destruct (active w) as [a|] eqn:Ha; [|done].
  destruct (registry_ok_active_truthy _ a Hok Ha) as (Ht & _ & [snap Hs]).
  rewrite Ht. simpl. rewrite Hs. split; [done|].
  intros ? [= <-]. by rewrite (Hm a snap Hs).
Qed.
End IdsFacts.

(** ** The subscriptions *)

Section Subscriptions.
Context `{LiveStores}.

Lemma with_isDirty_same project :
  ProjectSnapshot.with_isDirty (ProjectSnapshot.isDirty project) project = project.
Proof. by destruct project. Qed.

Lemma with_imagePath_same project :
  ProjectSnapshot.with_imagePath (ProjectSnapshot.imagePath project) project = project.
Proof. by destruct project. Qed.

Lemma isDirtyListener_run d w :
  isDirtyListener d w =
    match getActiveProject w with
    | Some project =>
        if bool_decide (ProjectSnapshot.isDirty project = d) then (tt, w, [])
        else
          let st := ProjectsState.with_projects
                      (JsMap.set (default EmptyString (active w))
                         (ProjectSnapshot.with_isDirty d project)
                         (ProjectsState.projects (World.reg w))) (World.reg w) in
          (tt, World.with_reg st w, [ProjectsSet st])
    | None => (tt, w, [])
    end.
Proof.
  unfold isDirtyListener, getActiveProject. rewrite bind_get. fold (active w).
  destruct (truthy (active w)); simpl; [|done].
  destruct (JsMap.get _ _) as [project|]; [|done].
  by case_bool_decide.
Qed.

Lemma imagePathListener_run c w :
  imagePathListener c w =
    if bool_decide (CanvasState.imagePath c = World.previousImagePath w) then (tt, w, [])
    else
      let w0 := World.with_previousImagePath (CanvasState.imagePath c) w in
      match getActiveProject w with
      | Some project =>
          if bool_decide (ProjectSnapshot.imagePath project = CanvasState.imagePath c)
          then (tt, w0, [])
          else
            let st := ProjectsState.with_projects
                        (JsMap.set (default EmptyString (active w))
                           (ProjectSnapshot.with_imagePath (CanvasState.imagePath c) project)
                           (ProjectsState.projects (World.reg w))) (World.reg w) in
            (tt, World.with_reg st w0, [ProjectsSet st])
      | None => (tt, w0, [])
      end.
Proof.
  unfold imagePathListener, getActiveProject.
  case_bool_decide; simpl; [done|].
  rewrite bind_get. simpl. fold (active w).
  destruct (truthy (active w)); simpl; [|done].
  destruct (JsMap.get _ _) as [project|]; [|done].
  by case_bool_decide.
Qed.

Lemma getActiveProject_set w project v :
  getActiveProject w = Some project →
  getActiveProject
    (World.with_reg
       (ProjectsState.with_projects
          (JsMap.set (default EmptyString (active w)) v
             (ProjectsState.projects (World.reg w))) (World.reg w)) w)
  = Some v.
Proof.
  intros Hc.
  destruct (getActiveProject_cases w) as [[Hn _]|(cur & _ & Ht & _)]; [congruence|].
  unfold getActiveProject. simpl. fold (active w). rewrite Ht. simpl.
  apply JsMapFacts.get_set_eq.
Qed.

(** X5. The subscription on the History Engine's [isDirty].  An action of
    the history store changes that store only; in the projects store it
    keeps the keys, the tabs and the active id, and the snapshot of every
    session other than the active one.  The projects store is not written
    at all when [isDirty] did not change or when no registered session is
    active; when [isDirty] changed, the snapshot [getActiveProject()]
    answers afterwards is the former one with the new [isDirty]. *)
Theorem isDirty_subscription (f : HistoryState.t → HistoryState.t) (w : World.t) :
  let w' := final (history_action f w) in
  let isDirty := HistoryState.isDirty (f (World.history w)) in
  live w' = (World.canvas w, World.layerStore w, f (World.history w), World.selection w)
  ∧ shape (World.reg w') = shape (World.reg w)
  ∧ (∀ k, active w ≠ Some k → getProjectById k w' = getProjectById k w)
  ∧ (getActiveProject w = None → World.reg w' = World.reg w)
  ∧ (isDirty = HistoryState.isDirty (World.history w) → World.reg w' = World.reg w)
  ∧ (∀ project, getActiveProject w = Some project →
       isDirty ≠ HistoryState.isDirty (World.history w) →
       getActiveProject w' = Some (ProjectSnapshot.with_isDirty isDirty project)).
Proof.
  intros w' d.
  split; [|split; [apply (acts_as_history_action f w)|
           split; [apply (session_local_history_action f w)|]]];
    unfold w', history_action; fold d; case_bool_decide as Hd; simpl;
    try (change (final (ret tt ?x)) with x);
    rewrite ?isDirtyListener_run;
    change (getActiveProject (World.with_history ?h w)) with (getActiveProject w).
  - done.
  - destruct (getActiveProject w) as [project|]; [|done]. by case_bool_decide.
  - by repeat split.
  - split; [by intros ->|]. split; [done|].
    intros project Hp _. rewrite Hp. case_bool_decide as Hsame.
    + change (final (?u, ?x, ?t)) with x.
      change (getActiveProject (World.with_history ?h w)) with (getActiveProject w).
      by rewrite Hp, <- Hsame, with_isDirty_same.
    + change (final (?u, ?x, ?t)) with x.
      apply (getActiveProject_set (World.with_history (f (World.history w)) w)
               project _ Hp).
Qed.

(** X6. The subscription on the canvas store, with its module variable
    [previousImagePath].  An action of the canvas store changes that
    store only, and afterwards [previousImagePath] is the live image
    path.  In the projects store it keeps the keys, the tabs and the
    active id, and the snapshot of every session other than the active
    one; nothing is written when the image path is the one seen last or
    when no registered session is active; otherwise the snapshot
    [getActiveProject()] answers afterwards is the former one with the new
    image path. *)
Theorem imagePath_subscription (f : CanvasState.t → CanvasState.t) (w : World.t) :
  let w' := final (canvas_action f w) in
  let imagePath := CanvasState.imagePath (f (World.canvas w)) in
  live w' = (f (World.canvas w), World.layerStore w, World.history w, World.selection w)
  ∧ World.previousImagePath w' = imagePath
  ∧ shape (World.reg w') = shape (World.reg w)
  ∧ (∀ k, active w ≠ Some k → getProjectById k w' = getProjectById k w)
  ∧ (getActiveProject w = None → World.reg w' = World.reg w)
  ∧ (imagePath = World.previousImagePath w → World.reg w' = World.reg w)
  ∧ (∀ project, getActiveProject w = Some project →
       imagePath ≠ World.previousImagePath w →
       getActiveProject w' = Some (ProjectSnapshot.with_imagePath imagePath project)).
Proof.
  intros w' ip.
  assert (Hrun := imagePathListener_run (f (World.canvas w))
                    (World.with_canvas (f (World.canvas w)) w)).
  change (getActiveProject (World.with_canvas ?c w)) with (getActiveProject w) in Hrun.
  change (World.previousImagePath (World.with_canvas ?c w))
    with (World.previousImagePath w) in Hrun.
  fold ip in Hrun.
  split; [|split; [|split; [apply (acts_as_canvas_action f w)|
           split; [apply (session_local_canvas_action f w)|]]]];
    unfold w', canvas_action; cbv zeta; rewrite Hrun; clear Hrun; cbv zeta;
    case_bool_decide as Hp;
    try (destruct (getActiveProject w) as [project|] eqn:Hg;
         [case_bool_decide as Hsame|]);
    change (final (?u, ?x, ?t)) with x; try done.
  - split; [done|]. split; [done|]. intros ? [= <-] _.
    change (getActiveProject (World.with_previousImagePath ?p (World.with_canvas ?c w)))
      with (getActiveProject w).
    by rewrite Hg, <- Hsame, with_imagePath_same.
  - split; [done|]. split; [done|]. intros ? [= <-] _.
    apply (getActiveProject_set
             (World.with_previousImagePath ip (World.with_canvas (f (World.canvas w)) w))
             project _ Hg).
Qed.
End Subscriptions.

(** ** Switching away and back *)

Section RoundTrip.
Context `{LiveStores}.

Lemma flush_session_local now w :
  (∀ k, active w ≠ Some k →
     JsMap.get k (ProjectsState.projects
                    (World.reg (final (when (truthy (active w))
                                         (saveCurrentProjectState now) w))))
     = JsMap.get k (ProjectsState.projects (World.reg w))).
Proof.
  apply (session_local_when _ _ (session_local_saveCurrentProjectState now) w).
Qed.

(** A switch towards a registered session that is not the active one. *)
Lemma switchProject_switches id now w target :
  Some id ≠ active w →
  JsMap.get id (ProjectsState.projects (World.reg w)) = Some target →
  let r := switchProject id now w in
  shape (World.reg (final r))
  = (JsMap.keys (ProjectsState.projects (World.reg w)), Some id,
     ProjectsState.tabOrder (World.reg w))
  ∧ calls_of (trace r) = map (λ a, (a, Some id)) (restoreActions target)
  ∧ (∀ k, active w ≠ Some k → k ≠ id →
       getProjectById k (final r) = getProjectById k w)
  ∧ (∀ a current, active w = Some a → a ≠ EmptyString →
       JsMap.get a (ProjectsState.projects (World.reg w)) = Some current →
       getProjectById a (final r)
       = Some (captureCurrentState a (ProjectSnapshot.name current) now w)).
Proof.
  intros Hne Hg r. unfold r, getProjectById.
  rewrite (switchProject_run id now w target Hne Hg). cbv zeta.
  change (final (?u, ?x, ?t)) with x. change (trace (?u, ?x, ?t)) with t.
  remember (when (truthy (active w)) (saveCurrentProjectState now) w) as r1 eqn:Hr1.
  remember (World.with_reg (ProjectsState.with_active (Some id) (World.reg (final r1)))
              (final r1)) as w1 eqn:Hw1.
  destruct (flush_sets now w) as (Hc1 & _ & Hs1). cbv zeta in Hc1, Hs1.
  rewrite <- Hr1 in Hc1, Hs1.
  destruct (acts_as_restoreStateFromSnapshot target w1) as (Hs2 & Hc2 & _).
  destruct (session_local_restoreStateFromSnapshot target w1) as [Hf2 _].
  assert (Ha1 : active w1 = Some id) by by rewrite Hw1.
  assert (Hp1 : ProjectsState.projects (World.reg w1)
                = ProjectsState.projects (World.reg (final r1))) by by rewrite Hw1.
  rewrite Ha1 in Hc2.
  split.
  { rewrite Hs2. unfold shape in *. rewrite Hw1. simpl.
    injection Hs1 as -> _ ->. done. }
  split. { by rewrite !calls_of_app, Hc1, Hc2. }
  split.
  { intros k Hk Hki. rewrite Hf2 by (rewrite Ha1; congruence).
    rewrite Hp1, Hr1. by apply flush_session_local. }
  intros a current Ha Hae Hga.
  rewrite Hf2 by (rewrite Ha1; congruence). rewrite Hp1, Hr1.
  by apply (flush_saves_live_state now w a current).
Qed.

(** X7. Switching away from a session and back.  With session [a] active
    and [b] another registered session, [switchProject(b)] stores under
    [a] the live state captured at that moment and makes [b] active; a
    later [switchProject(a)] restores that captured state (the calls on
    the live stores are those of restoring it, all running with [a] as
    the active id) and makes [a] active again.  In between the live
    stores hold what the stores' restore actions make of them with the
    snapshot of [b], and at the end what they make of those with the
    captured state; when the history store's [restoreState] replaces its
    three fields, as the specification has it, the History Engine is at
    the end exactly as it was at the start, undo and redo stacks and
    dirty flag.  The keys and the tabs are as at the start, and no
    snapshot other than those of [a] and [b] has changed. *)
Theorem switchProject_round_trip (a b : string) (now1 now2 : Z) (w : World.t)
    (current target : ProjectSnapshot.t) :
  active w = Some a → a ≠ EmptyString → a ≠ b →
  JsMap.get a (ProjectsState.projects (World.reg w)) = Some current →
  JsMap.get b (ProjectsState.projects (World.reg w)) = Some target →
  let left := captureCurrentState a (ProjectSnapshot.name current) now1 w in
  let w1 := final (switchProject b now1 w) in
  let r2 := switchProject a now2 w1 in
  active w1 = Some b
  ∧ getProjectById a w1 = Some left
  ∧ calls_of (trace r2) = map (λ x, (x, Some a)) (restoreActions left)
  ∧ shape (World.reg (final r2)) = shape (World.reg w)
  ∧ (∀ k, k ≠ a → k ≠ b → getProjectById k (final r2) = getProjectById k w)
  ∧ live w1 = restored target w
  ∧ live (final r2) = restored left w1
  ∧ ((∀ past future isDirty h,
        restoreState past future isDirty h = HistoryState.mk past future isDirty) →
     World.history (final r2) = World.history w).
Proof.
  intros Ha Hae Hab Hga Hgb left w1 r2.
  assert (Hne1 : Some b ≠ active w) by (rewrite Ha; congruence).
  destruct (switchProject_switches b now1 w target Hne1 Hgb)
    as (Hs1 & _ & Hf1 & Hleft).
  fold w1 in Hs1, Hf1, Hleft.
  assert (Ha1 : active w1 = Some b).
  { unfold active. unfold shape in Hs1. by injection Hs1 as _ -> _. }
  specialize (Hleft a current Ha Hae Hga). fold left in Hleft.
  assert (Hne2 : Some a ≠ active w1) by (rewrite Ha1; congruence).
  destruct (switchProject_switches a now2 w1 left Hne2 Hleft)
    as (Hs2 & Hc2 & Hf2 & _).
  fold r2 in Hs2, Hc2, Hf2.
  split; [done|]. split; [done|]. split; [done|].
  split.
  { rewrite Hs2. unfold shape in *. injection Hs1 as -> _ ->.
    by rewrite <- Ha. }
  split.
  { intros k Hka Hkb.
    rewrite Hf2 by (rewrite ?Ha1; congruence).
    apply Hf1; [rewrite Ha; congruence | done]. }
  assert (Hl1 : live w1 = restored target w).
  { unfold w1. rewrite (switchProject_run b now1 w target Hne1 Hgb). cbv zeta.
    change (final (?u, ?x, ?t)) with x. rewrite live_restoreStateFromSnapshot.
    apply restored_live. apply (live_flush now1 w). }
  assert (Hl2 : live (final r2) = restored left w1).
  { unfold r2. rewrite (switchProject_run a now2 w1 left Hne2 Hleft). cbv zeta.
    change (final (?u, ?x, ?t)) with x. rewrite live_restoreStateFromSnapshot.
    apply restored_live. apply (live_flush now2 w1). }
  split; [done|]. split; [done|].
  intros Hlaw. apply (f_equal (λ l, l.1.2)) in Hl2. simpl in Hl2.
  rewrite Hl2, Hlaw. by destruct (World.history w).
Qed.
End RoundTrip.

Lemma switchProject_round_trip_witness :
  active twoTabsEdited = Some "project-2-b"
  ∧ getProjectById "project-2-b"
      (final (switchProject (H := plainStores) "project-1-a" 3 twoTabsEdited))
    = Some (captureCurrentState "project-2-b" "B" 3 twoTabsEdited)
  ∧ World.history
      (final (switchProject (H := plainStores) "project-2-b" 4
                (final (switchProject (H := plainStores) "project-1-a" 3
                          twoTabsEdited))))
    = World.history twoTabsEdited.
Proof.
  split; [reflexivity|].
  destruct (switchProject_round_trip (H := plainStores) "project-2-b" "project-1-a"
              3 4 twoTabsEdited (createEmptySnapshot "project-2-b" "B" 2) snapshotA)
    as (_ & Hleft & _ & _ & _ & _ & _ & Hhistory);
    [reflexivity | discriminate | discriminate | reflexivity | reflexivity |].
  split; [exact Hleft|]. apply Hhistory. reflexivity.
Defined.

(** ** A session created and closed again *)

Lemma filter_ne_id (x : string) (l : list string) :
  x ∉ l → filter (λ y, y ≠ x) l = l.
Proof.
  induction l as [|y l IH]; [done|]. intros Hx.
  apply not_elem_of_cons in Hx as [Hxy Hx].
  rewrite filter_cons, decide_True by done. by rewrite IH.
Qed.

Lemma filter_ne_snoc (x : string) (l : list string) :
  x ∉ l → filter (λ y, y ≠ x) (l ++ [x]) = l.
Proof.
  intros Hx. rewrite filter_app, filter_ne_id by done.
  rewrite filter_cons, decide_False by (by intros ?). by rewrite filter_nil, app_nil_r.
Qed.

Lemma indexOf_snoc x l : x ∉ l → indexOf x (l ++ [x]) = Z.of_nat (length l).
Proof.
  intros Hx. unfold indexOf.
  assert (Hn : list_find (λ y, y = x) l = None).
  { apply list_find_None, Forall_forall. intros y Hy ->. done. }
  rewrite (list_find_app_r _ _ _ Hn). simpl.
  rewrite decide_True by done. simpl. lia.
Qed.

Lemma at_index_last {A} (l : list A) : at_index l (Z.of_nat (length l) - 1) = last l.
Proof.
  unfold at_index. rewrite last_lookup. destruct l as [|x l]; [done|].
  rewrite bool_decide_eq_false_2 by (simpl; lia). f_equal. simpl. lia.
Qed.

Section Abandoned.
Context `{LiveStores}.

(** X8. A session that is created and force-closed again, as the ways to
    open a file do when the load fails in the tab they created
    (useFileOperations.ts 94-113).  In a registry whose tabs are its keys
    and for a fresh id, the tab sequence and the keys of the registry are
    back to what they were, every session but the one that was active
    keeps its snapshot (that one's was refreshed by the flush), and the
    session that becomes active is the one of the last tab, whichever
    was active before; with no tab left there is no active session. *)
Theorem abandoned_project_is_removed (name : option string) (fromDrop : bool)
    (now : Z) (rnd : string) (w : World.t) :
  registry_ok (World.reg w) →
  generateProjectId now rnd ∉ ProjectsState.tabOrder (World.reg w) →
  let id := generateProjectId now rnd in
  let w1 := final (createProject name fromDrop now rnd w) in
  let w2 := final (forceCloseProject id w1) in
  active w1 = Some id
  ∧ ProjectsState.tabOrder (World.reg w2) = ProjectsState.tabOrder (World.reg w)
  ∧ JsMap.keys (ProjectsState.projects (World.reg w2))
    = JsMap.keys (ProjectsState.projects (World.reg w))
  ∧ (∀ k, active w ≠ Some k → getProjectById k w2 = getProjectById k w)
  ∧ active w2 = last (ProjectsState.tabOrder (World.reg w)).
Proof.
  intros Hok Hfresh id w1 w2.
  pose proof (createProject_registry name fromDrop now rnd w) as Hreg.
  cbv zeta in Hreg. fold id w1 in Hreg.
  remember (when (truthy (active w)) (saveCurrentProjectState now) w) as r1 eqn:Hr1.
  remember (World.with_reg (ProjectsState.with_active None (World.reg (final r1)))
              (final r1)) as w0 eqn:Hw0.
  destruct (acts_as_when (negb fromDrop) _ _ acts_as_clearAllStores w0)
    as (_ & _ & _ & Hq).
  destruct Hq as [Hreg2 _]; [by rewrite Hw0|]. rewrite Hreg2 in Hreg. clear Hreg2.
  assert (Hp0 : ProjectsState.projects (World.reg w0)
                = ProjectsState.projects (World.reg (final r1))) by by rewrite Hw0.
  rewrite Hp0 in Hreg.
  destruct (flush_sets now w) as (_ & _ & Hs1). cbv zeta in Hs1. rewrite <- Hr1 in Hs1.
  unfold shape in Hs1. injection Hs1 as Hk1 _ _.
  assert (Hnone : JsMap.get id (ProjectsState.projects (World.reg (final r1))) = None).
  { destruct (JsMap.get id _) eqn:Hg; [|done]. exfalso. apply Hfresh.
    destruct Hok as (Hk & _). apply Hk. rewrite <- Hk1.
    apply JsMapFacts.elem_of_keys. by eexists. }
  assert (Hreg' : World.reg w2 = closedRegistry id (World.reg w1))
    by apply forceCloseProject_registry.
  assert (Htabs : tabsAfterClose id (World.reg w1) = ProjectsState.tabOrder (World.reg w)).
  { unfold tabsAfterClose. rewrite Hreg. simpl. by apply filter_ne_snoc. }
  split; [unfold active; by rewrite Hreg|].
  split; [by rewrite Hreg'|].
  assert (Hprojects : ProjectsState.projects (World.reg w2)
                      = ProjectsState.projects (World.reg (final r1))).
  { rewrite Hreg'. simpl. rewrite Hreg. simpl. by apply delete_set_absent. }
  split; [by rewrite Hprojects|].
  split.
  { intros k Hk. unfold getProjectById. rewrite Hprojects, Hr1.
    by apply flush_session_local. }
  unfold active. rewrite Hreg'. simpl. unfold newActiveIdOf, replacementTab.
  rewrite Htabs.
  case_bool_decide as Hlen.
  - rewrite bool_decide_eq_true_2 by by rewrite Hreg.
    replace (ProjectsState.tabOrder (World.reg w1))
      with (ProjectsState.tabOrder (World.reg w) ++ [id]) by by rewrite Hreg.
    rewrite indexOf_snoc by done.
    rewrite Z.min_r by lia. apply at_index_last.
  - destruct (ProjectsState.tabOrder (World.reg w)); [done|simpl in Hlen; lia].
Qed.
End Abandoned.

Lemma abandoned_project_is_removed_witness :
  registry_ok (World.reg twoTabsOnA)
  ∧ (generateProjectId 4 "c" ∉ ProjectsState.tabOrder (World.reg twoTabsOnA))
  ∧ active twoTabsOnA = Some "project-1-a"
  ∧ ProjectsState.tabOrder
      (World.reg (final (forceCloseProject (H := plainStores) (generateProjectId 4 "c")
                           (final (createProject (H := plainStores) None false 4 "c"
                                     twoTabsOnA)))))
    = ["project-1-a"; "project-2-b"]
  ∧ active (final (forceCloseProject (H := plainStores) (generateProjectId 4 "c")
                     (final (createProject (H := plainStores) None false 4 "c"
                               twoTabsOnA))))
    = Some "project-2-b".
Proof.
  assert (Hok : registry_ok (World.reg twoTabsOnA)).
  { apply registry_okb_sound. vm_compute. reflexivity. }
  assert (Hfresh : generateProjectId 4 "c" ∉ ProjectsState.tabOrder (World.reg twoTabsOnA)).
  { apply (bool_decide_unpack _). vm_compute. exact I. }
  split; [exact Hok|]. split; [exact Hfresh|]. split; [reflexivity|].
  destruct (abandoned_project_is_removed (H := plainStores) None false 4 "c"
              twoTabsOnA Hok Hfresh) as (_ & Htabs & _ & _ & Hact).
  split; [rewrite Htabs; reflexivity | rewrite Hact; reflexivity].
Defined.

(** ** Normalised paths *)

Lemma fold_char_idem c : fold_char (fold_char c) = fold_char c.
Proof. destruct c as [[] [] [] [] [] [] [] []]; by vm_compute. Qed.

Lemma fold_char_not_foldable c : foldable (fold_char c) = false.
Proof. destruct c as [[] [] [] [] [] [] [] []]; by vm_compute. Qed.

Lemma map_string_length f s : String.length (map_string f s) = String.length s.
Proof. induction s as [|c s IH]; simpl; [done|]. by rewrite IH. Qed.

Lemma fold_char_ascii c : is_ascii c = true → is_ascii (fold_char c) = true.
Proof. destruct c as [[] [] [] [] [] [] [] []]; by vm_compute. Qed.

Lemma map_fold_char_ascii s :
  string_forall is_ascii s = true →
  string_forall is_ascii (map_string fold_char s) = true.
Proof.
  induction s as [|c s IH]; simpl; [done|].
  intros [Hc Hs]%andb_prop. by rewrite (fold_char_ascii c Hc), IH.
Qed.

Lemma map_fold_char_idem s :
  map_string fold_char (map_string fold_char s) = map_string fold_char s.
Proof. induction s as [|c s IH]; simpl; [done|]. by rewrite IH, fold_char_idem. Qed.

Lemma map_fold_char_folded s :
  string_forall (λ c, negb (foldable c)) (map_string fold_char s) = true.
Proof.
  induction s as [|c s IH]; simpl; [done|]. by rewrite fold_char_not_foldable.
Qed.

Section NormalisedPaths.
Context {engine : Engine}.

Lemma normalizePath_idem path :
  string_forall is_ascii path = true →
  normalizePath (normalizePath path) = normalizePath path.
Proof.
  intros Hp. rewrite (normalizePath_map path Hp).
  rewrite normalizePath_map by by apply map_fold_char_ascii.
  apply map_fold_char_idem.
Qed.

(** X9. On a path of ASCII characters, whatever the engine,
    [normalizePath] yields a canonical spelling: the result differs from
    the path, character by character, only by the case of letters and the
    kind of separators, so it has the length of the path; it holds no
    backslash and no upper-case letter; and normalising it again changes
    nothing.  So [findProjectByPath] answers the same for such a path and
    for its normalised spelling. *)
Theorem normalizePath_canonical (path : string) :
  string_forall is_ascii path = true →
  normalizePath (normalizePath path) = normalizePath path
  ∧ same_path path (normalizePath path)
  ∧ String.length (normalizePath path) = String.length path
  ∧ string_forall (λ c, negb (foldable c)) (normalizePath path) = true
  ∧ ∀ w, findProjectByPath (normalizePath path) w = findProjectByPath path w.
Proof.
  intros Hp.
  split; [by apply normalizePath_idem|].
  split.
  { rewrite (normalizePath_map path Hp). apply map_fold_char_same_path.
    by rewrite map_fold_char_idem. }
  split; [rewrite (normalizePath_map path Hp); apply map_string_length|].
  split; [rewrite (normalizePath_map path Hp); apply map_fold_char_folded|].
  intros w. unfold findProjectByPath. by rewrite normalizePath_idem.
Qed.
End NormalisedPaths.

Lemma normalizePath_canonical_witness :
  string_forall is_ascii "C:\Users\Ann\Photo.PNG" = true
  ∧ normalizePath (engine := asciiEngine) "C:\Users\Ann\Photo.PNG"
    = "c:/users/ann/photo.png"
  ∧ findProjectByPath (engine := asciiEngine)
      (normalizePath (engine := asciiEngine) "C:\Pics\Cat.PNG") pathsWorld
    = Some "project-1-a".
Proof.
  split; [reflexivity|]. split; [reflexivity|].
  destruct (normalizePath_canonical (engine := asciiEngine) "C:\Pics\Cat.PNG" eq_refl)
    as (_ & _ & _ & _ & Hfind).
  rewrite Hfind. reflexivity.
Defined.

(** ** Closing the window *)

Lemma existsb_hasUnsavedChanges w (entries : list (string * ProjectSnapshot.t)) :
  existsb (λ entry, hasUnsavedChanges entry.1 w) entries = true
  ↔ ∃ id, id ∈ JsMap.keys entries ∧ hasUnsavedChanges id w = true.
Proof.
  rewrite existsb_exists. unfold JsMap.keys. split.
  - intros ([id p] & Hin & Hu). exists id. split; [|done].
    apply list_elem_of_fmap. exists (id, p). split; [done|].
    by apply list_elem_of_In.
  - intros (id & Hin & Hu). apply list_elem_of_fmap in Hin as ([id' p] & -> & Hin).
    exists (id', p). split; [by apply list_elem_of_In|done].
Qed.

(** X10. The handler of the window's close request saves the active
    session and then asks every session of the registry for unsaved
    changes.  It writes no live store, and it blocks the close (and opens
    the confirmation dialog) exactly when some registered session is
    dirty, the active one judged by the live History Engine and every
    other one by its stored snapshot. *)
Theorem onCloseRequested_blocks_unsaved (now : Z) (w : World.t) :
  let r := onCloseRequested now w in
  live (final r) = live w
  ∧ shape (World.reg (final r)) = shape (World.reg w)
  ∧ (result r = true
     ↔ ∃ id project,
         getProjectById id w = Some project ∧ isProjectDirty id project w = true).
Proof.
  intros r. unfold r, onCloseRequested.
  rewrite final_bind, result_bind.
  set (w' := final (saveCurrentProjectState now w)).
  change (final (ret ?a ?x)) with x. change (result (ret ?a ?x)) with a.
  destruct (acts_as_saveCurrentProjectState now w) as (Hs & _). fold w' in Hs.
  assert (Hlive : live w' = live w)
    by (unfold w'; by rewrite saveCurrentProjectState_live).
  split; [done|]. split; [done|].
  unfold anyUnsaved. rewrite existsb_hasUnsavedChanges.
  assert (Hact : active w' = active w).
  { unfold active. unfold shape in Hs. by injection Hs as _ -> _. }
  assert (Hkeys : JsMap.keys (ProjectsState.projects (World.reg w'))
                  = JsMap.keys (ProjectsState.projects (World.reg w))).
  { unfold shape in Hs. by injection Hs as -> _ _. }
  assert (Hhist : World.history w' = World.history w).
  { unfold live in Hlive. by injection Hlive as _ _ -> _. }
  assert (Hsame : ∀ id project,
            JsMap.get id (ProjectsState.projects (World.reg w)) = Some project →
            hasUnsavedChanges id w' = isProjectDirty id project w).
  { intros id project Hg. unfold hasUnsavedChanges, isProjectDirty.
    fold (active w'). rewrite Hact, Hhist. case_bool_decide as Ha; [done|].
    destruct (session_local_saveCurrentProjectState now w) as [Hf _].
    fold w' in Hf. rewrite Hf by congruence. by rewrite Hg. }
  unfold getProjectById. split.
  - intros (id & Hin & Hu). rewrite Hkeys in Hin.
    apply JsMapFacts.elem_of_keys in Hin as [project Hg].
    exists id, project. split; [done|]. by rewrite <- (Hsame id project Hg).
  - intros (id & project & Hg & Hd). exists id. split.
    + rewrite Hkeys. apply JsMapFacts.elem_of_keys. by eexists.
    + by rewrite (Hsame id project Hg).
Qed.

(** ** Opening a file that is already open *)

Section OpenFacts.
Context `{LiveStores}.
Context {engine : Engine}.

Lemma scanProjects_key q entries id :
  scanProjects q entries = Some id → id ∈ JsMap.keys entries.
Proof.
  unfold JsMap.keys. induction entries as [|[k p] rest IH]; simpl; [done|].
  destruct (_ && _).
  - intros [= ->]. by left.
  - intros Hs. right. by apply IH.
Qed.

(** X11. Opening a file that some session already holds
    ([findProjectByPath] answers its id): the file is not opened again,
    no tab is created and none is closed; the session that holds it is
    the active one afterwards, and the caller is told to stop there. *)
Theorem switchToOpenProject_focuses (filePath : string) (now : Z) (w : World.t)
    (existingId : string) :
  findProjectByPath filePath w = Some existingId →
  existingId ≠ EmptyString →
  let r := switchToOpenProject filePath now w in
  result r = true
  ∧ active (final r) = Some existingId
  ∧ ProjectsState.tabOrder (World.reg (final r)) = ProjectsState.tabOrder (World.reg w)
  ∧ JsMap.keys (ProjectsState.projects (World.reg (final r)))
    = JsMap.keys (ProjectsState.projects (World.reg w)).
Proof.
  intros Hfind Hne r. unfold r, switchToOpenProject. rewrite Hfind.
  assert (Ht : truthy (Some existingId) = true) by by destruct existingId.
  rewrite Ht. simpl. rewrite result_bind, final_bind.
  change (result (ret ?a ?x)) with a. change (final (ret ?a ?x)) with x.
  split; [done|].
  destruct (decide (Some existingId = active w)) as [Ha|Ha].
  { by rewrite switchProject_noop by by left. }
  assert (Hkey : is_Some (JsMap.get existingId (ProjectsState.projects (World.reg w)))).
  { apply JsMapFacts.elem_of_keys. unfold findProjectByPath in Hfind.
    fold (active w) in Hfind. destruct (_ && _); [congruence|].
    by apply scanProjects_key in Hfind. }
  destruct Hkey as [target Hg].
  destruct (switchProject_switches existingId now w target Ha Hg) as (Hs & _).
  unfold shape in Hs. injection Hs as Hk Hact Htabs. done.
Qed.
End OpenFacts.

Lemma switchToOpenProject_focuses_witness :
  findProjectByPath (engine := asciiEngine) "c:/pics/cat.png" pathsWorld
  = Some "project-1-a"
  ∧ active pathsWorld = Some "project-2-b"
  ∧ active (final (switchToOpenProject (H := plainStores) (engine := asciiEngine)
                     "c:/pics/cat.png" 3 pathsWorld))
    = Some "project-1-a"
  ∧ ProjectsState.tabOrder
      (World.reg (final (switchToOpenProject (H := plainStores) (engine := asciiEngine)
                           "c:/pics/cat.png" 3 pathsWorld)))
    = ProjectsState.tabOrder (World.reg pathsWorld).
Proof.
  split; [reflexivity|]. split; [reflexivity|].
  destruct (switchToOpenProject_focuses (H := plainStores) (engine := asciiEngine)
              "c:/pics/cat.png" 3 pathsWorld "project-1-a") as (_ & Hact & Htabs & _);
    [reflexivity | discriminate |].
  split; [exact Hact | exact Htabs].
Defined.

(** ** The tab bar while an image is generated *)

Section TabBarFacts.
Context `{LiveStores}.

(** Force-closing a session that is not the active one. *)
Lemma forceCloseProject_inactive id w :
  registry_ok (World.reg w) → Some id ≠ active w →
  forceCloseProject id w
  = (tt, World.with_reg (closedRegistry id (World.reg w)) w,
     [ProjectsSet (closedRegistry id (World.reg w))])
  ∧ ProjectsState.activeProjectId (closedRegistry id (World.reg w)) = active w.
Proof.
  intros Hok Ha. rewrite forceCloseProject_run. cbv zeta.
  pose proof (newActiveIdOf_inactive id (World.reg w) Hok Ha) as E.
  by rewrite bool_decide_eq_true_2.
Qed.

(** X12. While an image is generated, a click in the tab bar leaves the
    live document alone: a click on a tab changes nothing at all, and a
    click on a close button, in a registry whose tabs are its keys, makes
    no call on a live store, leaves the four live stores as they are and
    keeps the active session.  (The close button of the active tab only
    warns; the one of another tab may still close that tab.) *)
Theorem tab_bar_while_generating (id : string) (now : Z) (w : World.t) :
  registry_ok (World.reg w) →
  let r := TabBar.handleCloseClick true id w in
  final (TabBar.handleTabClick true id now w) = w
  ∧ trace (TabBar.handleTabClick true id now w) = []
  ∧ live (final r) = live w
  ∧ active (final r) = active w
  ∧ calls_of (trace r) = []
  ∧ (Some id = active w →
       r = (TabBar.Warned "Cannot close tab while generating", w, [])).
Proof.
  intros Hok r.
  split; [unfold TabBar.handleTabClick; by case_bool_decide|].
  split; [unfold TabBar.handleTabClick; by case_bool_decide|].
  unfold r, TabBar.handleCloseClick. fold (active w). simpl.
  case_bool_decide as Ha; [by repeat split|].
  rewrite final_bind, trace_bind.
  change (final (ret ?a ?x)) with x. change (trace (ret ?a ?x)) with (@nil Event).
  rewrite app_nil_r, closeProject_run.
  destruct (JsMap.get id _) as [project|]; [|by repeat split].
  destruct (isProjectDirty id project w); [by repeat split|].
  change (final (?u, ?x, ?t)) with x. change (trace (?u, ?x, ?t)) with t.
  destruct (forceCloseProject_inactive id w Hok Ha) as [E Hact].
  rewrite E. change (final (?u, ?x, ?t)) with x. change (trace (?u, ?x, ?t)) with t.
  by repeat split.
Qed.
End TabBarFacts.

Lemma tab_bar_while_generating_witness :
  registry_ok (World.reg twoTabs)
  ∧ ProjectsState.tabOrder
      (World.reg (final (TabBar.handleCloseClick (H := plainStores) true "project-1-a"
                           twoTabs)))
    = ["project-2-b"]
  ∧ live (final (TabBar.handleCloseClick (H := plainStores) true "project-1-a" twoTabs))
    = live twoTabs
  ∧ TabBar.handleCloseClick (H := plainStores) true "project-2-b" twoTabs
    = (TabBar.Warned "Cannot close tab while generating", twoTabs, []).
Proof.
  assert (Hok : registry_ok (World.reg twoTabs)).
  { apply registry_okb_sound. vm_compute. reflexivity. }
  split; [exact Hok|]. split; [reflexivity|].
  destruct (tab_bar_while_generating (H := plainStores) "project-1-a" 3 twoTabs Hok)
    as (_ & _ & Hlive & _).
  destruct (tab_bar_while_generating (H := plainStores) "project-2-b" 3 twoTabs Hok)
    as (_ & _ & _ & _ & _ & Hwarn).
  split; [exact Hlive|]. apply Hwarn. reflexivity.
Defined.

(** ** What a pass leaves on the canvas *)

Lemma filter_iff_elem_of {A} (P Q : A → Prop) `{∀ x, Decision (P x)}
    `{∀ x, Decision (Q x)} (l : list A) :
  (∀ x, x ∈ l → (P x ↔ Q x)) → filter P l = filter Q l.
Proof.
  induction l as [|x l IH]; [done|]. intros Hpq.
  rewrite !filter_cons.
  rewrite IH by (intros y Hy; apply Hpq; by right).
  destruct (decide (P x)) as [Hp|Hp], (decide (Q x)) as [Hq|Hq]; try done;
    exfalso; apply (Hpq x (list_elem_of_here _ _)) in Hp || apply Hp, (Hpq x (list_elem_of_here _ _)); done.
Qed.

Lemma filter_all {A} (P : A → Prop) `{∀ x, Decision (P x)} (l : list A) :
  Forall P l → filter P l = l.
Proof.
  induction 1 as [|x l Hx _ IH]; [done|].
  by rewrite filter_cons, decide_True, IH.
Qed.

Module PassFacts.
Import Renderer RendererVocabulary.


Lemma removeUntracked_step_condition s h :
  negb (bool_decide (Some h = Scene.baseImageObject s))
  && negb (bool_decide (Some h = Scene.activeSelection s))
  && negb (bool_decide (Some h = Scene.polygonOutline s))
  && negb (bool_decide (h ∈ (FabricImage.handle <$> (Scene.editLayerObjects s).*2)))
  = negb (bool_decide (tracked s h)).
Proof.
  destruct (decide (tracked s h)) as [Ht|Ht].
  - rewrite (bool_decide_eq_true_2 _ Ht).
    destruct Ht as [E|[E|[E|E]]]; rewrite (bool_decide_eq_true_2 _ E); simpl;
      by rewrite ?andb_false_r.
  - rewrite (bool_decide_eq_false_2 _ Ht).
    rewrite !bool_decide_eq_false_2; [done|..];
      intros E; apply Ht; unfold tracked; tauto.
Qed.

Lemma removeUntracked_fold (l : list nat) s :
  let s' :=
    fold_left
      (λ s (h : nat),
         if negb (bool_decide (Some h = Scene.baseImageObject s))
            && negb (bool_decide (Some h = Scene.activeSelection s))
            && negb (bool_decide (Some h = Scene.polygonOutline s))
            && negb (bool_decide
                       (h ∈ (FabricImage.handle <$> (Scene.editLayerObjects s).*2)))
         then canvas_remove h s else s) l s in
  (∀ h, tracked s' h ↔ tracked s h)
  ∧ Scene.editLayerObjects s' = Scene.editLayerObjects s
  ∧ Scene.layerFeatherCache s' = Scene.layerFeatherCache s
  ∧ Scene.objects s' = filter (λ h, tracked s h ∨ h ∉ l) (Scene.objects s).
Proof.
  revert s. induction l as [|h0 l IH]; intros s; simpl.
  - split; [done|]. split; [done|]. split; [done|].
    symmetry. apply filter_all, Forall_forall. intros h _. right. apply not_elem_of_nil.
  - cbv zeta in IH. rewrite removeUntracked_step_condition.
    case_bool_decide as Ht; simpl.
    + destruct (IH s) as (H1 & H2 & H3 & H4).
      split; [done|]. split; [done|]. split; [done|]. rewrite H4.
      apply list_filter_iff. intros h. rewrite not_elem_of_cons.
      split; [|tauto]. intros [?|?]; [by left|].
      destruct (decide (h = h0)) as [->|]; [by left|by right].
    + destruct (IH (canvas_remove h0 s)) as (H1 & H2 & H3 & H4).
      split; [done|]. split; [done|]. split; [done|]. rewrite H4. simpl.
      rewrite list_filter_filter. apply list_filter_iff. intros h.
      change (tracked (canvas_remove h0 s) h) with (tracked s h).
      rewrite not_elem_of_cons. split; [tauto|].
      intros [?|[? ?]]; [|tauto]. split; [by left|]. by intros ->.
Qed.

(** X13. After [removeUntracked] the canvas holds, in their former
    order, exactly those of its objects that are the base image, the
    active selection, the polygon outline or the object of a layer;
    every other object is gone, and the maps of the layer objects and of
    the feather radii are as they were. *)
Theorem removeUntracked_keeps_tracked (s : Scene.t) :
  Scene.objects (removeUntracked s) = filter (tracked s) (Scene.objects s)
  ∧ (∀ h, h ∈ Scene.objects (removeUntracked s) → tracked (removeUntracked s) h)
  ∧ Scene.editLayerObjects (removeUntracked s) = Scene.editLayerObjects s
  ∧ Scene.layerFeatherCache (removeUntracked s) = Scene.layerFeatherCache s.
Proof.
  unfold removeUntracked.
  destruct (removeUntracked_fold (Scene.objects s) s) as (H1 & H2 & H3 & H4).
  rewrite H2, H3, H4.
  assert (E : filter (λ h, tracked s h ∨ h ∉ Scene.objects s) (Scene.objects s)
              = filter (tracked s) (Scene.objects s)).
  { apply filter_iff_elem_of. intros h Hin. tauto. }
  rewrite E. split; [done|]. split; [|done].
  intros h. rewrite list_elem_of_filter, H1. by intros [? _].
Qed.

Lemma removeDeleted_fold (layers : list Layer.t) (l : list (string * FabricImage.t)) s :
  let s' :=
    fold_left
      (λ s (entry : string * FabricImage.t),
         if bool_decide (entry.1 ∈ (Layer.id <$> layers)) then s
         else Scene.with_editLayerObjects
                (JsMap.delete entry.1 (Scene.editLayerObjects s))
                (canvas_remove (FabricImage.handle entry.2) s)) l s in
  Scene.editLayerObjects s'
  = filter (λ e, e.1 ∈ (Layer.id <$> layers) ∨ e.1 ∉ l.*1) (Scene.editLayerObjects s)
  ∧ Scene.objects s'
    = filter (λ h, h ∉ (FabricImage.handle <$>
                          (filter (λ e : string * FabricImage.t,
                                     e.1 ∉ (Layer.id <$> layers)) l).*2))
        (Scene.objects s)
  ∧ Scene.layerFeatherCache s' = Scene.layerFeatherCache s.
Proof.
  revert s. induction l as [|[k v] l IH]; intros s; simpl.
  - split; [|split; [|done]]; symmetry; apply filter_all, Forall_forall.
    + intros e _. right. apply not_elem_of_nil.
    + intros h _. apply not_elem_of_nil.
  - cbv zeta in IH. case_bool_decide as Hk; simpl.
    + destruct (IH s) as (H1 & H2 & H3). rewrite H1, H2, H3.
      split; [|split; [|done]].
      * apply list_filter_iff. intros e. rewrite not_elem_of_cons.
        split; [|tauto]. intros [?|?]; [by left|].
        destruct (decide (e.1 = k)) as [->|]; [by left|by right].
      * by rewrite filter_cons, decide_False by (simpl; tauto).
    + destruct (IH (Scene.with_editLayerObjects
                      (JsMap.delete k (Scene.editLayerObjects s))
                      (canvas_remove (FabricImage.handle v) s))) as (H1 & H2 & H3).
      rewrite H1, H2, H3. simpl. unfold JsMap.delete.
      split; [|split; [|done]]; (etrans; [apply list_filter_filter|]).
      * apply list_filter_iff. intros e. rewrite not_elem_of_cons.
        split; [tauto|]. intros [Hin|[? ?]]; [|tauto]. split; [by left|].
        intros E. apply Hk. by rewrite <- E.
      * rewrite (filter_cons _ (k, v)), decide_True by done. simpl.
        apply list_filter_iff. intros h. rewrite not_elem_of_cons. tauto.
Qed.

Lemma get_filter_keys {V} (P : string → Prop) `{∀ k, Decision (P k)}
    (m : list (string * V)) k :
  P k → JsMap.get k (filter (λ e, P e.1) m) = JsMap.get k m.
Proof.
  intros Hk. induction m as [|[k0 v0] m IH]; [done|].
  rewrite filter_cons. simpl. destruct (decide (P k0)) as [Hp|Hp]; simpl.
  - by rewrite IH.
  - rewrite IH. rewrite bool_decide_eq_false_2; [done|]. by intros ->.
Qed.

(** X14. After [removeDeleted] the map of the layer objects holds
    exactly its former entries whose key is the id of a layer of the
    render, in their former order: no key is left that is not a current
    layer, and the object of every current layer is the one it was.  The
    canvas has lost the objects of the entries that went and nothing
    else.  The map of the feather radii is not cleaned: it keeps the
    entries of the deleted layers. *)
Theorem removeDeleted_keeps_current_layers (layers : list Layer.t) (s : Scene.t) :
  let s' := removeDeleted layers s in
  Scene.editLayerObjects s'
  = filter (λ e, e.1 ∈ (Layer.id <$> layers)) (Scene.editLayerObjects s)
  ∧ (∀ id, id ∈ JsMap.keys (Scene.editLayerObjects s') → id ∈ (Layer.id <$> layers))
  ∧ (∀ layer, layer ∈ layers →
       JsMap.get (Layer.id layer) (Scene.editLayerObjects s')
       = JsMap.get (Layer.id layer) (Scene.editLayerObjects s))
  ∧ Scene.objects s' = filter (λ h, h ∉ deletedHandles layers s) (Scene.objects s)
  ∧ Scene.layerFeatherCache s' = Scene.layerFeatherCache s.
Proof.
  intros s'. unfold s', removeDeleted.
  destruct (removeDeleted_fold layers (Scene.editLayerObjects s) s) as (H1 & H2 & H3).
  rewrite H1, H2, H3.
  assert (E : filter (λ e : string * FabricImage.t,
                        e.1 ∈ (Layer.id <$> layers) ∨ e.1 ∉ (Scene.editLayerObjects s).*1)
                (Scene.editLayerObjects s)
              = filter (λ e, e.1 ∈ (Layer.id <$> layers)) (Scene.editLayerObjects s)).
  { apply filter_iff_elem_of. intros e Hin. split; [|tauto].
    intros [?|Hn]; [done|]. exfalso. apply Hn.
    apply list_elem_of_fmap. by exists e. }
  rewrite E. split; [done|]. split; [|split; [|done]].
  - intros id. unfold JsMap.keys. intros ([k v] & -> & Hin)%list_elem_of_fmap.
    by apply list_elem_of_filter in Hin as [? _].
  - intros layer Hin.
    pose proof (get_filter_keys (λ k, k ∈ (Layer.id <$> layers))
                  (Scene.editLayerObjects s) (Layer.id layer)) as Hg.
    apply Hg. apply list_elem_of_fmap. by exists layer.
Qed.

(** *** A render that creates no object *)

Lemma fold_left_preserves {A X} (g : Scene.t → X) (f : Scene.t → A → Scene.t)
    (l : list A) s :
  (∀ s a, g (f s a) = g s) → g (fold_left f l s) = g s.
Proof.
  intros Hf. revert s. induction l as [|a l IH]; intros s; simpl; [done|].
  by rewrite IH, Hf.
Qed.

(** What the steps after the loop, the render request apart, leave
    alone: everything but the canvas's objects, its active object, the
    map of the layer objects, the outline and the handle counter. *)
Lemma afterLoop_preserves {X} (g : Scene.t → X) p s :
  (∀ o s, g (Scene.with_objects o s) = g s) →
  (∀ a s, g (Scene.with_activeObject a s) = g s) →
  (∀ m s, g (Scene.with_editLayerObjects m s) = g s) →
  (∀ o s, g (Scene.with_polygonOutline o s) = g s) →
  (∀ n s, g (Scene.with_nextHandle n s) = g s) →
  g (drawOutline p
       (removeUntracked
          (removeDeleted (Inputs.layers (Pass.inputs p))
             (enforceZIndex (Inputs.layers (Pass.inputs p)) s)))) = g s.
Proof.
  intros Ho Ha Hm Hp Hn.
  assert (Hrem : ∀ h s, g (canvas_remove h s) = g s).
  { intros h s0. unfold canvas_remove. by rewrite Ha, Ho. }
  assert (Hd : ∀ s, g (drawOutline p s) = g s).
  { intros s0. unfold drawOutline.
    assert (E : g (match Scene.polygonOutline s0 with
                   | Some h => Scene.with_polygonOutline None (canvas_remove h s0)
                   | None => s0
                   end) = g s0).
    { destruct (Scene.polygonOutline s0); [by rewrite Hp, Hrem|done]. }
    destruct (list_find _ _) as [[? activeLayer]|]; [|done].
    destruct (hasPolygon activeLayer); [|done].
    destruct (JsMap.get _ _); [|done].
    unfold canvas_add. by rewrite Ho, Hp, Hn. }
  rewrite Hd. unfold removeUntracked, removeDeleted, enforceZIndex.
  rewrite !fold_left_preserves; [done| | |].
  - intros s0 [i l]. simpl.
    destruct (if bool_decide _ then _ else _); [|done].
    case_bool_decide; [done|]. unfold canvas_moveObjectTo. by rewrite Ho.
  - intros s0 [k v]. simpl. case_bool_decide; [done|]. by rewrite Hm, Hrem.
  - intros s0 h. simpl. destruct (_ && _); [by rewrite Hrem|done].
Qed.

Lemma finish_renderRequests p s :
  Scene.renderRequests (finish p s) = S (Scene.renderRequests s).
Proof.
  unfold finish. cbv zeta. simpl. f_equal.
  by apply (afterLoop_preserves Scene.renderRequests).
Qed.

Lemma finish_placements p s : Scene.placements (finish p s) = Scene.placements s.
Proof.
  unfold finish. cbv zeta. simpl. by apply (afterLoop_preserves Scene.placements).
Qed.

Lemma finish_layerFeatherCache p s :
  Scene.layerFeatherCache (finish p s) = Scene.layerFeatherCache s.
Proof.
  unfold finish. cbv zeta. simpl.
  by apply (afterLoop_preserves Scene.layerFeatherCache).
Qed.

Lemma place_spec p layer obj s :
  Scene.editLayerObjects (place p layer obj s) = Scene.editLayerObjects s
  ∧ Scene.layerFeatherCache (place p layer obj s) = Scene.layerFeatherCache s
  ∧ Scene.processingVersion (place p layer obj s) = Scene.processingVersion s
  ∧ Scene.renderRequests (place p layer obj s) = Scene.renderRequests s
  ∧ Scene.objects (place p layer obj s) = Scene.objects s
  ∧ ∃ placement,
      Scene.placements (place p layer obj s)
      = (FabricImage.handle obj, placement) :: Scene.placements s
      ∧ Placement.layerId placement = Layer.id layer
      ∧ Placement.visible placement = Layer.visible layer
      ∧ Placement.opacity placement = Layer.opacity layer
      ∧ Placement.under placement = Pass.transform p.
Proof.
  unfold place. cbv zeta. destruct (_ && _); simpl; repeat split; by eexists.
Qed.

Lemma mustCreate_maps layer s s' :
  Scene.editLayerObjects s' = Scene.editLayerObjects s →
  Scene.layerFeatherCache s' = Scene.layerFeatherCache s →
  mustCreate layer s' = mustCreate layer s.
Proof. intros Ho Hc. unfold mustCreate, featherChanged. by rewrite Ho, Hc. Qed.

Lemma mustCreate_false_object layer s :
  mustCreate layer s = false →
  is_Some (JsMap.get (Layer.id layer) (Scene.editLayerObjects s)).
Proof.
  unfold mustCreate. intros [Hn _]%orb_false_elim.
  apply negb_false_iff, bool_decide_eq_true in Hn. done.
Qed.

Lemma runLoop_no_creation p layers s0 s :
  Scene.editLayerObjects s = Scene.editLayerObjects s0 →
  Scene.layerFeatherCache s = Scene.layerFeatherCache s0 →
  Scene.processingVersion s = Pass.currentVersion p →
  Forall (λ l, Layer.type l ≠ "base" → mustCreate l s0 = false) layers →
  let r := runLoop p layers s in
  r.2 = Finished
  ∧ Scene.renderRequests r.1 = S (Scene.renderRequests s)
  ∧ Scene.layerFeatherCache r.1 = Scene.layerFeatherCache s
  ∧ (∀ x, x ∈ Scene.placements s → x ∈ Scene.placements r.1)
  ∧ (∀ l, l ∈ layers → Layer.type l ≠ "base" →
       ∃ obj placement,
         JsMap.get (Layer.id l) (Scene.editLayerObjects s0) = Some obj
         ∧ (FabricImage.handle obj, placement) ∈ Scene.placements r.1
         ∧ Placement.layerId placement = Layer.id l
         ∧ Placement.visible placement = Layer.visible l
         ∧ Placement.opacity placement = Layer.opacity l
         ∧ Placement.under placement = Pass.transform p).
Proof.
  intros Ho Hc Hv Hall. revert s Ho Hc Hv.
  induction Hall as [|layer layers Hl Hall IH]; intros s Ho Hc Hv; simpl.
  - split; [done|]. split; [apply finish_renderRequests|].
    split; [apply finish_layerFeatherCache|].
    split; [intros x Hx; by rewrite <- (finish_placements p s) in Hx|].
    by intros l ?%elem_of_nil.
  - rewrite bool_decide_eq_true_2 by done. simpl.
    case_bool_decide as Hb.
    + destruct (IH s Ho Hc Hv) as (H1 & H2 & H3 & H4 & H5).
      split; [done|]. split; [done|]. split; [done|]. split; [done|].
      intros l [->|Hin]%elem_of_cons Hnb; [done|]. by apply H5.
    + rewrite (mustCreate_maps layer s0 s Ho Hc), (Hl Hb).
      destruct (mustCreate_false_object layer s0 (Hl Hb)) as [obj Hobj].
      rewrite Ho, Hobj.
      destruct (place_spec p layer obj s)
        as (Po & Pc & Pv & Pr & _ & placement & Pp & P1 & P2 & P3 & P4).
      destruct (IH (place p layer obj s)) as (H1 & H2 & H3 & H4 & H5);
        [congruence | congruence | congruence |].
      split; [done|]. split; [by rewrite H2, Pr|]. split; [by rewrite H3, Pc|].
      split.
      { intros x Hx. apply H4. rewrite Pp. by right. }
      intros l [->|Hin]%elem_of_cons Hnb; [|by apply H5].
      exists obj, placement. split; [done|].
      split; [apply H4; rewrite Pp; by left|]. done.
Qed.

(** X15. A render in which no layer object has to be created (every
    layer that is not the base layer has its object, made for the feather
    radius it still has) completes without waiting for anything: the pass
    runs to its end in one go and requests one rendering of the canvas.
    Every such layer's object is placed under the fresh image transform
    with the visibility and the opacity the layer has in this render, and
    the map of the feather radii is not written. *)
Theorem pass_without_creation_completes (p : Pass.t) (layers : list Layer.t)
    (s : Scene.t) :
  Scene.processingVersion s = Pass.currentVersion p →
  Forall (λ l, Layer.type l ≠ "base" → mustCreate l s = false) layers →
  let r := runLoop p layers s in
  r.2 = Finished
  ∧ Scene.renderRequests r.1 = S (Scene.renderRequests s)
  ∧ Scene.layerFeatherCache r.1 = Scene.layerFeatherCache s
  ∧ (∀ l, l ∈ layers → Layer.type l ≠ "base" →
       ∃ obj placement,
         JsMap.get (Layer.id l) (Scene.editLayerObjects s) = Some obj
         ∧ (FabricImage.handle obj, placement) ∈ Scene.placements r.1
         ∧ Placement.layerId placement = Layer.id l
         ∧ Placement.visible placement = Layer.visible l
         ∧ Placement.opacity placement = Layer.opacity l
         ∧ Placement.under placement = Pass.transform p).
Proof.
  intros Hv Hall r.
  destruct (runLoop_no_creation p layers s s eq_refl eq_refl Hv Hall)
    as (H1 & H2 & H3 & _ & H5).
  done.
Qed.

Lemma pass_without_creation_completes_witness :
  Scene.processingVersion sceneWithLayer = Pass.currentVersion passAfterEdit
  ∧ (runLoop passAfterEdit (Inputs.layers RendererCases.inputs1) sceneWithLayer).2
    = Finished
  ∧ Scene.renderRequests
      (runLoop passAfterEdit (Inputs.layers RendererCases.inputs1) sceneWithLayer).1
    = S (Scene.renderRequests sceneWithLayer).
Proof.
  assert (Hv : Scene.processingVersion sceneWithLayer = Pass.currentVersion passAfterEdit)
    by reflexivity.
  split; [exact Hv|].
  destruct (pass_without_creation_completes passAfterEdit
              (Inputs.layers RendererCases.inputs1) sceneWithLayer Hv)
    as (Hfin & Hreq & _).
  - apply Forall_cons. split; [intros Hb; exfalso; apply Hb; reflexivity|].
    apply Forall_cons. split; [intros _; vm_compute; reflexivity|].
    apply Forall_nil_2.
  - split; [exact Hfin | exact Hreq].
Defined.

(** *** The z-order *)


Lemma take_insert_prefix (done : list nat) (objs : list nat) h :
  take (length done) objs = done → h ∉ done →
  let others := filter (λ o, o ≠ h) objs in
  take (S (length done)) (take (length done) others ++ h :: drop (length done) others)
  = done ++ [h].
Proof.
  intros Ht Hh others.
  assert (Ho : take (length done) others = done).
  { unfold others. rewrite <- (take_drop (length done) objs), Ht, filter_app.
    rewrite (filter_all (λ o, o ≠ h) done).
    - by apply take_app_length.
    - apply Forall_forall. intros x Hx ->. done. }
  rewrite Ho. replace (S (length done)) with (length done + 1)%nat by lia.
  by rewrite take_app_add.
Qed.

Lemma enforceZIndex_fold (rest : list Layer.t) (hs done : list nat) (i : nat) s :
  length done = i →
  take i (Scene.objects s) = done →
  Forall2 (λ l h, layerObject s l = Some h) rest hs →
  NoDup (done ++ hs) →
  let s' :=
    fold_left
      (λ s (il : nat * Layer.t),
         match
           (if bool_decide (Layer.type il.2 = "base") then Scene.baseImageObject s
            else FabricImage.handle <$>
                   JsMap.get (Layer.id il.2) (Scene.editLayerObjects s))
         with
         | Some h =>
             if bool_decide (object_index h s = Some il.1) then s
             else canvas_moveObjectTo h il.1 s
         | None => s
         end)
      (imap (λ j l, ((i + j)%nat, l)) rest) s in
  take (i + length rest) (Scene.objects s') = done ++ hs
  ∧ (∀ x, x ∈ Scene.objects s' ↔ x ∈ Scene.objects s ∨ x ∈ hs).
Proof.
  intros Hlen Htake Hobj. revert hs done i s Hlen Htake Hobj.
  induction rest as [|layer rest IH]; intros hs done i s Hlen Htake Hobj Hnd.
  - apply Forall2_nil_inv_l in Hobj as ->. simpl.
    rewrite Nat.add_0_r, app_nil_r. split; [done|].
    intros x. rewrite elem_of_nil. tauto.
  - apply Forall2_cons_inv_l in Hobj as (h & hs' & Hh & Hobj & ->).
    rewrite imap_cons. simpl fold_left. rewrite Nat.add_0_r.
    fold (layerObject s layer). rewrite Hh.
    assert (Hhd : h ∉ done).
    { apply NoDup_app in Hnd as (_ & Hd & _). intros Hin.
      apply (Hd h Hin). by left. }
    assert (Hnd' : NoDup ((done ++ [h]) ++ hs')) by by rewrite <- app_assoc.
    rewrite (imap_ext _ (λ j l, ((S i + j)%nat, l)))
      by (intros j x _; simpl; f_equal; lia).
    case_bool_decide as Hidx.
    + assert (Hi : Scene.objects s !! i = Some h).
      { unfold object_index in Hidx.
        destruct (list_find _ _) as [[j y]|] eqn:Hf; [|done].
        simpl in Hidx. injection Hidx as ->.
        by apply list_find_Some in Hf as (Hl & -> & _). }
      destruct (IH hs' (done ++ [h]) (S i) s) as [H1 H2];
        [rewrite length_app; simpl; lia
        | rewrite (take_S_r _ _ _ Hi); by rewrite Htake | done | done |].
      simpl length. rewrite <- Nat.add_succ_comm. rewrite <- app_assoc in H1.
      split; [exact H1|].
      intros x. rewrite H2, elem_of_cons. split; [tauto|].
      intros [?|[->|?]]; [tauto| |tauto]. left.
      by eapply list_elem_of_lookup_2.
    + destruct (IH hs' (done ++ [h]) (S i) (canvas_moveObjectTo h i s)) as [H1 H2];
        [rewrite length_app; simpl; lia | | done | done |].
      { simpl. subst i. by apply take_insert_prefix. }
      simpl length. rewrite <- Nat.add_succ_comm. rewrite <- app_assoc in H1.
      split; [exact H1|].
      intros x. rewrite H2. simpl.
      rewrite elem_of_app, !elem_of_cons.
      assert (Hmem : x ∈ take i (filter (λ o, o ≠ h) (Scene.objects s))
                     ∨ x ∈ drop i (filter (λ o, o ≠ h) (Scene.objects s))
                     ↔ x ≠ h ∧ x ∈ Scene.objects s).
      { rewrite <- elem_of_app, take_drop, list_elem_of_filter. done. }
      destruct (decide (x = h)) as [->|Hx]; [tauto|]. tauto.
Qed.

(** X16. After [enforceZIndex], when every layer of the render has its
    object (the base image for the base layer) and these objects are
    pairwise distinct, the canvas holds them at the bottom of its stack
    in the order of the layers: the object at index [i] is the one of
    layer [i].  No object leaves the canvas in this step. *)
Theorem enforceZIndex_orders_layers (layers : list Layer.t) (hs : list nat)
    (s : Scene.t) :
  Forall2 (λ l h, layerObject s l = Some h) layers hs →
  NoDup hs →
  let s' := enforceZIndex layers s in
  take (length layers) (Scene.objects s') = hs
  ∧ (∀ i layer, layers !! i = Some layer →
       Scene.objects s' !! i = layerObject s layer)
  ∧ (∀ x, x ∈ Scene.objects s → x ∈ Scene.objects s').
Proof.
  intros Hobj Hnd s'.
  destruct (enforceZIndex_fold layers hs [] 0 s eq_refl eq_refl Hobj Hnd)
    as [H1 H2].
  change (imap (λ j l, ((0 + j)%nat, l)) layers) with (imap (λ j l, (j, l)) layers)
    in H1, H2.
  change (take (length layers) (Scene.objects s') = hs) in H1.
  split; [exact H1|]. split.
  - intros i layer Hi.
    destruct (Forall2_lookup_l _ _ _ _ _ Hobj Hi) as (h & Hh & Hl).
    rewrite Hl, <- Hh, <- H1. symmetry. apply lookup_take_lt.
    by apply lookup_lt_Some in Hi.
  - intros x Hx. apply H2. by left.
Qed.

Lemma enforceZIndex_orders_layers_witness :
  Scene.objects (enforceZIndex (Inputs.layers RendererCases.inputs1)
                   (Scene.with_objects [1%nat; 0%nat] sceneWithLayer))
  = [0%nat; 1%nat].
Proof.
  destruct (enforceZIndex_orders_layers (Inputs.layers RendererCases.inputs1)
              [0%nat; 1%nat] (Scene.with_objects [1%nat; 0%nat] sceneWithLayer))
    as (Htake & _).
  - repeat constructor.
  - apply (bool_decide_unpack _). vm_compute. exact I.
  - rewrite <- Htake. vm_compute. reflexivity.
Defined.
End PassFacts.

(** ** The toast store *)

Module ToastFacts.
Import ToastStore ToastVocabulary.

Lemma to_int_not_nil z :
  Z.to_int z ≠ Decimal.Pos Decimal.Nil ∧ Z.to_int z ≠ Decimal.Neg Decimal.Nil.
Proof.
  destruct z as [|p|p]; simpl; split; try discriminate;
    intros [= E]; by apply Unsigned.to_uint_nonnil in E.
Qed.

Lemma toastIdString_inj a b : toastIdString a = toastIdString b → a = b.
Proof.
  unfold toastIdString. simpl. intros [= E]. apply to_int_inj.
  change (NilZero.string_of_int (Z.to_int a) = NilZero.string_of_int (Z.to_int b)) in E.
  destruct (to_int_not_nil a) as [Ha1 Ha2], (to_int_not_nil b) as [Hb1 Hb2].
  pose proof (NilZero.isi _ Ha1 Ha2) as Ia.
  pose proof (NilZero.isi _ Hb1 Hb2) as Ib.
  rewrite E in Ia. congruence.
Qed.

Lemma numbered_filter (P : Toast.t → Prop) `{∀ t, Decision (P t)} s timers :
  numbered s → numbered (State.mk (filter P (State.toasts s)) (State.toastId s) timers).
Proof.
  intros (H0 & Hall & Hnd). split; [done|]. split.
  - simpl. apply Forall_forall. intros t [_ Hin]%list_elem_of_filter.
    rewrite Forall_forall in Hall. by apply Hall.
  - unfold ids in *. simpl. eapply sublist_NoDup; [exact Hnd|].
    apply fmap_sublist, sublist_filter.
Qed.

Lemma numbered_step op s :
  numbered s → State.toastId s < 2 ^ 53 →
  numbered (step op s) ∧ State.toastId (step op s) ≤ State.toastId s + 1.
Proof.
  intros Hn Hlt. pose proof Hn as (H0 & Hall & Hnd).
  destruct op as [toast|id| |id]; simpl.
  - unfold addToast, increment. rewrite bool_decide_eq_true_2 by done. simpl.
    split; [|lia]. split; [simpl; lia|]. split; simpl.
    + apply Forall_app. split.
      * eapply Forall_impl; [exact Hall|]. intros t (k & Hk & E).
        exists k. split; [lia|done].
      * apply Forall_singleton. exists (State.toastId s + 1). split; [lia|done].
    + unfold ids. simpl. rewrite fmap_app. apply NoDup_app.
      split; [exact Hnd|]. split; [|apply NoDup_singleton].
      intros x Hx Hin. apply list_elem_of_singleton in Hin. subst x.
      apply list_elem_of_fmap in Hx as (t & E & Ht).
      rewrite Forall_forall in Hall. destruct (Hall t Ht) as (k & Hk & E').
      rewrite E' in E. apply toastIdString_inj in E. lia.
  - split; [|lia]. by apply numbered_filter.
  - split; [|simpl; lia]. split; [done|]. split; [by apply Forall_nil|].
    apply NoDup_nil_2.
  - unfold timerFires. case_bool_decide; [|split; [done|lia]].
    split; [|simpl; lia]. by apply (numbered_filter _ s).
Qed.

Lemma numbered_run ops s n :
  numbered s → State.toastId s ≤ n → n + Z.of_nat (length ops) ≤ 2 ^ 53 →
  numbered (run ops s)
  ∧ State.toastId (run ops s) ≤ n + Z.of_nat (length ops).
Proof.
  revert s n. induction ops as [|op ops IH]; intros s n Hn Hle Hlen.
  - simpl. split; [done|lia].
  - simpl in Hlen. simpl run.
    destruct (numbered_step op s Hn) as [Hn' Hle']; [lia|].
    destruct (IH (step op s) (n + 1) Hn') as [H1 H2]; [lia|lia|].
    split; [done|]. simpl length. lia.
Qed.

(** X17. The ids of the toasts on display are pairwise distinct, after
    every sequence of [addToast], [removeToast], [clearAll] and timer
    callbacks of fewer than 2^53 steps (up to there the counter
    [toastId], a JavaScript number, still grows by one at every
    [addToast]); every id is [toast-k] for a [k] between 1 and the
    counter. *)
Theorem toast_ids_unique (ops : list Op) :
  Z.of_nat (length ops) ≤ 2 ^ 53 →
  let s := run ops initial in
  NoDup (ids s)
  ∧ Forall (λ t, ∃ k, 1 ≤ k ≤ State.toastId s ∧ Toast.id t = toastIdString k)
      (State.toasts s)
  ∧ State.toastId s ≤ Z.of_nat (length ops).
Proof.
  intros Hlen s.
  destruct (numbered_run ops initial 0) as [(_ & Hall & Hnd) Hle].
  - split; [done|]. split; [by apply Forall_nil|]. apply NoDup_nil_2.
  - done.
  - lia.
  - fold s in Hall, Hnd, Hle. split; [done|]. split; [done|]. lia.
Qed.

Lemma toast_ids_unique_witness :
  NoDup (ids (run toastOps initial))
  ∧ ids (run toastOps initial) = ["toast-3"].
Proof.
  destruct (toast_ids_unique toastOps) as (Hnd & _).
  - vm_compute. discriminate.
  - split; [exact Hnd | reflexivity].
Defined.

Lemma timed_step op s : timed s → timed (step op s).
Proof.
  intros Ht. destruct op as [toast|id| |id]; simpl.
  - intros t d. unfold addToast. simpl. rewrite elem_of_app, list_elem_of_singleton.
    intros [Hin | ->] Hd Hpos.
    + specialize (Ht t d Hin Hd Hpos).
      destruct (autoRemoved _); [|done]. apply elem_of_app. by left.
    + simpl in Hd. rewrite Hd. simpl.
      rewrite !bool_decide_eq_true_2 by lia. simpl.
      apply elem_of_app. right. by apply list_elem_of_singleton.
  - intros t d [_ Hin]%list_elem_of_filter. by apply Ht.
  - by intros t d ?%elem_of_nil.
  - unfold timerFires. case_bool_decide; [|done].
    intros t d [Hne Hin]%list_elem_of_filter Hd Hpos. simpl in Hin.
    simpl. apply list_elem_of_filter. split; [done|]. by apply Ht.
Qed.

Lemma timed_run ops s : timed s → timed (run ops s).
Proof.
  revert s. induction ops as [|op ops IH]; intros s Ht; [done|].
  simpl. apply IH. by apply timed_step.
Qed.

(** X18. Auto-dismissal.  After every sequence of operations a toast on
    display whose duration is a positive number has its timer pending:
    when that timer fires no toast with this id is on display any more,
    and the other toasts stay.  A toast added without a [duration] gets
    4000 ms; one added with [duration: undefined] carries no duration and
    gets no timer, like one with a duration of 0 or less: it stays until
    it is removed by hand.  The four helpers [toast.success],
    [toast.error], [toast.info] and [toast.warning] always make a toast
    with a positive duration and its timer. *)
Theorem toast_auto_dismiss (ops : list Op) :
  let s := run ops initial in
  (∀ t d, t ∈ State.toasts s → Toast.duration t = Some d → 0 < d →
     (Toast.id t, d) ∈ State.timers s
     ∧ (Toast.id t ∉ ids (timerFires (Toast.id t) s))
     ∧ ∀ t', t' ∈ State.toasts s → Toast.id t' ≠ Toast.id t →
         t' ∈ State.toasts (timerFires (Toast.id t) s))
  ∧ (∀ toast, ∃ t,
       State.toasts (addToast toast s) = State.toasts s ++ [t]
       ∧ Toast.duration t
         = match NewToast.duration toast with
           | Missing => Some 4000
           | Undefined => None
           | Number d => Some d
           end
       ∧ (∀ d, Toast.duration t = Some d → 0 < d →
            State.timers (addToast toast s) = State.timers s ++ [(Toast.id t, d)])
       ∧ (Toast.duration t = None ∨ (∃ d, Toast.duration t = Some d ∧ d ≤ 0) →
            State.timers (addToast toast s) = State.timers s))
  ∧ Forall (λ helper : string → State.t → State.t,
       ∀ message, ∃ t d,
         State.toasts (helper message s) = State.toasts s ++ [t]
         ∧ Toast.message t = message
         ∧ Toast.duration t = Some d ∧ 0 < d
         ∧ (Toast.id t, d) ∈ State.timers (helper message s))
      helpers.
Proof.
  intros s. split; [|split].
  - intros t d Hin Hd Hpos.
    assert (Ht : timed s) by (apply timed_run; by intros ? ? ?%elem_of_nil).
    specialize (Ht t d Hin Hd Hpos). split; [done|].
    unfold timerFires.
    rewrite bool_decide_eq_true_2
      by (apply list_elem_of_fmap; by exists (Toast.id t, d)).
    unfold ids. simpl. split.
    + intros (t' & E & [Hne _]%list_elem_of_filter)%list_elem_of_fmap. done.
    + intros t' Hin' Hne. by apply list_elem_of_filter.
  - intros toast. eexists. split; [reflexivity|]. simpl.
    split; [by destruct (NewToast.duration toast)|]. split.
    + intros d Hd Hpos. rewrite Hd. simpl.
      by rewrite !bool_decide_eq_true_2 by lia.
    + intros [Hd | (d & Hd & Hle)]; rewrite Hd; simpl; [done|].
      rewrite (bool_decide_eq_false_2 (0 < d)) by lia. by rewrite andb_false_r.
  - unfold helpers.
    repeat (apply Forall_cons; split); [| | | |apply Forall_nil_2];
      intros message; eexists; eexists;
      (split; [reflexivity|]); (split; [reflexivity|]);
      (split; [reflexivity|]); (split; [done|]);
      simpl; apply elem_of_app; right; by apply list_elem_of_singleton.
Qed.

Lemma toast_auto_dismiss_witness :
  Toast.mk "toast-1" success "Saved" (Some 4000) ∈ State.toasts (run twoToasts initial)
  ∧ ("toast-1", 4000) ∈ State.timers (run twoToasts initial)
  ∧ ids (timerFires "toast-1" (run twoToasts initial)) = ["toast-2"]
  ∧ State.timers
      (addToast (NewToast.mk info "Hint" Undefined) (run twoToasts initial))
    = State.timers (run twoToasts initial).
Proof.
  assert (Hin : Toast.mk "toast-1" success "Saved" (Some 4000)
                ∈ State.toasts (run twoToasts initial)).
  { vm_compute. left. }
  split; [exact Hin|].
  destruct (toast_auto_dismiss twoToasts) as (Hdismiss & Hadd & _).
  destruct (Hdismiss _ 4000 Hin eq_refl) as (Htimer & _); [reflexivity|].
  split; [exact Htimer|]. split; [reflexivity|].
  destruct (Hadd (NewToast.mk info "Hint" Undefined)) as (t & _ & Hd & _ & Hnone).
  apply Hnone. by left.
Defined.
End ToastFacts.

(** ** The recent files *)

Module RecentFilesFacts.
Import RecentFiles RecentFilesVocabulary.

Lemma slice0_take {A} (stop : Z) (arr : list A) :
  0 ≤ stop → slice0 stop arr = take (Z.to_nat stop) arr.
Proof.
  intros Hs. unfold slice0. rewrite bool_decide_eq_false_2 by lia.
  destruct (decide (stop ≤ Z.of_nat (length arr))) as [Hle|Hgt].
  - by rewrite Z.min_l by lia.
  - rewrite Z.min_r by lia. rewrite Nat2Z.id.
    rewrite !firstn_all2; [done | lia | lia].
Qed.

Lemma addRecentFile_list path type now s :
  State.maxFiles s = 10 →
  State.recentFiles (addRecentFile path type now s)
  = take 10 (RecentFile.mk path (or_else (Some (lastSegment path)) path) type now
             :: filter (λ f, RecentFile.path f ≠ path) (State.recentFiles s))
  ∧ State.maxFiles (addRecentFile path type now s) = 10.
Proof.
  intros Hm. unfold addRecentFile. rewrite Hm. simpl State.recentFiles.
  split; [|done]. case_bool_decide as Hlen.
  - by rewrite slice0_take by lia.
  - symmetry. apply firstn_all2. simpl. lia.
Qed.

Lemma tidy_step op s : tidy s → tidy (step op s).
Proof.
  intros (Hm & Hnd & Hlen). destruct op as [path type now|path|]; simpl.
  - destruct (addRecentFile_list path type now s Hm) as [E Hm'].
    split; [done|]. unfold paths. rewrite E. split.
    + eapply sublist_NoDup; [|apply fmap_sublist, sublist_take].
      rewrite fmap_cons. simpl. apply NoDup_cons. split.
      * intros (f & Ef & [Hne _]%list_elem_of_filter)%list_elem_of_fmap. done.
      * eapply sublist_NoDup; [exact Hnd|]. apply fmap_sublist, sublist_filter.
    + rewrite length_take. lia.
  - split; [done|]. split.
    + unfold paths. simpl. eapply sublist_NoDup; [exact Hnd|].
      apply fmap_sublist, sublist_filter.
    + simpl. etrans; [apply length_filter|done].
  - split; [done|]. split; [apply NoDup_nil_2|simpl; lia].
Qed.

Lemma tidy_run ops s : tidy s → tidy (run ops s).
Proof.
  revert s. induction ops as [|op ops IH]; intros s Ht; [done|].
  simpl. apply IH. by apply tidy_step.
Qed.

Lemma tidy_initial : tidy initial.
Proof. split; [done|]. split; [apply NoDup_nil_2|simpl; lia]. Qed.

(** X19. After every sequence of [addRecentFile], [removeRecentFile]
    and [clearRecentFiles] from the empty list, the list holds no path
    twice and at most ten files.  A file that is added then comes first,
    with the type and the clock reading given, whether it was listed
    before or not; the files that were listed with another path follow
    in their former order, cut after the tenth entry; and a file that is
    removed is not listed any more. *)
Theorem recent_files_are_tidy (ops : list Op) :
  let s := run ops initial in
  NoDup (paths s)
  ∧ (length (State.recentFiles s) ≤ 10)%nat
  ∧ (∀ path type now,
       ∃ name,
         State.recentFiles (addRecentFile path type now s)
         = take 10 (RecentFile.mk path name type now
                    :: filter (λ f, RecentFile.path f ≠ path) (State.recentFiles s)))
  ∧ (∀ path, path ∉ paths (removeRecentFile path s)).
Proof.
  intros s. destruct (tidy_run ops initial tidy_initial) as (Hm & Hnd & Hlen).
  fold s in Hm, Hnd, Hlen. split; [done|]. split; [done|]. split.
  - intros path type now. eexists.
    by destruct (addRecentFile_list path type now s Hm) as [E _].
  - intros path. unfold paths. simpl.
    intros (f & Ef & [Hne _]%list_elem_of_filter)%list_elem_of_fmap. done.
Qed.

(** *** The name of a recent file *)

Lemma has_separator_app before c name :
  is_separator c = true → has_separator (String.app before (String c name)) = true.
Proof.
  intros Hc. induction before as [|x before IH]; simpl.
  - by rewrite Hc.
  - change (has_separator (String.app before (String c name)) = true) in IH.
    rewrite IH. apply orb_true_r.
Qed.

(** [lastSegment] cuts after the last separator. *)
Lemma lastSegment_spec path :
  has_separator (lastSegment path) = false
  ∧ ((has_separator path = false ∧ lastSegment path = path)
     ∨ ∃ before c, is_separator c = true
                   ∧ path = String.app before (String c (lastSegment path))).
Proof.
  induction path as [|x r (Hsep & IH)]; simpl.
  - split; [done|]. by left.
  - destruct (has_separator r) eqn:Hr.
    + split; [done|]. right.
      destruct IH as [[Hnone _]|(before & c & Hc & E)]; [congruence|].
      exists (String x before), c. split; [done|].
      change (String x r = String x (String.app before (String c (lastSegment r)))).
      by rewrite <- E.
    + destruct (is_separator x) eqn:Hx.
      * split; [done|]. right. by exists EmptyString, x.
      * split; [simpl; by rewrite Hx, Hr|]. left. by rewrite orb_false_r.
Qed.

(** What follows the last separator of a string is determined. *)
Lemma last_separator_unique b1 c1 n1 b2 c2 n2 :
  is_separator c1 = true → is_separator c2 = true →
  has_separator n1 = false → has_separator n2 = false →
  String.app b1 (String c1 n1) = String.app b2 (String c2 n2) →
  n1 = n2.
Proof.
  intros H1 H2 Hn1 Hn2. revert b2.
  induction b1 as [|x b1 IH]; intros [|y b2] E.
  - by injection E.
  - change (String c1 n1 = String y (String.app b2 (String c2 n2))) in E.
    injection E as _ E. rewrite E, has_separator_app in Hn1; done.
  - change (String x (String.app b1 (String c1 n1)) = String c2 n2) in E.
    injection E as _ E. rewrite <- E, has_separator_app in Hn2; done.
  - change (String x (String.app b1 (String c1 n1))
            = String y (String.app b2 (String c2 n2))) in E.
    injection E as _ E. by apply (IH b2).
Qed.

(** X20. The name under which [addRecentFile] lists a file, at the head
    of the list, is what follows the last separator ([/] or backslash) of
    its path: the path is some text, a separator, and the name, which
    holds no separator.  There are two exceptions: a path without any
    separator is its own name, and a path that ends in a separator is
    listed under the whole path. *)
Theorem recent_file_name (path : string) (type : FileType) (now : Z) (s : State.t) :
  0 < State.maxFiles s →
  ∃ name rest,
    State.recentFiles (addRecentFile path type now s)
    = RecentFile.mk path name type now :: rest
    ∧ ((has_separator path = false ∧ name = path)
       ∨ (∃ before c,
            is_separator c = true
            ∧ path = String.app before (String c name)
            ∧ has_separator name = false ∧ name ≠ EmptyString)
       ∨ (∃ before c,
            is_separator c = true
            ∧ path = String.app before (String c EmptyString)
            ∧ name = path)).
Proof.
  intros Hmax.
  assert (Hhead : ∃ rest,
            State.recentFiles (addRecentFile path type now s)
            = RecentFile.mk path (or_else (Some (lastSegment path)) path) type now
              :: rest).
  { unfold addRecentFile. simpl State.recentFiles. case_bool_decide as Hlen.
    - rewrite slice0_take by lia.
      destruct (Z.to_nat (State.maxFiles s)) as [|n] eqn:Hn; [lia|].
      simpl. by eexists.
    - by eexists. }
  destruct Hhead as [rest Hhead].
  exists (or_else (Some (lastSegment path)) path), rest. split; [done|].
  destruct (lastSegment_spec path) as (Hsep & [[Hnone Hwhole]|(before & c & Hc & E)]).
  - left. split; [done|]. unfold or_else. rewrite Hwhole. by destruct path.
  - right. unfold or_else.
    destruct (lastSegment path) as [|x seg] eqn:Hseg; simpl.
    + right. by exists before, c.
    + left. exists before, c. by repeat split.
Qed.

Example lastSegment_examples :
  lastSegment "C:\Pics\cat.png" = "cat.png"
  ∧ lastSegment "/home/ann/trip.banslice" = "trip.banslice"
  ∧ lastSegment "cat.png" = "cat.png"
  ∧ lastSegment "C:\Pics\" = EmptyString.
Proof. by repeat split. Qed.

Lemma recent_file_name_witness :
  0 < State.maxFiles (run recentOps initial)
  ∧ ∃ rest,
      State.recentFiles
        (addRecentFile "C:\Pics\cat.png" image 30 (run recentOps initial))
      = RecentFile.mk "C:\Pics\cat.png" "cat.png" image 30 :: rest.
Proof.
  assert (Hmax : 0 < State.maxFiles (run recentOps initial)) by reflexivity.
  split; [exact Hmax|].
  destruct (recent_file_name "C:\Pics\cat.png" image 30 (run recentOps initial) Hmax)
    as (name & rest & E & Hname).
  exists rest. rewrite E. f_equal. f_equal.
  destruct Hname as [[Hnone _]|[(before & c & Hc & Hp & Hsep & _)
                               |(before & c & Hc & Hp & _)]].
  - discriminate Hnone.
  - apply (last_separator_unique before c name "C:\Pics" "\"%char "cat.png");
      [done | reflexivity | done | reflexivity | by rewrite <- Hp].
  - exfalso.
    assert (Hcontra : EmptyString = "cat.png"); [|discriminate Hcontra].
    apply (last_separator_unique before c EmptyString "C:\Pics" "\"%char "cat.png");
      [done | reflexivity | reflexivity | reflexivity | by rewrite <- Hp].
Defined.

(** *** Most recent first *)

Lemma StronglySorted_sublist {A} (R : relation A) (l1 l2 : list A) :
  l1 `sublist_of` l2 → StronglySorted R l2 → StronglySorted R l1.
Proof.
  induction 1 as [|x l1 l2 Hsub IH|x l1 l2 Hsub IH]; intros Hs.
  - constructor.
  - apply StronglySorted_inv in Hs as [Hs Hall]. constructor; [by apply IH|].
    apply Forall_forall. intros y Hy. rewrite Forall_forall in Hall.
    apply Hall. by eapply elem_of_sublist.
  - apply StronglySorted_inv in Hs as [Hs _]. by apply IH.
Qed.

Lemma run_snoc ops op s : run (ops ++ [op]) s = step op (run ops s).
Proof. unfold run. by rewrite fold_left_app. Qed.

Lemma clock_snoc ops op : clock (ops ++ [op]) = clock ops ++ clock [op].
Proof. apply omap_app. Qed.

Lemma dated_run ops :
  StronglySorted Z.le (clock ops) →
  Forall (λ f, RecentFile.timestamp f ∈ clock ops) (State.recentFiles (run ops initial))
  ∧ StronglySorted (λ a b, RecentFile.timestamp b ≤ RecentFile.timestamp a)
      (State.recentFiles (run ops initial)).
Proof.
  induction ops as [|op ops IH] using rev_ind; intros Hclock.
  - split; [apply Forall_nil_2|constructor].
  - rewrite clock_snoc in Hclock. rewrite run_snoc, clock_snoc.
    apply StronglySorted_app in Hclock as (Hlt & Hc & _).
    destruct (IH Hc) as [Hin Hs]. clear IH.
    destruct (tidy_run ops initial tidy_initial) as (Hm & _).
    assert (Hweak : ∀ l : list RecentFile.t,
              Forall (λ f, RecentFile.timestamp f ∈ clock ops) l →
              Forall (λ f, RecentFile.timestamp f ∈ clock ops ++ clock [op]) l).
    { intros l Hl. eapply Forall_impl; [exact Hl|].
      intros f Hf. apply elem_of_app. by left. }
    destruct op as [path type now|path|]; simpl step.
    + destruct (addRecentFile_list path type now (run ops initial) Hm) as [E _].
      rewrite E. clear E.
      assert (Hfin : Forall (λ f, RecentFile.timestamp f ∈ clock ops)
                       (filter (λ f, RecentFile.path f ≠ path)
                          (State.recentFiles (run ops initial)))).
      { apply Forall_forall. intros f [_ Hf]%list_elem_of_filter.
        rewrite Forall_forall in Hin. by apply Hin. }
      split.
      * apply Forall_forall. intros f Hf.
        apply (λ H, elem_of_sublist _ _ _ H (sublist_take _ _)) in Hf.
        apply elem_of_cons in Hf as [->|Hf].
        -- simpl. apply elem_of_app. right. by left.
        -- apply elem_of_app. left. rewrite Forall_forall in Hfin. by apply Hfin.
      * eapply StronglySorted_sublist; [apply sublist_take|].
        constructor.
        -- eapply StronglySorted_sublist; [apply sublist_filter|done].
        -- eapply Forall_impl; [exact Hfin|]. intros f Hf. simpl.
           apply (Hlt _ now Hf). simpl. by left.
    + split.
      * apply Hweak. apply Forall_forall. intros f [_ Hf]%list_elem_of_filter.
        rewrite Forall_forall in Hin. by apply Hin.
      * simpl. eapply StronglySorted_sublist; [apply sublist_filter|done].
    + split; [apply Forall_nil_2|constructor].
Qed.

(** X21. With a clock that never goes backwards, the recent files are
    listed from the most recent to the oldest: after every sequence of
    operations from the empty list the timestamps never increase along
    the list, and each one is a clock reading of an [addRecentFile]. *)
Theorem recent_files_most_recent_first (ops : list Op) :
  StronglySorted Z.le (clock ops) →
  let s := run ops initial in
  StronglySorted (λ a b, RecentFile.timestamp b ≤ RecentFile.timestamp a)
    (State.recentFiles s)
  ∧ Forall (λ f, RecentFile.timestamp f ∈ clock ops) (State.recentFiles s).
Proof. intros Hclock s. by destruct (dated_run ops Hclock). Qed.

Lemma recent_files_most_recent_first_witness :
  StronglySorted Z.le (clock recentOps)
  ∧ StronglySorted (λ a b, RecentFile.timestamp b ≤ RecentFile.timestamp a)
      (State.recentFiles (run recentOps initial))
  ∧ paths (run recentOps initial) = ["C:\Pics\cat.png"; "/home/ann/trip.banslice"].
Proof.
  assert (Hclock : StronglySorted Z.le (clock recentOps)).
  { vm_compute. repeat constructor; discriminate. }
  split; [exact Hclock|].
  destruct (recent_files_most_recent_first recentOps Hclock) as [Hs _].
  split; [exact Hs | reflexivity].
Defined.
End RecentFilesFacts.

(** ** The compositor *)

Module CompositorFacts.
Import Compositor.

Lemma insertByOrder_Permutation layer sorted :
  insertByOrder layer sorted ≡ₚ layer :: sorted.
Proof.
  induction sorted as [|l rest IH]; simpl; [done|].
  case_bool_decide; [done|]. rewrite IH. apply Permutation_swap.
Qed.

Lemma insertByOrder_sorted layer sorted :
  StronglySorted below sorted → StronglySorted below (insertByOrder layer sorted).
Proof.
  induction 1 as [|l rest Hs IH Hall]; simpl.
  - repeat constructor.
  - case_bool_decide as Hle.
    + constructor; [by constructor|]. constructor; [done|].
      eapply Forall_impl; [exact Hall|]. intros x Hx. unfold below in *. lia.
    + constructor; [done|].
      rewrite (insertByOrder_Permutation layer rest).
      constructor; [unfold below; lia|done].
Qed.

Lemma sortByOrder_spec layers :
  sortByOrder layers ≡ₚ layers ∧ StronglySorted below (sortByOrder layers).
Proof.
  unfold sortByOrder. induction layers as [|l layers [IHp IHs]]; simpl.
  - split; [done|constructor].
  - split; [by rewrite insertByOrder_Permutation, IHp|by apply insertByOrder_sorted].
Qed.

(** Layers that come in the order of their [order] are left as they
    are, also those of equal [order]. *)
Lemma sortByOrder_sorted layers :
  StronglySorted below layers → sortByOrder layers = layers.
Proof.
  unfold sortByOrder. induction 1 as [|l rest Hs IH Hall]; simpl; [done|].
  rewrite IH. destruct rest as [|l' rest']; [done|]. simpl.
  apply Forall_cons in Hall as [Hle _]. by rewrite bool_decide_eq_true_2.
Qed.

Lemma drawLayers_spec loadImage sortedLayers :
  match drawLayers loadImage sortedLayers with
  | Some draws =>
      Forall2 (λ d l, ∃ img, loadImage (Layer.imageData l) = Some img ∧ d = drawOf l img)
        draws (filter (λ l, Layer.visible l = true) sortedLayers)
  | None =>
      ∃ l, l ∈ sortedLayers ∧ Layer.visible l = true
           ∧ loadImage (Layer.imageData l) = None
  end.
Proof.
  induction sortedLayers as [|layer rest IH]; simpl; [constructor|].
  rewrite filter_cons.
  destruct (decide (Layer.visible layer = true)) as [Hv|Hv].
  - rewrite Hv. simpl.
    destruct (loadImage (Layer.imageData layer)) as [img|] eqn:Hl.
    + destruct (drawLayers loadImage rest) as [draws|]; simpl.
      * constructor; [by exists img|done].
      * destruct IH as (l & Hin & Hlv & Hnone). exists l. split; [by right|done].
    + exists layer. split; [by left|done].
  - apply not_true_is_false in Hv. rewrite Hv. simpl.
    destruct (drawLayers loadImage rest) as [draws|]; [done|].
    destruct IH as (l & Hin & Hlv & Hnone). exists l. split; [by right|done].
Qed.

(** X22. [compositeLayersInBrowser] draws the visible layers and only
    them, bottom-most first: the draw calls correspond one to one, in
    order, to the visible layers sorted by [order] (a stack that already
    comes in that order is drawn in the order of the array), each with
    the layer's opacity and position, and with the layer's size or else
    the natural size of its image.  The image of a hidden layer is never
    loaded: the composition fails exactly when the image of some visible
    layer fails to load. *)
Theorem compositor_draws_visible_layers (loadImage : string → option (Z * Z))
    (layers : list Layer.t) :
  let sortedLayers := sortByOrder layers in
  sortedLayers ≡ₚ layers
  ∧ StronglySorted below sortedLayers
  ∧ (StronglySorted below layers → sortedLayers = layers)
  ∧ (∀ draws, compositeLayersInBrowser loadImage layers = Some draws →
       Forall2 (λ d l, ∃ img, loadImage (Layer.imageData l) = Some img
                              ∧ d = drawOf l img)
         draws (filter (λ l, Layer.visible l = true) sortedLayers))
  ∧ (compositeLayersInBrowser loadImage layers = None ↔
       ∃ l, l ∈ layers ∧ Layer.visible l = true
            ∧ loadImage (Layer.imageData l) = None).
Proof.
  intros sortedLayers. destruct (sortByOrder_spec layers) as [Hp Hs].
  split; [done|]. split; [done|]. split; [apply sortByOrder_sorted|].
  unfold compositeLayersInBrowser. fold sortedLayers.
  pose proof (drawLayers_spec loadImage sortedLayers) as Hd.
  split.
  - intros draws E. by rewrite E in Hd.
  - split.
    + intros E. rewrite E in Hd. destruct Hd as (l & Hin & Hv & Hn).
      exists l. split; [by rewrite <- Hp|done].
    + intros (l & Hin & Hv & Hn).
      destruct (drawLayers loadImage sortedLayers) as [draws|]; [|done].
      exfalso. rewrite <- Hp in Hin.
      assert (Hf : l ∈ filter (λ l, Layer.visible l = true) sortedLayers)
        by by apply list_elem_of_filter.
      apply list_elem_of_lookup in Hf as [i Hi].
      destruct (Forall2_lookup_r _ _ _ _ _ Hd Hi) as (d & _ & img & Himg & _).
      congruence.
Qed.

Example compositor_test :
  Layer.name <$> sortByOrder testLayers = ["Bottom"; "Middle (Hidden)"; "Top"]
  ∧ compositeLayersInBrowser testLoader testLayers
    = Some [Draw.mk "bottom" 100 0 0 100 100; Draw.mk "top" 50 10 10 50 50].
Proof. by vm_compute. Qed.
End CompositorFacts.

(** ** The layer panel *)

Module LayerPanelFacts.
Import LayerPanel.

(** X23. When [onDragEnd] calls [reorderLayers], the two indices it
    passes are positions of the store's array, they differ, and they are
    those of the very layers the user dragged and dropped on in the
    displayed (reversed) list, neither of which is the base layer.  With
    both indices of the drop inside the displayed list no [TypeError] is
    raised. *)
Theorem onDragEnd_indices (layers : list Layer.t) (source : nat)
    (destination : option nat) :
  (∀ actualFrom actualTo,
     onDragEnd layers source destination = Reorder actualFrom actualTo →
     0 ≤ actualFrom < Z.of_nat (length layers)
     ∧ 0 ≤ actualTo < Z.of_nat (length layers)
     ∧ actualFrom ≠ actualTo
     ∧ ∃ d dragged target,
         destination = Some d
         ∧ reverse layers !! source = Some dragged
         ∧ reverse layers !! d = Some target
         ∧ layers !! Z.to_nat actualFrom = Some dragged
         ∧ layers !! Z.to_nat actualTo = Some target
         ∧ Layer.type dragged ≠ "base"
         ∧ Layer.type target ≠ "base")
  ∧ ((source < length layers)%nat →
     (∀ d, destination = Some d → (d < length layers)%nat) →
     onDragEnd layers source destination ≠ TypeError).
Proof.
  unfold onDragEnd, isBaseLayer. split.
  - intros actualFrom actualTo.
    destruct destination as [d|]; [|done].
    case_bool_decide as Hsame; [done|].
    destruct (reverse layers !! source) as [dragged|] eqn:Hs; [|done].
    case_bool_decide as Hb1; [done|].
    destruct (reverse layers !! d) as [target|] eqn:Hd; [|done].
    case_bool_decide as Hb2; [done|].
    intros [= <- <-].
    apply reverse_lookup_Some in Hs as [Hs Hls], Hd as [Hd Hld].
    split; [lia|]. split; [lia|]. split; [lia|].
    exists d, dragged, target. split; [done|]. split; [done|].
    split; [by apply reverse_lookup_Some|].
    replace (Z.to_nat (Z.of_nat (length layers) - 1 - Z.of_nat source))
      with (length layers - S source)%nat by lia.
    replace (Z.to_nat (Z.of_nat (length layers) - 1 - Z.of_nat d))
      with (length layers - S d)%nat by lia.
    done.
  - intros Hs Hd. destruct destination as [d|]; [|done].
    specialize (Hd d eq_refl).
    case_bool_decide; [done|].
    destruct (lookup_lt_is_Some_2 (reverse layers) source) as [dragged ->];
      [by rewrite length_reverse|].
    case_bool_decide; [done|].
    destruct (lookup_lt_is_Some_2 (reverse layers) d) as [target ->];
      [by rewrite length_reverse|].
    by case_bool_decide.
Qed.

Example onDragEnd_panel :
  onDragEnd panelLayers 0 (Some 1%nat) = Reorder 2 1
  ∧ onDragEnd panelLayers 0 (Some 2%nat) = NoCall
  ∧ onDragEnd panelLayers 1 None = NoCall
  ∧ onDragEnd panelLayers 0 (Some 3%nat) = TypeError.
Proof. by vm_compute. Qed.
End LayerPanelFacts.

(** ** The tool store *)

Module ToolStoreFacts.
Import ToolStore.

Lemma mirrored_step op s : nested s = flat s → nested (step op s) = flat (step op s).
Proof.
  unfold nested, flat. intros [= E1 E2 E3].
  destruct op; simpl; congruence.
Qed.

(** X24. The brush settings are kept twice, in the object
    [brushSettings] and in three flat fields.  After every sequence of
    the store's actions ([setTool], [setActiveTool], [setBrushSize],
    [setBrushHardness], [setBrushFeather]) from the initial state both
    hold the same size, hardness and feather. *)
Theorem brush_settings_mirrored (ops : list Op) :
  nested (run ops initial) = flat (run ops initial).
Proof.
  generalize (eq_refl : nested initial = flat initial).
  generalize initial. induction ops as [|op ops IH]; intros s0 H0; [done|].
  simpl. apply IH. by apply mirrored_step.
Qed.
End ToolStoreFacts.
